(** * boyle: masks over Nifti volumes, rc-file settings, commands, storage

    A shallow embedding of
      - [boyle/nifti/mask.py]  (load_mask, load_mask_data, binarise,
        union_mask, apply_mask, apply_mask_4d, niftilist_mask_to_array),
      - [boyle/nifti/read.py]  (read_img, get_img_info, get_img_data,
        niftilist_to_array),
      - [boyle/utils/rcfile.py] (merge, get_environment,
        get_config_filepaths, get_config, get_sections, get_sys_path,
        rcfile, get_rcfile_section, get_rcfile_variable_value,
        find_in_sections),
      - [boyle/commands.py]    (which, which_py3, which_py2,
        condor_submit, condor_call),
      - [boyle/storage.py]     (save_variables_to_shelve,
        save_variables_to_mat, save_variables_to_hdf5,
        ExportData.save_variables, ExportData.save_varlist),
    followed by the properties proved about them.

    Conventions.
      - Voxel values are integers ([Z]); an array is its shape together
        with its elements in C (row-major) order, as numpy stores them.
        Where the code stores values under an element type (the sums of
        [union_mask], the matrix of [niftilist_mask_to_array]), the type
        is one of numpy's boolean and fixed-width integer types and the
        values are cast to it.
      - The dict that [rcfile] changes while it iterates it behaves as
        in CPython 3 and is modelled with the layout of its entries
        (Objects/dictobject.c: insertion order, holes, growth of
        CPython 3.10 and later; the iterator of 3.8 and later).
      - A Python exception is a value of [exn]; a call that may raise
        returns a [result].
      - Code that logs or reads voxel data runs in [M], which records the
        events in program order next to the result; code that runs
        commands runs in [P], code that writes files in [storage.IO].
      - [check_img], [repr_imgs] and the formatting of arrays belong to
        [boyle/nifti/check.py] and numpy; they are fields of a [World].
        What the other modules read from the operating system and from
        their libraries is a field of [Sys], [Files], [Os], [Subprocess]
        or [Store]. *)

From stdpp Require Import gmap strings list fin_maps sorting.
From Stdlib Require Import ZArith Lia Ascii.

Local Open Scope string_scope.
Local Open Scope nat_scope.
Local Open Scope list_scope.

(** ** Exceptions and results *)

Inductive exn : Type :=
  | ValueError (msg : string)
  | TypeError (msg : string)
  | IndexError (msg : string)
  | KeyError (key : string)
  | NameError (name : string)
  | UnboundLocalError (name : string)
  | AttributeError (msg : string)
  | RuntimeError (msg : string)
  | IOError (msg : string)
  | FileNotFound (path : string)
  | NiftiFilesNotCompatible (one another : string)
  | LibraryError (msg : string).

Inductive result (A : Type) : Type :=
  | Ok (a : A)
  | Raise (e : exn).
Arguments Ok {A} a.
Arguments Raise {A} e.

Definition result_bind {A B} (r : result A) (f : A → result B) : result B :=
  match r with
  | Ok a => f a
  | Raise e => Raise e
  end.

(** ** Arrays (numpy) *)

Module np.

Record ndarray : Type := array { shape : list nat; data : list Z }.

(** [np.prod(shape)]: the number of elements of an array of that shape. *)
Definition size_of (sh : list nat) : nat := foldr Nat.mul 1 sh.

(** The invariant of every numpy array. *)
Definition wf (a : ndarray) : Prop := length (data a) = size_of (shape a).

(** [np.unique]: the sorted distinct values. *)
Fixpoint insert_sorted (x : Z) (l : list Z) : list Z :=
  match l with
  | [] => [x]
  | y :: l' =>
      if (x <? y)%Z then x :: l
      else if (x =? y)%Z then l
      else y :: insert_sorted x l'
  end.

Definition unique (a : ndarray) : list Z := foldr insert_sorted [] (data a).

(** [np.unravel_index] and [np.ravel_multi_index] in C order. *)
Fixpoint unravel_index (sh : list nat) (i : nat) : list nat :=
  match sh with
  | [] => []
  | _ :: ds => (i / size_of ds) :: unravel_index ds (i mod size_of ds)
  end.

Fixpoint ravel_multi_index (sh : list nat) (idx : list nat) : nat :=
  match sh, idx with
  | _ :: ds, x :: xs => x * size_of ds + ravel_multi_index ds xs
  | _, _ => 0
  end.

(** [np.flatnonzero]: the flat positions of the non-zero elements,
    ascending. *)
Fixpoint nonzero_from (i : nat) (l : list Z) : list nat :=
  match l with
  | [] => []
  | x :: l' =>
      if (x =? 0)%Z then nonzero_from (S i) l'
      else i :: nonzero_from (S i) l'
  end.

Definition flatnonzero (l : list Z) : list nat := nonzero_from 0 l.

(** [np.where(a)] with one argument ([where] is reserved in Rocq): a
    tuple with one index array per
    axis, listing the coordinates of the non-zero elements in C order. *)
Definition where_ (a : ndarray) : list (list nat) :=
  map (λ ax, map (λ i, nth ax (unravel_index (shape a) i) 0)
                 (flatnonzero (data a)))
      (seq 0 (length (shape a))).

Definition zeros (sh : list nat) : ndarray :=
  {| shape := sh; data := replicate (size_of sh) 0%Z |}.

Definition zeros_like (a : ndarray) : ndarray := zeros (shape a).

(** [np.count_nonzero(a)] for an array. *)
Definition count_nonzero (a : ndarray) : nat := length (flatnonzero (data a)).

(** [np.count_nonzero(obj)] for an argument that is no array. numpy wraps
    an object that offers no array interface, no buffer and no length
    into a 0-d object array and counts the truth value of that single
    element; an image object defines neither [__bool__] nor [__len__],
    so it counts as one. *)
Definition count_nonzero_object {A : Type} (obj : A) : nat := 1.

(** The [r] elements of block [i] of a flat buffer. *)
Definition block (r : nat) (l : list Z) (i : nat) : list Z :=
  take r (drop (i * r) l).

(** [a[m]] for a boolean array [m]: the shape of [m] must equal the
    leading dimensions of [a]; the result has one row per true element
    of [m] (C order), each row holding the remaining dimensions. *)
Definition getitem_mask (a m : ndarray) : result ndarray :=
  let k := length (shape m) in
  if bool_decide (take k (shape a) = shape m) then
    let rest := drop k (shape a) in
    Ok {| shape := count_nonzero m :: rest;
          data := concat (map (block (size_of rest) (data a))
                              (flatnonzero (data m))) |}
  else Raise (IndexError "boolean index did not match indexed array").

(** The coordinates held at position [p] of a tuple of index arrays. *)
Definition coords (idx : list (list nat)) (p : nat) : list nat :=
  map (λ arr, nth p arr 0) idx.

Definition index_count (idx : list (list nat)) : nat :=
  match idx with
  | [] => 0
  | arr :: _ => length arr
  end.

Definition in_bounds (sh : list nat) (c : list nat) : bool :=
  forallb (λ xd, fst xd <? snd xd) (zip c sh).

Definition valid_index (sh : list nat) (idx : list (list nat)) : bool :=
  bool_decide (length idx ≤ length sh)
  && forallb (λ arr, length arr =? index_count idx) idx
  && forallb (λ p, in_bounds sh (coords idx p)) (seq 0 (index_count idx)).

(** [a[idx]] for a tuple [idx] of integer index arrays of one length:
    element [p] of the result is [a[idx[0][p], idx[1][p], ...]], a
    sub-array when the tuple is shorter than the number of axes. *)
Definition getitem_tuple (a : ndarray) (idx : list (list nat)) : result ndarray :=
  match idx with
  | [] => Ok a
  | _ =>
      if valid_index (shape a) idx then
        let k := length idx in
        let rest := drop k (shape a) in
        Ok {| shape := index_count idx :: rest;
              data := concat (map (λ p, block (size_of rest) (data a)
                                          (ravel_multi_index (take k (shape a)) (coords idx p)))
                                  (seq 0 (index_count idx))) |}
      else Raise (IndexError "index out of bounds or too many indices")
  end.

(** Whether a value of shape [sh] can be assigned to a row of [c]
    elements: counted from the right, the last dimension is [c] or 1 and
    every other dimension is 1. *)
Definition broadcastable_to_row (sh : list nat) (c : nat) : bool :=
  match reverse sh with
  | [] => true
  | d :: ones => ((d =? c) || (d =? 1)) && forallb (λ x, x =? 1) ones
  end.

(** [out[i, :] = v] for a two-dimensional [out]. *)
Definition setitem_row (out : ndarray) (i : nat) (v : ndarray) : result ndarray :=
  match shape out with
  | [n; c] =>
      if negb (i <? n) then Raise (IndexError "index out of bounds")
      else if broadcastable_to_row (shape v) c then
        let row := if length (data v) =? c then data v
                   else replicate c (nth 0 (data v) 0%Z) in
        Ok {| shape := [n; c];
              data := take (i * c) (data out) ++ row ++ drop (i * c + c) (data out) |}
      else Raise (ValueError "could not broadcast input array")
  | _ => Raise (IndexError "too many indices for array")
  end.

(** [out[idx] = vals] for a tuple of index arrays that addresses single
    elements and a one-dimensional [vals] of the same length; the
    assignments happen in order of position. *)
Definition setitem_tuple (out : ndarray) (idx : list (list nat)) (vals : ndarray)
  : result ndarray :=
  if bool_decide (length idx = length (shape out))
     && valid_index (shape out) idx
     && bool_decide (shape vals = [index_count idx])
  then
    Ok {| shape := shape out;
          data := foldl (λ d p, <[ravel_multi_index (shape out) (coords idx p)
                                   := nth p (data vals) 0%Z]> d)
                        (data out) (seq 0 (index_count idx)) |}
  else Raise (IndexError "shape mismatch in indexed assignment").

(** The element types of the arrays modelled: numpy's boolean and its
    fixed-width integers. *)
Inductive width : Type := W8 | W16 | W32 | W64.

Definition bits (w : width) : Z :=
  match w with
  | W8 => 8
  | W16 => 16
  | W32 => 32
  | W64 => 64
  end.

Inductive dtype : Type :=
  | bool_
  | uint (w : width)
  | int_ (w : width).

(** [np.uint8], [np.int16], [np.int64] *)
Definition uint8 : dtype := uint W8.
Definition int16 : dtype := int_ W16.
Definition int64 : dtype := int_ W64.

(** The value an integer becomes when it is stored with element type
    [dt]: True for every non-zero value; otherwise the low bits of the
    value, read as unsigned or as two's complement. *)
Definition cast (dt : dtype) (x : Z) : Z :=
  match dt with
  | bool_ => if (x =? 0)%Z then 0%Z else 1%Z
  | uint w => (x mod 2 ^ bits w)%Z
  | int_ w => ((x + 2 ^ (bits w - 1)) mod 2 ^ bits w - 2 ^ (bits w - 1))%Z
  end.

(** [a.astype(dt)], which is also what an assignment into an array of
    element type [dt] does to the values assigned. *)
Definition astype (dt : dtype) (a : ndarray) : ndarray :=
  {| shape := shape a; data := map (cast dt) (data a) |}.

(** Whether [a += b] is allowed for [a] of element type [dt_a] and [b]
    of element type [dt_b].  numpy adds in the common type of the two
    and stores the sum back under the casting rule [same_kind]: a
    boolean array takes booleans only; an unsigned array takes booleans
    and unsigned integers (with a signed operand the common type is
    signed or floating); a signed array takes everything but uint64
    (whose common type with a signed integer is float64). *)
Definition can_iadd (dt_a dt_b : dtype) : bool :=
  match dt_a, dt_b with
  | bool_, bool_ => true
  | bool_, _ => false
  | uint _, int_ _ => false
  | uint _, _ => true
  | int_ _, uint W64 => false
  | int_ _, _ => true
  end.

(** [a += b] for [a] of element type [dt_a] and [b] of element type
    [dt_b]: the sums are stored with the element type of [a], so they
    wrap around when they leave its range (and booleans are or-ed).  A
    refused cast is numpy's UFuncTypeError, a TypeError.  The operands
    have one shape at every call site (the shapes have been checked
    before); other shapes are refused. *)
Definition iadd (dt_a dt_b : dtype) (a b : ndarray) : result ndarray :=
  if negb (can_iadd dt_a dt_b) then
    Raise (TypeError "Cannot cast ufunc 'add' output with casting rule 'same_kind'")
  else if bool_decide (shape a = shape b) then
    Ok {| shape := shape a; data := zip_with (λ x y, cast dt_a (x + y)) (data a) (data b) |}
  else Raise (ValueError "operands could not be broadcast together").

(** [a > t], elementwise, as a boolean array (1 for True, 0 for False). *)
Definition greater (a : ndarray) (t : Z) : ndarray :=
  {| shape := shape a; data := map (λ x, if (t <? x)%Z then 1%Z else 0%Z) (data a) |}.

(** [a.flatten()]: the elements in C order as a one-dimensional array. *)
Definition flatten (a : ndarray) : ndarray :=
  {| shape := [size_of (shape a)]; data := data a |}.

End np.

(** ** Images, events and the effect monad *)

(** A Nifti image: voxel data, 4x4 affine (its entries, row by row) and
    header.  [nib.Nifti1Image(data, affine, header)] builds one. *)
Record Img : Type := Nifti1Image {
  dataobj : np.ndarray;
  get_affine : list Z;
  get_header : string
}.

(** [img.shape] *)
Definition img_shape (img : Img) : list nat := np.shape (dataobj img).

(** What the functions take as an image: a file path, an image object,
    or anything else (None, a number, ...). *)
Inductive image_like : Type :=
  | Path (p : string)
  | ImgObj (img : Img)
  | NotImg.

Inductive event : Type :=
  | EvGetData (img : Img)      (* the voxel data of [img] is read *)
  | EvLog (msg : string).      (* [log.exception(msg)] / [log.error(msg)] *)

Definition M (A : Type) : Type := (result A * list event)%type.

Definition ret {A} (a : A) : M A := (Ok a, []).
Definition raise {A} (e : exn) : M A := (Raise e, []).
Definition lift {A} (r : result A) : M A := (r, []).
Definition emit (ev : event) : M unit := (Ok tt, [ev]).

Definition bind {A B} (m : M A) (f : A → M B) : M B :=
  match m with
  | (Ok a, t) => let '(r, t') := f a in (r, t ++ t')
  | (Raise e, t) => (Raise e, t)
  end.

Notation "'let*' x ':=' m 'in' k" := (bind m (λ x, k))
  (at level 10, x pattern, m at level 100, k at level 200).

(** [try: body  except: handler] (the handlers below catch everything
    the model can raise, so [except:] and [except Exception:] agree). *)
Definition try_except {A} (body : M A) (handler : exn → M A) : M A :=
  match body with
  | (Raise e, t) => let '(r, t') := handler e in (r, t ++ t')
  | (Ok a, t) => (Ok a, t)
  end.

(** [try: body  except IndexError: handler]: every other exception
    passes the handler by. *)
Definition is_IndexError (e : exn) : bool :=
  match e with
  | IndexError _ => true
  | _ => false
  end.

Definition is_KeyError (e : exn) : bool :=
  match e with
  | KeyError _ => true
  | _ => false
  end.


Definition try_except_if {A} (catches : exn → bool) (body : M A) (handler : exn → M A)
  : M A :=
  try_except body (λ e, if catches e then handler e else raise e).

Definition log_exception (msg : string) : M unit := emit (EvLog msg).

(** The handler [log.exception(msg); raise]. *)
Definition log_and_reraise {A} (msg : string) (e : exn) : M A :=
  let* _ := log_exception msg in raise e.

(** The handler [log.exception(msg); raise e'], which replaces the
    exception caught. *)
Definition log_and_raise {A} (msg : string) (e' : exn) (_ : exn) : M A :=
  let* _ := log_exception msg in raise e'.

Definition events {A} (m : M A) : list event := snd m.
Definition outcome {A} (m : M A) : result A := fst m.

(** ** Helpers from boyle/nifti/check.py, utils/numpy_mem.py and nibabel *)

(** [check_img(image, make_it_3d)], [repr_imgs] and the text numpy prints
    for an array are parameters: check.py is not part of the sources.
    So is the element type numpy gives the voxel array of an image
    ([img.get_data().dtype]), which the file decides. *)
Record World : Type := {
  check_img : image_like → bool → result Img;
  repr_imgs : image_like → string;
  repr_array : list Z → string;
  dtype_of : Img → np.dtype
}.

(** The one thing every docstring of mask.py and read.py says of
    [check_img]: an object that already is an image is taken as it is. *)
Definition accepts_loaded (w : World) : Prop :=
  ∀ img, check_img w (ImgObj img) false = Ok img.

(** [img.get_data()] of nibabel: the voxel array; the read is recorded. *)
Definition Img_get_data (img : Img) : M np.ndarray :=
  let* _ := emit (EvGetData img) in ret (dataobj img).

(** Modelled from the spec: [get_data] of check.py is not under src/.
    The image shim "exposes voxel data": it returns the voxel array of an
    image, and the read is recorded. *)
Definition get_data (img : Img) : M np.ndarray :=
  let* _ := emit (EvGetData img) in ret (dataobj img).

(** Modelled from the spec: [as_ndarray(arr, dtype=bool)] of
    utils/numpy_mem.py is not under src/.  A mask is "an Image whose
    voxel data is constrained to boolean values": every non-zero element
    becomes True (1), every zero False (0), the shape is kept. *)
Definition as_ndarray_bool (a : np.ndarray) : np.ndarray :=
  {| np.shape := np.shape a;
     np.data := map (λ x, if (x =? 0)%Z then 0%Z else 1%Z) (np.data a) |}.

(** Modelled from the spec: the comparison inside the compatibility check
    of check.py (not under src/): "compares shape (and optionally only
    the first three spatial dimensions)". *)
Definition have_same_shape (a b : Img) (only_check_3d : bool) : bool :=
  if only_check_3d
  then bool_decide (take 3 (img_shape a) = take 3 (img_shape b))
  else bool_decide (img_shape a = img_shape b).

(** Modelled from the spec: [check_img_compatibility] of check.py is not
    under src/.  "Compares shape/affine metadata between two images,
    raising a typed incompatibility error on mismatch", "naming both
    images".  Both arguments are image-likes and are resolved by
    [check_img] as everywhere else. *)
Definition check_img_compatibility (w : World) (one_img another_img : image_like)
    (only_check_3d : bool) : result unit :=
  result_bind (check_img w one_img false) (λ a,
  result_bind (check_img w another_img false) (λ b,
    if have_same_shape a b only_check_3d && bool_decide (get_affine a = get_affine b)
    then Ok tt
    else Raise (NiftiFilesNotCompatible (repr_imgs w one_img) (repr_imgs w another_img)))).

(** Modelled from the spec: [are_compatible_imgs] of check.py is not
    under src/; it is the compatibility check as a truth value. *)
Definition are_compatible_imgs (w : World) (one_img another_img : image_like) : bool :=
  match check_img_compatibility w one_img another_img false with
  | Ok _ => true
  | Raise _ => false
  end.

(** ** boyle/nifti/read.py *)

Module read.

Definition get_img_data (w : World) (image : image_like) (copy : bool) : M np.ndarray :=
  try_except
    (let* img := lift (check_img w image false) in
     if copy then get_data img else Img_get_data img)
    (log_and_reraise ("Error when reading file " +:+ repr_imgs w image +:+ ".")).

(** Return a representation of the image. *)
Definition read_img (w : World) (img_file : image_like) : result Img :=
  check_img w img_file false.

(** Return the header and affine matrix from a Nifti file. *)
Definition get_img_info (w : World) (image : image_like) : M (string * list Z) :=
  let* img :=
    try_except (lift (check_img w image false))
      (log_and_reraise ("Error reading file " +:+ repr_imgs w image +:+ ".")) in
  ret (get_header img, get_affine img).

(** The body of the [for i, img_file in enumerate(img_filelist)] loop of
    [niftilist_to_array]: it carries [outmat] and [vol], and comes paired
    with the value [img_file] holds when the loop ends or raises (the
    handler formats it into its message). *)
Fixpoint niftilist_to_array_loop (w : World) (img_filelist : list image_like) (i : nat)
    (outmat vol : np.ndarray) (img_file : option image_like)
  : M (np.ndarray * np.ndarray) * option image_like :=
  match img_filelist with
  | [] => (ret (outmat, vol), img_file)
  | f :: rest =>
      let step :=
        let* vol := get_img_data w f true in
        let* outmat := lift (np.setitem_row outmat i (np.flatten vol)) in
        ret (outmat, vol) in
      match step with
      | (Ok (outmat', vol'), t) =>
          let '((r, t'), last) := niftilist_to_array_loop w rest (S i) outmat' vol' (Some f) in
          ((r, t ++ t'), last)
      | (Raise e, t) => ((Raise e, t), Some f)
      end
  end.

(** [niftilist_to_array(img_filelist, outdtype)].  Elements are integers
    here, so [outdtype] does not appear.  [format_item] is what
    ['{0}'.format(img_file)] prints for an item of the list.
    [np.prod(())] is the float 1.0, which [np.zeros] refuses as a
    dimension: an array without axes ends the call with a TypeError. *)
Definition niftilist_to_array (w : World) (format_item : image_like → string)
    (img_filelist : list image_like) : M (np.ndarray * list nat) :=
  let* vol :=
    match img_filelist with
    | [] =>
        (* [img_filelist[0]] fails in the body and again in the handler,
           before anything is logged *)
        raise (IndexError "list index out of range")
    | first_img :: _ =>
        try_except_if is_IndexError (get_img_data w first_img true)
          (log_and_reraise ("Error getting the first item of img_filelis: "
                            +:+ repr_imgs w first_img))
    end in
  let* outmat :=
    match np.shape vol with
    | [] => raise (TypeError "'numpy.float64' object cannot be interpreted as an integer")
    | sh => ret (np.zeros [length img_filelist; np.size_of sh])
    end in
  let '(body, img_file) := niftilist_to_array_loop w img_filelist 0 outmat vol None in
  let* (outmat, vol) :=
    try_except body
      (λ e, match img_file with
            | None => raise (UnboundLocalError "img_file")
            | Some f => log_and_reraise ("Error on reading file " +:+ format_item f +:+ ".") e
            end) in
  ret (outmat, np.shape vol).

End read.

(** ** boyle/nifti/mask.py *)

Module mask.

Import read.

Definition load_mask (w : World) (image : image_like) (allow_empty : bool) : M Img :=
  let* (img, values) :=
    try_except
      (let* img := lift (check_img w image true) in
       let* d := Img_get_data img in
       ret (img, np.unique d))
      (log_and_reraise ("Error reading mask " +:+ repr_imgs w image +:+ ".")) in
  let* _ :=
    if length values =? 1 then
      (* We accept a single value if it is not 0 (full true mask). *)
      if (nth 0 values 0 =? 0)%Z && negb allow_empty then
        raise (ValueError "Given mask is invalid because it masks all data")
      else ret tt
    else if length values =? 2 then
      (* If there are 2 different values, one of them must be 0 (background) *)
      if negb (bool_decide (0%Z ∈ values)) then
        raise (ValueError ("Background of the mask must be represented with 0."
                           +:+ " Given mask contains: " +:+ repr_array w values +:+ "."))
      else ret tt
    else if negb (length values =? 2) then
      (* If there are more than 2 values, the mask is invalid *)
      raise (ValueError ("Given mask is not made of 2 values: " +:+ repr_array w values
                         +:+ ". " +:+ "Cannot interpret as true or false"))
    else ret tt in
  let* d := get_img_data w (ImgObj img) true in
  ret (Nifti1Image (as_ndarray_bool d) (get_affine img) (get_header img)).

Definition load_mask_data (w : World) (image : image_like) (allow_empty : bool)
  : M (np.ndarray * list Z) :=
  let* mask :=
    try_except (load_mask w image allow_empty)
      (log_and_reraise ("Error loading mask " +:+ repr_imgs w image +:+ ".")) in
  let* d := get_img_data w (ImgObj mask) true in
  ret (d, get_affine mask).

Definition binarise (w : World) (image : image_like) (threshold : Z) : M np.ndarray :=
  try_except
    (let* img := lift (check_img w image false) in
     let* d := Img_get_data img in
     ret (np.greater d threshold))
    (log_and_reraise ("Error creating mask from file " +:+ repr_imgs w image +:+ ".")).

(** The body of the [for volf in filelist] loop of [union_mask], paired
    with the value [roiimg] holds when the loop ends or raises (the
    handler formats it into its message).  [mask] has the element type
    of the first image's voxel array, of which it is the [zeros_like]. *)
Fixpoint union_mask_loop (w : World) (firstimg : Img) (filelist : list image_like)
    (mask : np.ndarray) (roiimg : option Img) : M np.ndarray * option Img :=
  match filelist with
  | [] => (ret mask, roiimg)
  | volf :: rest =>
      match check_img w volf false with
      | Raise e => (raise e, roiimg)
      | Ok roi =>
          let step :=
            let* _ := lift (check_img_compatibility w (ImgObj firstimg) (ImgObj roi) false) in
            let* d := get_img_data w (ImgObj roi) true in
            lift (np.iadd (dtype_of w firstimg) (dtype_of w roi) mask d) in
          match step with
          | (Ok mask', t) =>
              let '((r, t'), roiimg') := union_mask_loop w firstimg rest mask' (Some roi) in
              ((r, t ++ t'), roiimg')
          | (Raise e, t) => ((Raise e, t), Some roi)
          end
      end
  end.

Definition union_mask (w : World) (filelist : list image_like) : M np.ndarray :=
  let* firstimg :=
    match filelist with
    | [] => raise (IndexError "list index out of range")
    | f :: _ => lift (check_img w f false)
    end in
  let* d0 := Img_get_data firstimg in
  let mask := np.zeros_like d0 in
  (* create space for all features and read from subjects *)
  let '(body, roiimg) := union_mask_loop w firstimg filelist mask None in
  let* mask :=
    try_except body
      (λ e, match roiimg with
            | None => raise (UnboundLocalError "roiimg")
            | Some roi =>
                let msg := "Error joining mask " +:+ repr_imgs w (ImgObj firstimg)
                           +:+ " and " +:+ repr_imgs w (ImgObj roi) +:+ "." in
                log_and_raise msg (ValueError msg) e
            end) in
  ret (as_ndarray_bool (np.greater mask 0)).

Definition apply_mask (w : World) (image mask_img : image_like)
  : M (np.ndarray * list (list nat)) :=
  let* (img, mask) :=
    try_except
      (let* img := lift (check_img w image false) in
       let* mask := lift (check_img w mask_img false) in
       let* _ := lift (check_img_compatibility w (ImgObj img) (ImgObj mask) false) in
       ret (img, mask))
      (log_and_raise ("Images " +:+ repr_imgs w image +:+ " and " +:+ repr_imgs w mask_img
                      +:+ " are not compatible.")
                     (NiftiFilesNotCompatible (repr_imgs w image) (repr_imgs w mask_img))) in
  let* (vol, mask_data, indices) :=
    let msg := "Error applying mask " +:+ repr_imgs w mask_img +:+ " to "
               +:+ repr_imgs w (ImgObj img) +:+ "." in
    try_except
      (let* vol := Img_get_data img in
       let* mask := load_mask w mask_img true in
       let* mask_data := get_data mask in
       let indices := np.where_ mask_data in
       ret (vol, mask_data, indices))
      (log_and_raise msg (ValueError msg)) in
  let* selected := lift (np.getitem_mask vol mask_data) in
  ret (selected, indices).

Definition _apply_mask_to_4d_data (w : World) (vol_data : np.ndarray) (mask_img : image_like)
  : M (np.ndarray * list (list nat)) :=
  let* (mask_data, data) :=
    try_except
      (let* (mask_data, _) := load_mask_data w mask_img true in
       let* data := lift (np.getitem_mask vol_data mask_data) in
       ret (mask_data, data))
      (λ e, raise e) in
  ret (data, np.where_ mask_data).

Definition apply_mask_4d (w : World) (image mask_img : image_like)
  : M (np.ndarray * list (list nat) * list nat) :=
  let* (img, mask) :=
    try_except
      (let* img := lift (check_img w image false) in
       let* mask := lift (check_img w mask_img false) in
       let* _ := lift (check_img_compatibility w (ImgObj img) (ImgObj mask) true) in
       ret (img, mask))
      (log_and_raise ("Images " +:+ repr_imgs w image +:+ " and " +:+ repr_imgs w mask_img
                      +:+ " are not compatible.")
                     (NiftiFilesNotCompatible (repr_imgs w image) (repr_imgs w mask_img))) in
  let* (vol, data, indices) :=
    let msg := "Error applying mask " +:+ repr_imgs w image +:+ " to "
               +:+ repr_imgs w mask_img +:+ "." in
    try_except
      (let* vol := get_data img in
       let* (data, indices) := _apply_mask_to_4d_data w vol (ImgObj mask) in
       ret (vol, data, indices))
      (log_and_raise msg (ValueError msg)) in
  ret (data, indices, np.shape vol).

(** The body of the [for i, img_item in enumerate(img_filelist)] loop of
    [niftilist_mask_to_array], paired with the value [img] holds when the
    loop ends or raises (the handler formats it into its message).
    [outmat] has the element type [outdtype], which the values assigned
    to its rows take. *)
Fixpoint niftilist_mask_to_array_loop (w : World) (mask_file : image_like)
    (outdtype : np.dtype) (indices : list (list nat)) (img_filelist : list image_like)
    (i : nat) (outmat : np.ndarray) (img : Img) : M np.ndarray * Img :=
  match img_filelist with
  | [] => (ret outmat, img)
  | img_item :: rest =>
      match check_img w img_item false with
      | Raise e => (raise e, img)
      | Ok img =>
          let step :=
            let* _ :=
              if negb (are_compatible_imgs w (ImgObj img) mask_file) then
                raise (NiftiFilesNotCompatible (repr_imgs w (ImgObj img)) (repr_imgs w mask_file))
              else ret tt in
            let* vol := get_img_data w (ImgObj img) true in
            let* row := lift (np.getitem_tuple vol indices) in
            lift (np.setitem_row outmat i (np.astype outdtype row)) in
          match step with
          | (Ok outmat', t) =>
              let '((r, t'), img') :=
                niftilist_mask_to_array_loop w mask_file outdtype indices rest (S i) outmat'
                  img in
              ((r, t ++ t'), img')
          | (Raise e, t) => ((Raise e, t), img)
          end
      end
  end.

(** [niftilist_mask_to_array(img_filelist, mask_file, outdtype)].
    [outdtype] is [None] for a call that leaves it out (or passes
    something false), otherwise the element type asked for.  Without
    one the function reads [img.dtype], an attribute that an image of
    nibabel does not have. *)
Definition niftilist_mask_to_array (w : World) (img_filelist : list image_like)
    (mask_file : image_like) (outdtype : option np.dtype)
  : M (np.ndarray * list (list nat) * list nat) :=
  let* img :=
    match img_filelist with
    | [] => raise (IndexError "list index out of range")
    | f :: _ => lift (check_img w f false)
    end in
  let* outdtype :=
    match outdtype with
    | Some dt => ret dt
    | None => raise (AttributeError "'Nifti1Image' object has no attribute 'dtype'")
    end in
  let* mask := load_mask w mask_file true in
  let* mask_data := get_img_data w (ImgObj mask) true in
  let indices := np.where_ mask_data in
  let outmat := np.zeros [length img_filelist; np.count_nonzero_object mask] in
  let '(body, img) :=
    niftilist_mask_to_array_loop w mask_file outdtype indices img_filelist 0 outmat img in
  let* outmat :=
    try_except body
      (log_and_reraise ("Error when reading file " +:+ repr_imgs w (ImgObj img) +:+ ".")) in
  ret (outmat, indices, np.shape mask_data).

End mask.

(** ** Python values, strings and dictionaries *)

(** The values a settings dictionary holds: config files and the
    environment give strings, command-line parsers also None, booleans
    and numbers. *)
Inductive pyval : Type :=
  | VNone
  | VBool (b : bool)
  | VInt (n : Z)
  | VStr (s : string).

Global Instance pyval_eq_dec : EqDecision pyval.
Proof. solve_decision. Defined.

(** Truth value of a Python object. *)
Definition truthy (v : pyval) : bool :=
  match v with
  | VNone => false
  | VBool b => b
  | VInt n => negb (n =? 0)%Z
  | VStr s => negb (String.eqb s "")
  end.

(** [a or b] *)
Definition py_or (a b : pyval) : pyval := if truthy a then a else b.

(** Methods of [str], on ASCII text (bytes above 127 are left alone). *)
Module str.

Definition upper_char (c : ascii) : ascii :=
  let n := nat_of_ascii c in
  if (97 <=? n) && (n <=? 122) then ascii_of_nat (n - 32) else c.

Definition lower_char (c : ascii) : ascii :=
  let n := nat_of_ascii c in
  if (65 <=? n) && (n <=? 90) then ascii_of_nat (n + 32) else c.

Fixpoint upper (s : string) : string :=
  match s with
  | EmptyString => EmptyString
  | String c s' => String (upper_char c) (upper s')
  end.

Fixpoint lower (s : string) : string :=
  match s with
  | EmptyString => EmptyString
  | String c s' => String (lower_char c) (lower s')
  end.

(** [s.startswith(prefix)] *)
Definition startswith (s prefix : string) : bool := String.prefix prefix s.

(** [s.lstrip(c)] for a single character [c]. *)
Fixpoint lstrip (s : string) (c : ascii) : string :=
  match s with
  | EmptyString => EmptyString
  | String x s' => if Ascii.eqb x c then lstrip s' c else s
  end.

(** [s.rstrip(c)] and [s.strip(c)] for a single character [c]. *)
Fixpoint rstrip (s : string) (c : ascii) : string :=
  match s with
  | EmptyString => EmptyString
  | String x s' =>
      match rstrip s' c with
      | EmptyString => if Ascii.eqb x c then EmptyString else String x EmptyString
      | r => String x r
      end
  end.

Definition strip (s : string) (c : ascii) : string := rstrip (lstrip s c) c.

(** [s.replace(old, new)]: the occurrences of [old] are found from the
    left and do not overlap.  [skip] counts the characters of the
    occurrence being replaced that are still to be dropped. *)
Fixpoint replace_from (old new : string) (skip : nat) (s : string) : string :=
  match s with
  | EmptyString => EmptyString
  | String c s' =>
      match skip with
      | S n => replace_from old new n s'
      | O =>
          if String.prefix old s
          then new +:+ replace_from old new (String.length old - 1) s'
          else String c (replace_from old new 0 s')
      end
  end.

Fixpoint intersperse (new : string) (s : string) : string :=
  match s with
  | EmptyString => new
  | String c s' => new +:+ String c (intersperse new s')
  end.

Definition replace (s old new : string) : string :=
  match old with
  | EmptyString => intersperse new s
  | _ => replace_from old new 0 s
  end.

(** [s.split(sep)] for a single character [sep]. *)
Fixpoint split (s : string) (sep : ascii) : list string :=
  match s with
  | EmptyString => [EmptyString]
  | String c s' =>
      if Ascii.eqb c sep then EmptyString :: split s' sep
      else match split s' sep with
           | [] => [String c EmptyString]
           | p :: ps => String c p :: ps
           end
  end.

(** [s.split()] with no separator: the words between runs of
    whitespace, none of them empty.  [sp] tells which characters are
    whitespace. *)
Fixpoint split_whitespace (sp : ascii → bool) (s : string) : list string :=
  match s with
  | EmptyString => []
  | String c s' =>
      if sp c then split_whitespace sp s'
      else
        match s' with
        | EmptyString => [String c EmptyString]
        | String c' _ =>
            if sp c' then String c EmptyString :: split_whitespace sp s'
            else
              match split_whitespace sp s' with
              | word :: words => String c word :: words
              | [] => [String c EmptyString]
              end
        end
  end.

End str.

(** The items of a dict, in the order [items()] yields them; keys are
    distinct. *)
Abbreviation pydict := (list (string * pyval)).


Fixpoint dict_get (d : pydict) (k : string) : option pyval :=
  match d with
  | [] => None
  | (k', v) :: d' => if decide (k' = k) then Some v else dict_get d' k
  end.

(** The same items read as a finite map. *)
Definition dict_view (d : pydict) : gmap string pyval := list_to_map d.

(** A dict that the code iterates while changing it, as CPython 3 lays
    it out (Objects/dictobject.c): the entries in insertion order, where
    a deleted entry leaves a hole, and the number of entries the table
    still has room for.  An iterator walks the entries by position, so
    what a loop sees of a dict that it changes depends on this layout. *)
Record PyDictObject : Type := {
  (* DK_ENTRIES(ma_keys)[0 .. dk_nentries) *)
  dk_entries : list (option (string * pyval));
  (* ma_keys->dk_usable *)
  dk_usable : nat
}.

(** [d.items()] *)
Definition dict_items (d : PyDictObject) : pydict := omap id (dk_entries d).

(** [len(d)], the field [ma_used]. *)
Definition ma_used (d : PyDictObject) : nat := length (dict_items d).

(** The position and the value of the entry with key [k], searched from
    position [i] on. *)
Fixpoint lookup_from (i : nat) (entries : list (option (string * pyval))) (k : string)
  : option (nat * pyval) :=
  match entries with
  | [] => None
  | Some (k', v) :: rest => if decide (k' = k) then Some (i, v) else lookup_from (S i) rest k
  | None :: rest => lookup_from (S i) rest k
  end.

Definition PyDict_MINSIZE : Z := 8.

(** [USABLE_FRACTION(n)]: the entries a table of [n] slots takes. *)
Definition USABLE_FRACTION (n : Z) : Z := (Z.shiftl n 1 / 3)%Z.

(** [GROWTH_RATE(d)] *)
Definition GROWTH_RATE (d : PyDictObject) : Z := (Z.of_nat (ma_used d) * 3)%Z.

(** [_Py_bit_length(x)] *)
Definition bit_length (x : Z) : Z := if (x =? 0)%Z then 0%Z else (Z.log2 x + 1)%Z.

(** [calculate_log2_keysize(minsize)]: the logarithm of the number of
    slots of a table for [minsize] entries. *)
Definition calculate_log2_keysize (minsize : Z) : Z :=
  let minsize := (Z.lor minsize PyDict_MINSIZE - 1)%Z in
  bit_length (Z.lor minsize (PyDict_MINSIZE - 1)).

(** [dictresize(d, log2_newsize)]: the entries move to a new table in
    their order, the holes are left behind. *)
Definition dictresize (d : PyDictObject) (log2_newsize : Z) : PyDictObject :=
  {| dk_entries := Some <$> dict_items d;
     dk_usable := Z.to_nat (USABLE_FRACTION (2 ^ log2_newsize) - Z.of_nat (ma_used d)) |}.

Definition insertion_resize (d : PyDictObject) : PyDictObject :=
  dictresize d (calculate_log2_keysize (GROWTH_RATE d)).

(** [d[k] = v] ([insertdict]): the entry of an existing key takes the
    value; a new key gets the next entry of the table, which is rebuilt
    first when it is full. *)
Definition PyDict_SetItem (d : PyDictObject) (k : string) (v : pyval) : PyDictObject :=
  match lookup_from 0 (dk_entries d) k with
  | Some (i, _) => {| dk_entries := <[i := Some (k, v)]> (dk_entries d);
                      dk_usable := dk_usable d |}
  | None =>
      let d := if dk_usable d =? 0 then insertion_resize d else d in
      {| dk_entries := dk_entries d ++ [Some (k, v)]; dk_usable := dk_usable d - 1 |}
  end.

(** [d.pop(k)]: the value and the dict with a hole where the entry
    was, or nothing when the key is absent (KeyError). *)
Definition PyDict_Pop (d : PyDictObject) (k : string) : option (pyval * PyDictObject) :=
  match lookup_from 0 (dk_entries d) k with
  | Some (i, v) => Some (v, {| dk_entries := <[i := None]> (dk_entries d);
                               dk_usable := dk_usable d |})
  | None => None
  end.

(** [dict()] and [{}]: no table yet. *)
Definition PyDict_New : PyDictObject := {| dk_entries := []; dk_usable := 0 |}.

(** [dict(items)], and the dict display [{k1: v1, ...}]: the items are
    inserted one after the other. *)
Definition dict_of_items (items : pydict) : PyDictObject :=
  foldl (λ d kv, PyDict_SetItem d kv.1 kv.2) PyDict_New items.

(** The position and the key of the first entry that is no hole, from
    position [i] on. *)
Fixpoint next_entry (i : nat) (entries : list (option (string * pyval)))
  : option (nat * string) :=
  match entries with
  | [] => None
  | Some (k, _) :: _ => Some (i, k)
  | None :: rest => next_entry (S i) rest
  end.

(** [d.get(key)]: None for a missing key. *)
Definition py_get (d : gmap string pyval) (key : string) : pyval :=
  default VNone (d !! key).

(** [dict(pairs)]: a later pair replaces an earlier one with its key. *)
Definition dict_of_pairs {V : Type} (pairs : list (string * V)) : gmap string V :=
  foldl (λ m kv, <[kv.1 := kv.2]> m) ∅ pairs.

(** ** boyle/utils/rcfile.py *)

(** What the module reads from its surroundings. *)
Record Sys : Type := {
  (* os.environ.items() *)
  os_environ : list (string * string);
  (* socket.gethostname() *)
  gethostname : string;
  (* op.expanduser('~') *)
  home_dir : string;
  (* op.join(a, b, ...) *)
  op_join : list pyval → pyval;
  (* ConfigParser.read(files): the sections found, each with what
     items(section) yields (interpolated option values) *)
  config_read : list pyval → gmap string (gmap string string)
}.

(** What the lookups of sections and of paths read besides. *)
Record Files : Type := {
  (* ConfigParser.read(files) followed by config.sections(): the names
     of the sections, in the order the files give them *)
  config_sections : list pyval → list string;
  (* op.exists(path), op.expanduser(path), op.realpath(path) *)
  op_exists : string → bool;
  op_expanduser : string → string;
  op_realpath : string → string
}.

(** ['{}'.format(x)] for [x] a string or None. *)
Definition format_opt (x : option string) : string := default "None" x.

Module rcfile.

Definition merge (dict_1 dict_2 : gmap string pyval) : gmap string pyval :=
  set_to_map (λ key, (key, py_or (py_get dict_1 key) (py_get dict_2 key)))
             (dom dict_2 ∪ dom dict_1).

Definition get_environment (s : Sys) (appname : string) : gmap string pyval :=
  let prefix := str.upper appname +:+ "_" in
  let vars := filter (λ kv, Is_true (str.startswith kv.1 prefix)) (os_environ s) in
  dict_of_pairs (map (λ kv, (str.lower (str.replace kv.1 prefix ""), VStr kv.2)) vars).

Definition get_config_filepaths (s : Sys) (appname : string) (config_file : pyval)
    (additional_search_path : pyval) : list pyval :=
  let home := home_dir s in
  let files := [
    op_join s [VStr "/etc"; VStr appname; VStr "config"];
    op_join s [VStr "/etc"; VStr (appname +:+ "rc")];
    op_join s [VStr home; VStr ".config"; VStr appname; VStr "config"];
    op_join s [VStr home; VStr ".config"; VStr appname];
    op_join s [VStr home; VStr ("." +:+ appname); VStr "config"];
    op_join s [VStr home; VStr ("." +:+ appname +:+ "rc")];
    VStr (appname +:+ "rc");
    VStr ("." +:+ appname +:+ "rc");
    py_or config_file (VStr "")
  ] in
  match additional_search_path with
  | VNone => files
  | _ => files ++ [op_join s [additional_search_path; VStr (appname +:+ "rc")];
                   op_join s [additional_search_path; VStr ("." +:+ appname +:+ "rc")]]
  end.

(** [dict(config.items(section))]: the option values are strings. *)
Definition section_dict (items : gmap string string) : gmap string pyval :=
  VStr <$> items.

(** The module's two [log.debug] lines are left out: this module is
    modelled without a log. *)
Definition get_config (s : Sys) (appname section : string) (config_file : pyval)
    (additional_search_path : pyval) : gmap string pyval :=
  let files := get_config_filepaths s appname config_file additional_search_path in
  let config := config_read s files in
  let cfg_items :=
    match config !! section with
    | Some items => section_dict items
    | None => ∅
    end in
  let hn := gethostname s in
  let host_section := section +:+ ":" +:+ hn in
  match config !! host_section with
  | Some items =>
      let host_items := section_dict items in
      merge host_items cfg_items
  | None => cfg_items
  end.

(** [for k in args.keys(): args[k.lstrip('-')] = args.pop(k)] on
    Python 3, where [args.keys()] is a view of the dict (on Python 2 it
    is a list made before the loop starts; that interpreter is not
    modelled).  The iterator of the view ([dictiter_iternextkey] of
    CPython 3.8 and later) holds the size of the dict when the loop
    started ([di_used]), the number of keys it has still to give ([len])
    and the position of the next entry ([di_pos]).  It raises
    RuntimeError when the size has changed, gives the key of the next
    entry that is no hole, raises RuntimeError when it finds one after
    it has given all its keys, and ends the loop when there is none.
    [args.pop(k)] is evaluated before the assignment.  Returns the
    exception raised, if any, and [args] as the loop left it. *)
Fixpoint strip_dashes_loop (len di_used di_pos : nat) (args : PyDictObject)
  : option exn * PyDictObject :=
  if negb (di_used =? ma_used args) then
    (Some (RuntimeError "dictionary changed size during iteration"), args)
  else
    match next_entry di_pos (drop di_pos (dk_entries args)) with
    | None => (None, args)
    | Some (i, k) =>
        match len with
        | 0 => (Some (RuntimeError "dictionary keys changed during iteration"), args)
        | S len =>
            match PyDict_Pop args k with
            | None => (Some (KeyError k), args)
            | Some (v, args) =>
                strip_dashes_loop len di_used (S i)
                  (PyDict_SetItem args (str.lstrip k "-"%char) v)
            end
        end
    end.

(** [rcfile(appname, section, args, strip_dashes)].  [args] is the
    caller's dict and is changed in place: the second component is that
    dict after the call. *)
Definition rcfile (s : Sys) (appname : string) (section : option string)
    (args : PyDictObject) (strip_dashes : bool)
  : result (gmap string pyval) * PyDictObject :=
  let '(exc, args) :=
    if strip_dashes then strip_dashes_loop (ma_used args) (ma_used args) 0 args
    else (None, args) in
  match exc with
  | Some e => (Raise e, args)
  | None =>
      let environ := get_environment s appname in
      let section := match section with None => appname | Some sec => sec end in
      let config := get_config s appname section
                      (default (VStr "") (dict_get (dict_items args) "config"))
                      (default (VStr "") (dict_get (dict_items args) "path")) in
      let config := merge (merge (dict_view (dict_items args)) config) environ in
      if bool_decide (config = ∅) then
        (Raise (IOError ("Could not find any rcfile for application " +:+ appname +:+ ".")), args)
      else (Ok config, args)
  end.


(** [rcfile(app_name, section_name)], as the functions below call it:
    [args] is the default dict, made once when [rcfile] was defined.  No
    call puts a key into it (the loop renames keys, [merge] builds a new
    dict), so it is empty at every call. *)
Definition rcfile_default_args (s : Sys) (app_name : string) (section_name : option string)
  : result (gmap string pyval) :=
  (rcfile s app_name section_name PyDict_New true).1.

(** Return a folder path if it exists.  ([op.expanduser] of a value that
    is no string raises; Python 3 makes it a TypeError.  The
    [log.debug] line is left out, as in [get_config].) *)
Definition get_sys_path (s : Sys) (fs : Files) (rcpath app_name : string)
    (section_name : option string) : M string :=
  (* first check if it is an existing path *)
  if op_exists fs rcpath then ret (op_realpath fs (op_expanduser fs rcpath))
  else
    (* look for the rcfile *)
    let* settings := lift (rcfile_default_args s app_name section_name) in
    (* look for the variable within the rcfile configutarions *)
    let* sys_path :=
      try_except_if is_KeyError
        (match settings !! rcpath with
         | None => raise (KeyError rcpath)
         | Some (VStr p) => ret (op_expanduser fs p)
         | Some _ => raise (TypeError "expected str, bytes or os.PathLike object")
         end)
        (let msg := "Could not find an existing variable with name " +:+ rcpath
                    +:+ " in section " +:+ format_opt section_name +:+ " of " +:+ app_name
                    +:+ "rc config setup. Maybe it is a folder that could not be found." in
         log_and_raise msg (IOError msg)) in
    (* found the variable, now check if it is an existing path *)
    if negb (op_exists fs sys_path) then
      let msg := "Could not find the path " +:+ sys_path +:+ " indicated by the variable "
                 +:+ rcpath +:+ " in section " +:+ format_opt section_name +:+ " of "
                 +:+ app_name +:+ "rc config setup." in
      let* _ := log_exception msg in
      raise (IOError msg)
    else
      (* expand the path and return *)
      ret (op_realpath fs (op_expanduser fs sys_path)).





End rcfile.

(** ** boyle/commands.py *)

(** What [which] reads from the interpreter and the operating system. *)
Record Os : Type := {
  (* sys.version_info *)
  version_info : list nat;
  (* shutil.which(program) *)
  shutil_which : string → option string;
  (* os.path.isfile(path), os.access(path, os.X_OK) *)
  isfile : string → bool;
  access_X_OK : string → bool;
  (* os.path.split(path), os.path.join(a, b) *)
  path_split : string → string * string;
  path_join : string → string → string;
  (* os.environ, os.pathsep *)
  environ : list (string * string);
  pathsep : ascii
}.

(** What [condor_submit] and [condor_call] do to their surroundings, in
    program order. *)
Inductive proc_event : Type :=
  | ProcInfo (msg : string)                  (* log.info(msg) *)
  | ProcException (msg : string)             (* log.exception(msg) *)
  | ProcCall (cmd : string) (shell : bool).  (* subprocess.call(cmd, shell=shell) *)

(** What they get back. *)
Record Subprocess : Type := {
  (* the [n]-th [subprocess.call] of a run: the return code of the
     command, or the exception the call raises *)
  subprocess_call : nat → string → bool → result Z;
  (* the characters [str.split()] takes for whitespace *)
  isspace : ascii → bool
}.

(** Code that calls commands: the state is the number of calls made so
    far, the events are recorded next to the result. *)
Definition P (A : Type) : Type := nat → result A * list proc_event * nat.

Definition pret {A} (a : A) : P A := λ n, (Ok a, [], n).
Definition praise {A} (e : exn) : P A := λ n, (Raise e, [], n).

Definition pbind {A B} (m : P A) (f : A → P B) : P B :=
  λ n,
    match m n with
    | (Ok a, t, n') => let '(r, t', n'') := f a n' in (r, t ++ t', n'')
    | (Raise e, t, n') => (Raise e, t, n')
    end.

Notation "'let+' x ':=' m 'in' k" := (pbind m (λ x, k))
  (at level 10, x pattern, m at level 100, k at level 200).

Definition ptry {A} (body : P A) (handler : exn → P A) : P A :=
  λ n,
    match body n with
    | (Raise e, t, n') => let '(r, t', n'') := handler e n' in (r, t ++ t', n'')
    | ok => ok
    end.

Definition log_info (msg : string) : P unit := λ n, (Ok tt, [ProcInfo msg], n).
Definition plog_exception (msg : string) : P unit := λ n, (Ok tt, [ProcException msg], n).

(** [subprocess.call(cmd, shell=shell)] *)
Definition call (sp : Subprocess) (cmd : string) (shell : bool) : P Z :=
  λ n, (subprocess_call sp n cmd shell, [ProcCall cmd shell], S n).

Module commands.

(** The names bound in the module's namespace once it is imported: the
    four imports of lines 14-17, [log], and the functions it defines. *)
Definition module_globals : list string :=
  ["os"; "shutil"; "subprocess"; "logging"; "log";
   "which"; "which_py3"; "which_py2"; "check_call"; "condor_call"; "condor_submit"].

(** Names of the builtins namespace the module could fall back on; [sys]
    is a module and no builtin. *)
Definition builtin_names : list string :=
  ["None"; "True"; "False"; "Exception"; "len"; "str"; "dict"; "list"; "set";
   "int"; "bool"; "tuple"; "print"; "open"; "isinstance"; "hasattr"; "enumerate"].

(** Reading a global name inside a function: the module namespace, then
    the builtins, else NameError. *)
Definition load_global (name : string) : result unit :=
  if bool_decide (name ∈ module_globals) then Ok tt
  else if bool_decide (name ∈ builtin_names) then Ok tt
  else Raise (NameError ("name '" +:+ name +:+ "' is not defined")).

(** [a > b] on tuples of numbers (lexicographic). *)
Fixpoint tuple_gt (a b : list nat) : bool :=
  match a, b with
  | x :: a', y :: b' => (y <? x) || ((x =? y) && tuple_gt a' b')
  | _ :: _, [] => true
  | [], _ => false
  end.

Definition which_py3 (os : Os) (program : string) : result (option string) :=
  result_bind (load_global "shutil") (λ _, Ok (shutil_which os program)).

Definition is_exe (os : Os) (fpath : string) : bool :=
  isfile os fpath && access_X_OK os fpath.

Definition which_py2 (os : Os) (program : string) : result (option string) :=
  let '(fpath, fname) := path_split os program in
  if negb (String.eqb fpath "") then
    if is_exe os program then Ok (Some program) else Ok None
  else
    match list_to_map (M := gmap string string) (environ os) !! "PATH" with
    | None => Raise (KeyError "PATH")
    | Some paths =>
        Ok (list_find (is_exe os)
              (map (λ path, path_join os (str.strip path (ascii_of_nat 34)) program)
                   (str.split paths (pathsep os)))
            ≫= λ found, Some found.2)
    end.

(** Returns the absolute path of the given CLI program name. *)
Definition which (os : Os) (program : string) : result (option string) :=
  result_bind (load_global "sys") (λ _,
    if tuple_gt (version_info os) [3; 0] then which_py3 os program
    else
      (* Python 2 code in this block *)
      which_py2 os program).

(** Submits cmd to HTCondor queue. *)
Definition condor_submit (sp : Subprocess) (cmd : string) : P Z :=
  let+ is_running :=
    ptry
      (let+ returncode := call sp "condor_status" true in
       pret (returncode =? 0)%Z)
      (λ exc,
         let+ _ := plog_exception "Could not find a running instance of HTCondor." in
         praise exc) in
  let+ name :=
    match str.split_whitespace (isspace sp) cmd with
    | [] => praise (IndexError "list index out of range")
    | word :: _ => pret word
    end in
  let sub_cmd := "condor_qsub -shell n -b y -r y -N " +:+ name +:+ " -m n" in
  let+ _ := log_info ("Calling: " +:+ sub_cmd) in
  call sp (sub_cmd +:+ " " +:+ cmd) true.

(** Tries to submit cmd to HTCondor, if it does not succeed, it will be
    called with subprocess.call. *)
Definition condor_call (sp : Subprocess) (cmd : string) (shell : bool) : P unit :=
  let+ _ := log_info cmd in
  let+ ret := condor_submit sp cmd in
  if negb (ret =? 0)%Z then
    let+ _ := call sp cmd shell in
    pret tt
  else pret tt.

End commands.

(** ** boyle/storage.py *)

(** What the writers ask of shelve, scipy.io and h5py, and what they
    log, in program order. *)
Inductive store_event : Type :=
  | ShelveOpen (file_path : string)            (* shelve.open(file_path, 'n') *)
  | ShelveSet (name : string)                  (* mashelf[vn] = variables[vn] *)
  | ShelveClose                                (* mashelf.close() *)
  | SaveMat (file_path format : string)        (* sio.savemat(file_path, variables, format=format) *)
  | H5Open (file_path mode : string)           (* h5py.File(file_path, mode=mode) *)
  | H5RequireGroup (h5path : string)           (* h5file.require_group(h5path) *)
  | H5Astype (name : string)                   (* data.astype(h5py.special_dtype(vlen=str)) *)
  | H5Set (name : string)                      (* h5group[vn] = data *)
  | H5Close                                    (* h5file.close() *)
  | StoreLog (msg : string).                   (* log.exception(msg) / log.error(msg) *)

(** The surroundings of storage.py: how each library call ends, which
    objects are numpy arrays of strings, and the two helpers of
    boyle/files/names.py. *)
Record Store (V : Type) : Type := {
  lib_call : store_event → result unit;
  is_string_array : V → bool;
  get_extension : string → string;
  add_extension_if_needed : string → string → string
}.
Arguments lib_call {V} _ _.
Arguments is_string_array {V} _ _.
Arguments get_extension {V} _ _.
Arguments add_extension_if_needed {V} _ _ _.

Module storage.

(** Code that writes files: the result next to the events. *)
Definition IO (A : Type) : Type := (result A * list store_event)%type.

Definition sret {A} (a : A) : IO A := (Ok a, []).
Definition sraise {A} (e : exn) : IO A := (Raise e, []).

Definition sbind {A B} (m : IO A) (f : A → IO B) : IO B :=
  match m with
  | (Ok a, t) => let '(r, t') := f a in (r, t ++ t')
  | (Raise e, t) => (Raise e, t)
  end.

Notation "'let!' x ':=' m 'in' k" := (sbind m (λ x, k))
  (at level 10, x pattern, m at level 100, k at level 200).

(** A library call: it is recorded, and ends as the surroundings say. *)
Definition lib {V} (st : Store V) (ev : store_event) : IO unit := (lib_call st ev, [ev]).

Definition slog (msg : string) : IO unit := (Ok tt, [StoreLog msg]).

(** [try: body  except: handler] *)
Definition stry {A} (body : IO A) (handler : exn → IO A) : IO A :=
  match body with
  | (Raise e, t) => let '(r, t') := handler e in (r, t ++ t')
  | ok => ok
  end.

(** [try: body  finally: final]: [final] runs on every path; when it
    raises, its exception replaces the outcome of [body]. *)
Definition sfinally {A} (body : IO A) (final : IO unit) : IO A :=
  let '(r, t) := body in
  match final with
  | (Ok _, t') => (r, t ++ t')
  | (Raise e, t') => (Raise e, t ++ t')
  end.

(** The handler [log.exception(msg); raise]. *)
Definition slog_and_reraise {A} (msg : string) (e : exn) : IO A :=
  let! _ := slog msg in sraise e.

(** The [for vn in variables.keys()] loop of [save_variables_to_shelve]. *)
Fixpoint save_variables_to_shelve_loop {V} (st : Store V) (names : list string) : IO unit :=
  match names with
  | [] => sret tt
  | vn :: rest =>
      let! _ :=
        stry (lib st (ShelveSet vn))
          (slog_and_reraise ("Error shelving variable " +:+ vn)) in
      save_variables_to_shelve_loop st rest
  end.

Definition save_variables_to_shelve {V} (st : Store V) (file_path : string)
    (variables : list (string * V)) : IO unit :=
  let! mashelf := lib st (ShelveOpen file_path) in
  let! _ := save_variables_to_shelve_loop st variables.*1 in
  lib st ShelveClose.

Definition save_variables_to_mat {V} (st : Store V) (file_path : string)
    (variables : list (string * V)) (format : string) : IO unit :=
  stry (lib st (SaveMat file_path format))
    (slog_and_reraise ("Error saving to " +:+ file_path)).

(** The [for vn in variables] loop of [save_variables_to_hdf5], paired
    with the value [vn] holds when the loop ends or raises (the handler
    formats it into its message). *)
Fixpoint save_variables_to_hdf5_loop {V} (st : Store V) (variables : list (string * V))
    (last_vn : option string) : IO unit * option string :=
  match variables with
  | [] => (sret tt, last_vn)
  | (vn, data) :: rest =>
      let step :=
        (* fix for string numpy arrays *)
        let! _ := if is_string_array st data then lib st (H5Astype vn) else sret tt in
        lib st (H5Set vn) in
      match step with
      | (Ok _, t) =>
          let '((r, t'), final_vn) := save_variables_to_hdf5_loop st rest (Some vn) in
          ((r, t ++ t'), final_vn)
      | (Raise e, t) => ((Raise e, t), Some vn)
      end
  end.

Definition save_variables_to_hdf5 {V} (st : Store V) (file_path : string)
    (variables : list (string * V)) (mode h5path : string) : IO unit :=
  let! h5file := lib st (H5Open file_path mode) in
  let! h5group := lib st (H5RequireGroup h5path) in
  let '(body, vn) := save_variables_to_hdf5_loop st variables None in
  sfinally
    (stry body
       (λ e, match vn with
             | None => sraise (UnboundLocalError "vn")
             | Some vn => slog_and_reraise ("Error saving " +:+ vn +:+ " in " +:+ file_path) e
             end))
    (lib st H5Close).

Definition out_exts : list string := [".pyshelf"; ".shelf"; ".mat"; ".hdf5"; ".h5"].

(** [ExportData.save_variables(filename, variables)]: save given
    variables in a file. *)
Definition save_variables {V} (st : Store V) (filename : string)
    (variables : list (string * V)) : IO unit :=
  let ext := str.lower (get_extension st filename) in
  let output_file := filename in
  let '(output_file, ext) :=
    if negb (bool_decide (ext ∈ out_exts)) then
      (add_extension_if_needed st filename ".pyshelf", get_extension st filename)
    else (output_file, ext) in
  if String.eqb ext ".pyshelf" || String.eqb ext ".shelf" then
    save_variables_to_shelve st output_file variables
  else if String.eqb ext ".mat" then
    save_variables_to_mat st output_file variables "5"
  else if String.eqb ext ".hdf5" || String.eqb ext ".h5" then
    save_variables_to_hdf5 st output_file variables "w" "/"
  else
    slog ("Filename extension " +:+ ext +:+ " not accepted.").

(** [variables[vn] = obj]: an existing name keeps its place, a new one
    goes last. *)
Definition assign {V} (variables : list (string * V)) (vn : string) (obj : V)
  : list (string * V) :=
  if bool_decide (vn ∈ variables.*1)
  then map (λ kv, if decide (kv.1 = vn) then (vn, obj) else kv) variables
  else variables ++ [(vn, obj)].

(** The [for i, vn in enumerate(varnames)] loop of [save_varlist]. *)
Fixpoint save_varlist_loop {V} (varnames : list string) (varlist : list V) (i : nat)
    (variables : list (string * V)) : IO (list (string * V)) :=
  match varnames with
  | [] => sret variables
  | vn :: rest =>
      match varlist !! i with
      | None => sraise (IndexError "list index out of range")
      | Some obj => save_varlist_loop rest varlist (S i) (assign variables vn obj)
      end
  end.

(** [ExportData.save_varlist(filename, varnames, varlist)] *)
Definition save_varlist {V} (st : Store V) (filename : string) (varnames : list string)
    (varlist : list V) : IO unit :=
  let! variables := save_varlist_loop varnames varlist 0 [] in
  save_variables st filename variables.

End storage.

(** ** A concrete world *)

(** Modelled from the spec: [check_img] of check.py is not under src/.
    The image shim "opens a path or accepts an already-loaded image-like
    object"; a path with no file behind it is the file-not-found error,
    and (docstrings of mask.py) an object without [get_data] and
    [get_affine] is a TypeError.  [files] lists the image files on disk.
    The spec says nothing on [make_it_3d]; the flag is not inspected.
    Every file of the concrete world holds 64-bit integers. *)
Definition check_img_spec (files : list (string * Img)) (image : image_like)
    (make_it_3d : bool) : result Img :=
  match image with
  | Path p =>
      match list_to_map (M := gmap string Img) files !! p with
      | Some img => Ok img
      | None => Raise (FileNotFound p)
      end
  | ImgObj img => Ok img
  | NotImg => Raise (TypeError "Data given cannot be converted to a nifti image")
  end.

(** How the concrete world prints an image-like. *)
Definition repr_imgs_spec (image : image_like) : string :=
  match image with
  | Path p => p
  | ImgObj _ => "<Nifti1Image>"
  | NotImg => "None"
  end.

Definition spec_world (files : list (string * Img)) : World :=
  {| check_img := check_img_spec files;
     repr_imgs := repr_imgs_spec;
     repr_array := λ _, "[...]";
     dtype_of := λ _, np.int64 |}.

(** An image with the identity affine. *)
Definition identity_affine : list Z :=
  [1; 0; 0; 0;  0; 1; 0; 0;  0; 0; 1; 0;  0; 0; 0; 1]%Z.

Definition image_of (sh : list nat) (values : list Z) : Img :=
  Nifti1Image (np.array sh values) identity_affine "".

(** * Vocabulary of the properties

    Sets of values, the images and messages the theorems name, and the
    concrete inputs of the examples. *)

(** ** Mask values *)

(** The distinct raw values of an array, as a set. *)
Definition distinct_values (a : np.ndarray) : gset Z := list_to_set (np.data a).

(** The acceptance condition of mask validation, on the set of distinct
    raw values: one value (non-zero, or zero when empty masks are
    allowed), or two values one of which is zero. *)
Definition legal_mask_values (vals : gset Z) (allow_empty : bool) : Prop :=
  (size vals = 1 ∧ (0%Z ∉ vals ∨ allow_empty = true))
  ∨ (size vals = 2 ∧ 0%Z ∈ vals).

(** The image [load_mask] returns for an accepted mask. *)
Definition boolean_image (img : Img) : Img :=
  Nifti1Image (as_ndarray_bool (dataobj img)) (get_affine img) (get_header img).

(** ** Selection and scatter *)

(** The scatter of the round trip: a fresh array of zeros of the
    volume's shape, assigned the selected values at the returned indices
    ([out = np.zeros(shape); out[indices] = values]). *)
Definition scatter (sh : list nat) (indices : list (list nat)) (values : np.ndarray)
  : result np.ndarray :=
  np.setitem_tuple (np.zeros sh) indices values.

(** What [apply_mask] returns for a volume and a mask that pass the
    compatibility check and the mask validation. *)
Definition selected_voxels (vol m : np.ndarray) : np.ndarray :=
  {| np.shape := [np.count_nonzero (as_ndarray_bool m)];
     np.data := map (λ i, nth i (np.data vol) 0%Z) (np.flatnonzero (np.data m)) |}.

(** A 2x2x1 volume and a mask selecting its second column. *)
Definition example_volume : Img := image_of [2; 2; 1] [5; 6; 7; 8]%Z.
Definition example_mask : Img := image_of [2; 2; 1] [0; 1; 0; 1]%Z.

(** ** Spec examples of masks *)

Global Instance legal_mask_values_dec (vals : gset Z) (allow_empty : bool) :
  Decision (legal_mask_values vals allow_empty).
Proof. unfold legal_mask_values. apply _. Defined.

(** The mask [[0,0],[0,1]] of the spec's example. *)
Definition spec_example_mask : Img := image_of [2; 2] [0; 0; 0; 1]%Z.

(** The array [[1,2],[3,4]] of the spec's example. *)
Definition spec_example_four_values : Img := image_of [2; 2] [1; 2; 3; 4]%Z.

(** ** Handlers and their messages *)

(** The message and exception of [apply_mask]'s first handler. *)
Definition not_compatible_msg (w : World) (image mask_img : image_like) : string :=
  "Images " +:+ repr_imgs w image +:+ " and " +:+ repr_imgs w mask_img
  +:+ " are not compatible.".

Definition not_compatible (w : World) (image mask_img : image_like) : exn :=
  NiftiFilesNotCompatible (repr_imgs w image) (repr_imgs w mask_img).

(** The first try block of [apply_mask] and [apply_mask_4d]. *)
Definition resolve_pair (w : World) (image mask_img : image_like) (only_check_3d : bool)
  : M (Img * Img) :=
  let* img := lift (check_img w image false) in
  let* mask := lift (check_img w mask_img false) in
  let* _ := lift (check_img_compatibility w (ImgObj img) (ImgObj mask) only_check_3d) in
  ret (img, mask).

(** The message of [apply_mask]'s second handler. *)
Definition applying_msg (w : World) (mask_img : image_like) (img : Img) : string :=
  "Error applying mask " +:+ repr_imgs w mask_img +:+ " to "
  +:+ repr_imgs w (ImgObj img) +:+ ".".

(** The message of [union_mask]'s handler. *)
Definition joining_msg (w : World) (firstimg roiimg : Img) : string :=
  "Error joining mask " +:+ repr_imgs w (ImgObj firstimg) +:+ " and "
  +:+ repr_imgs w (ImgObj roiimg) +:+ ".".

(** The message of the loop's handler. *)
Definition reading_msg (w : World) (img : Img) : string :=
  "Error when reading file " +:+ repr_imgs w (ImgObj img) +:+ ".".

(** ** Example images *)

(** A three-voxel image, of another shape than the examples above. *)
Definition example_other_shape : Img := image_of [3; 1; 1] [1; 0; 1]%Z.

(** A mask of the 2x2x1 grid with a single true voxel. *)
Definition example_single_voxel_mask : Img := image_of [2; 2; 1] [0; 0; 0; 1]%Z.

(** A 4-D series over the 2x2x1 grid of [example_mask]. *)
Definition example_series : Img := image_of [2; 2; 1; 2] [1; 2; 3; 4; 5; 6; 7; 8]%Z.

(** A world of 8-bit unsigned files, except those whose header says
    [int16]. *)
Definition typed_world : World :=
  {| check_img := check_img_spec [];
     repr_imgs := repr_imgs_spec;
     repr_array := λ _, "[...]";
     dtype_of := λ img, if String.eqb (get_header img) "int16" then np.int16 else np.uint8 |}.

(** ** Environment variables *)

(** [s[n:]] *)
Fixpoint slice_from (s : string) (n : nat) : string :=
  match n, s with
  | S m, String _ s' => slice_from s' m
  | _, _ => s
  end.

(** [sub in s] *)
Fixpoint contains (s sub : string) : bool :=
  String.prefix sub s
  || match s with
     | EmptyString => false
     | String _ s' => contains s' sub
     end.

(** ['%s_' % appname.upper()] *)
Definition env_prefix (appname : string) : string := str.upper appname +:+ "_".

(** The key the claim gives a variable: its name without the leading
    prefix, lower-cased. *)
Definition derived_key (prefix name : string) : string :=
  str.lower (slice_from name (String.length prefix)).

(** No variable that starts with the prefix contains it a second time. *)
Definition prefix_only_leading (prefix : string) (environ : list (string * string)) : bool :=
  forallb (λ kv, implb (str.startswith kv.1 prefix)
                       (negb (contains (slice_from kv.1 (String.length prefix)) prefix)))
          environ.

(** The environment variables that [get_environment] keeps. *)
Definition env_kept (prefix : string) (kv : string * string) : Prop :=
  Is_true (str.startswith kv.1 prefix).

(** An environment with two variables for the application [app]. *)
Definition example_sys : Sys :=
  {| os_environ := [("HOME", "/home/user"); ("APP_Verbose", "yes"); ("APP_PATH", "/data")];
     gethostname := "host";
     home_dir := "/home/user";
     op_join := λ _, VNone;
     config_read := λ _, ∅ |}.

(** ** Settings *)

(** The value a key has in a section of the parsed config files: the
    option's string, or None when the section or the option is absent. *)
Definition section_value (items : option (gmap string string)) (k : string) : pyval :=
  match items with
  | Some m => match m !! k with Some x => VStr x | None => VNone end
  | None => VNone
  end.

(** The config-file lookup [rcfile] makes for the arguments [args]. *)
Definition config_for (s : Sys) (appname : string) (section : option string) (args : pydict)
  : gmap string pyval :=
  rcfile.get_config s appname (default appname section)
    (default (VStr "") (dict_get args "config"))
    (default (VStr "") (dict_get args "path")).

(** The parser [rcfile] reads the sections from. *)
Definition parser_for (s : Sys) (appname : string) (args : pydict)
  : gmap string (gmap string string) :=
  config_read s (rcfile.get_config_filepaths s appname
                   (default (VStr "") (dict_get args "config"))
                   (default (VStr "") (dict_get args "path"))).

(** The merge of arguments, config section and environment. *)
Definition merged_sources (s : Sys) (appname : string) (section : option string)
    (args : pydict) : gmap string pyval :=
  rcfile.merge (rcfile.merge (dict_view args) (config_for s appname section args))
               (rcfile.get_environment s appname).

Definition not_found (appname : string) : exn :=
  IOError ("Could not find any rcfile for application " +:+ appname +:+ ".").

(** A host with a generic and a host-specific section for [app], and
    one environment variable. *)
Definition example_cfg_sys : Sys :=
  {| os_environ := [("APP_X", "1"); ("HOME", "/home/user")];
     gethostname := "host";
     home_dir := "/home/user";
     op_join := λ _, VNone;
     config_read := λ _,
       {[ "app" := {[ "a" := "generic"; "b" := "" ]};
          "app:host" := {[ "a" := "hostval" ]} ]} |}.

(** Arguments as a command-line parser hands them over. *)
Definition example_args : pydict := [("--a", VStr ""); ("-b", VBool false); ("c", VNone)].

Definition example_args_stripped : pydict := [("a", VStr ""); ("b", VBool false); ("c", VNone)].


(** The dict built from [example_args], as a call of [rcfile] that
    strips the dashes leaves it. *)
Definition example_args_after : PyDictObject :=
  {| dk_entries := Some <$> example_args_stripped; dk_usable := 7 |}.

(** ** Masks and volumes, continued *)

Definition to_bool (x : Z) : Z := if (x =? 0)%Z then 0%Z else 1%Z.

(** Whether some image of the list is non-zero at the flat position [j]. *)
Definition some_nonzero_at (imgs : list Img) (j : nat) : bool :=
  existsb (λ img, negb (nth j (np.data (dataobj img)) 0 =? 0)%Z) imgs.

(** An image on the grid of [first]: same shape, same affine, and as
    many voxels as the shape says. *)
Definition on_grid_of (first img : Img) : Prop :=
  img_shape img = img_shape first
  ∧ get_affine img = get_affine first
  ∧ np.wf (dataobj img).

(** The sum over the images of the values at [j]. *)
Definition voxel_sum (imgs : list Img) (j : nat) : Z :=
  foldr (λ img acc, (nth j (np.data (dataobj img)) 0 + acc)%Z) 0%Z imgs.

(** A sum that the element type can hold without wrapping around; the
    sums of booleans are or-ed, so that every one of them is held. *)
Definition holds_sum (dt : np.dtype) (x : Z) : Prop :=
  match dt with
  | np.bool_ => True
  | np.uint w => (x < 2 ^ np.bits w)%Z
  | np.int_ w => (x < 2 ^ (np.bits w - 1))%Z
  end.

(** The value each image holds at the flat position [v]. *)
Definition column_at (v : nat) (imgs : list Img) : list Z :=
  map (λ img, nth v (np.data (dataobj img)) 0%Z) imgs.

(** The flattened voxel data of the images, one after the other. *)
Definition stacked_rows (imgs : list Img) : list Z :=
  concat (map (λ img, np.data (dataobj img)) imgs).

(** An image with [c] voxels, as many as its shape says. *)
Definition has_voxels (c : nat) (img : Img) : Prop :=
  np.wf (dataobj img) ∧ np.size_of (img_shape img) = c.

(** ** Settings without arguments *)



(** Files of [example_cfg_sys]: two sections, and one folder on disk. *)
Definition example_files : Files :=
  {| config_sections := λ _, ["app"; "app:host"];
     op_exists := λ p, String.eqb p "/data";
     op_expanduser := λ p, p;
     op_realpath := λ p, p |}.

(** ** Commands *)

(** The files [which_py2] tries for a program name without a folder:
    one per entry of PATH, in order. *)
Definition path_candidates (os : Os) (program paths : string) : list string :=
  map (λ path, path_join os (str.strip path (ascii_of_nat 34)) program)
      (str.split paths (pathsep os)).

(** A system where [ls] lives in /usr/bin. *)
Definition example_os : Os :=
  {| version_info := [2; 7]; shutil_which := λ _, None;
     isfile := λ p, String.eqb p "/usr/bin/ls"; access_X_OK := λ _, true;
     path_split := λ p, ("", p); path_join := λ a b, a +:+ "/" +:+ b;
     environ := [("PATH", "/bin:/usr/bin")]; pathsep := ":" |}.

(** [example_os] with an empty environment. *)
Definition example_os_without_PATH : Os :=
  {| version_info := [2; 7]; shutil_which := λ _, None;
     isfile := λ p, String.eqb p "/usr/bin/ls"; access_X_OK := λ _, true;
     path_split := λ p, ("", p); path_join := λ a b, a +:+ "/" +:+ b;
     environ := []; pathsep := ":" |}.

(** Whether every character of [s] is whitespace. *)
Fixpoint all_whitespace (sp : ascii → bool) (s : string) : bool :=
  match s with
  | EmptyString => true
  | String c s' => sp c && all_whitespace sp s'
  end.

(** The command line [condor_submit] hands to the shell. *)
Definition qsub_command (name cmd : string) : string :=
  ("condor_qsub -shell n -b y -r y -N " +:+ name +:+ " -m n") +:+ " " +:+ cmd.

(** A machine without HTCondor: the shell finds neither command (return
    code 127), the command itself runs fine. *)
Definition example_subprocess : Subprocess :=
  {| subprocess_call := λ n cmd shell, Ok (if n <? 2 then 127%Z else 0%Z);
     isspace := λ c, Ascii.eqb c " " |}.

(** ** Storage *)

(** A store where every library call succeeds, except writing the
    variable [bad]. *)
Definition example_store : Store Z :=
  {| lib_call := λ ev, match ev with
                       | ShelveSet "bad" | H5Set "bad" => Raise (LibraryError "cannot write")
                       | _ => Ok tt
                       end;
     is_string_array := λ _, false;
     get_extension := λ f, if String.eqb f "out.MAT" then ".MAT" else "";
     add_extension_if_needed := λ f ext, f +:+ ext |}.

(** * Properties *)

(** ** np.unique *)

Lemma elem_of_insert_sorted (x a : Z) (l : list Z) :
  x ∈ np.insert_sorted a l ↔ x = a ∨ x ∈ l.
Proof.
  induction l as [|y l IH]; simpl.
  - rewrite list_elem_of_singleton, elem_of_nil. tauto.
  - destruct (Z.ltb_spec a y); [by rewrite elem_of_cons|].
    destruct (Z.eqb_spec a y) as [->|].
    + rewrite elem_of_cons. tauto.
    + rewrite !elem_of_cons, IH. tauto.
Qed.

Lemma insert_sorted_lower_bound (b a : Z) (l : list Z) :
  (b < a)%Z → Forall (Z.lt b) l → Forall (Z.lt b) (np.insert_sorted a l).
Proof.
  intros Hb Hl. apply Forall_forall. intros x Hx.
  apply elem_of_insert_sorted in Hx as [->|Hx]; [done|].
  by eapply Forall_forall in Hl.
Qed.

Lemma insert_sorted_sorted (a : Z) (l : list Z) :
  StronglySorted Z.lt l → StronglySorted Z.lt (np.insert_sorted a l).
Proof.
  induction 1 as [|y l Hs IH Hy]; simpl.
  - repeat constructor.
  - destruct (Z.ltb_spec a y).
    + constructor; [by constructor|]. constructor; [done|].
      eapply Forall_impl; [exact Hy|]. intros; simpl in *; lia.
    + destruct (Z.eqb_spec a y); [by constructor|].
      constructor; [done|]. apply insert_sorted_lower_bound; [lia|done].
Qed.

Lemma unique_sorted (a : np.ndarray) : StronglySorted Z.lt (np.unique a).
Proof.
  unfold np.unique. induction (np.data a); simpl; [constructor|].
  by apply insert_sorted_sorted.
Qed.

Lemma elem_of_unique (x : Z) (a : np.ndarray) : x ∈ np.unique a ↔ x ∈ np.data a.
Proof.
  unfold np.unique. induction (np.data a) as [|y l IH]; simpl; [done|].
  rewrite elem_of_insert_sorted, elem_of_cons, IH. done.
Qed.

Lemma NoDup_unique (a : np.ndarray) : NoDup (np.unique a).
Proof.
  pose proof (unique_sorted a) as Hs.
  induction Hs as [|y l Hs IH Hy]; constructor; [|done].
  intros Hin. eapply Forall_forall in Hy; [|exact Hin]. lia.
Qed.

Lemma length_unique (a : np.ndarray) : length (np.unique a) = size (distinct_values a).
Proof.
  unfold distinct_values.
  rewrite <- (size_list_to_set (C := gset Z) (np.unique a)) by apply NoDup_unique.
  f_equal. apply set_eq. intros x.
  rewrite !elem_of_list_to_set. apply elem_of_unique.
Qed.

Lemma elem_of_unique_distinct (x : Z) (a : np.ndarray) :
  x ∈ np.unique a ↔ x ∈ distinct_values a.
Proof. unfold distinct_values. rewrite elem_of_list_to_set. apply elem_of_unique. Qed.

(** ** The effect monad *)

Lemma bind_ok {A B} (m : M A) (f : A → M B) (a : A) (t : list event) :
  m = (Ok a, t) → bind m f = ((f a).1, t ++ (f a).2).
Proof. intros ->. simpl. by destruct (f a). Qed.

Lemma bind_raise {A B} (m : M A) (f : A → M B) (e : exn) (t : list event) :
  m = (Raise e, t) → bind m f = (Raise e, t).
Proof. by intros ->. Qed.

Lemma try_except_ok {A} (m : M A) (h : exn → M A) (a : A) (t : list event) :
  m = (Ok a, t) → try_except m h = (Ok a, t).
Proof. by intros ->. Qed.

Lemma try_log_and_reraise {A} (m : M A) (msg : string) (e : exn) (t : list event) :
  m = (Raise e, t) → try_except m (log_and_reraise msg) = (Raise e, t ++ [EvLog msg]).
Proof. by intros ->. Qed.

Lemma try_log_and_raise {A} (m : M A) (msg : string) (e' e : exn) (t : list event) :
  m = (Raise e, t) → try_except m (log_and_raise msg e') = (Raise e', t ++ [EvLog msg]).
Proof. by intros ->. Qed.

(** ** read.get_img_data *)

Lemma get_img_data_loaded (w : World) (img : Img) (copy : bool) :
  accepts_loaded w →
  read.get_img_data w (ImgObj img) copy = (Ok (dataobj img), [EvGetData img]).
Proof.
  intros Hw. unfold read.get_img_data. rewrite Hw. by destruct copy.
Qed.

(** ** mask.load_mask *)

Lemma single_value (l : list Z) (s : gset Z) :
  length l = 1 → (∀ x, x ∈ l ↔ x ∈ s) → (nth 0 l 0%Z = 0%Z ↔ 0%Z ∈ s).
Proof.
  destruct l as [|v [|]]; try done. intros _ H. simpl.
  rewrite <- H, list_elem_of_singleton. split; congruence.
Qed.

Lemma load_mask_legal (w : World) (image : image_like) (allow_empty : bool) (img : Img) :
  accepts_loaded w →
  check_img w image true = Ok img →
  legal_mask_values (distinct_values (dataobj img)) allow_empty →
  mask.load_mask w image allow_empty
  = (Ok (boolean_image img), [EvGetData img; EvGetData img]).
Proof.
  intros Hw Himg Hlegal. unfold mask.load_mask. rewrite Himg. simpl.
  rewrite length_unique.
  pose proof (single_value (np.unique (dataobj img)) (distinct_values (dataobj img))) as H1.
  rewrite length_unique in H1. specialize (λ H, H1 H (λ x, elem_of_unique_distinct x _)).
  destruct Hlegal as [[Hsz Hv]|[Hsz Hv]]; rewrite Hsz; simpl.
  - specialize (H1 Hsz).
    destruct (Z.eqb_spec (nth 0 (np.unique (dataobj img)) 0%Z) 0) as [Hz|Hz].
    + apply H1 in Hz. destruct Hv as [Hv| ->]; [done|]. simpl.
      by rewrite get_img_data_loaded.
    + simpl. by rewrite get_img_data_loaded.
  - rewrite bool_decide_true by (by apply elem_of_unique_distinct). simpl.
    by rewrite get_img_data_loaded.
Qed.

Lemma load_mask_illegal (w : World) (image : image_like) (allow_empty : bool) (img : Img) :
  check_img w image true = Ok img →
  ¬ legal_mask_values (distinct_values (dataobj img)) allow_empty →
  ∃ msg, mask.load_mask w image allow_empty = (Raise (ValueError msg), [EvGetData img]).
Proof.
  intros Himg Hill. unfold mask.load_mask. rewrite Himg. simpl.
  rewrite length_unique.
  pose proof (single_value (np.unique (dataobj img)) (distinct_values (dataobj img))) as H1.
  rewrite length_unique in H1. specialize (λ H, H1 H (λ x, elem_of_unique_distinct x _)).
  unfold legal_mask_values in Hill.
  destruct (Nat.eqb_spec (size (distinct_values (dataobj img))) 1) as [Hsz|Hsz].
  - specialize (H1 Hsz).
    destruct (Z.eqb_spec (nth 0 (np.unique (dataobj img)) 0%Z) 0) as [Hz|Hz];
      destruct allow_empty; simpl; eauto.
    + exfalso. apply Hill. eauto.
    + exfalso. apply Hill. left. split; [done|]. left. by rewrite <- H1.
    + exfalso. apply Hill. left. split; [done|]. left. by rewrite <- H1.
  - destruct (Nat.eqb_spec (size (distinct_values (dataobj img))) 2) as [Hsz2|Hsz2]; simpl.
    + case_bool_decide as Hin; simpl; eauto.
      exfalso. apply Hill. right. split; [done|]. by apply elem_of_unique_distinct.
    + eauto.
Qed.

(** ** Indexing: unravel, ravel, where *)

Lemma length_unravel_index (sh : list nat) (i : nat) :
  length (np.unravel_index sh i) = length sh.
Proof. revert i. induction sh; intros; simpl; [done|]. by rewrite IHsh. Qed.

Lemma ravel_unravel (sh : list nat) (i : nat) :
  i < np.size_of sh → np.ravel_multi_index sh (np.unravel_index sh i) = i.
Proof.
  revert i. induction sh as [|d ds IH]; intros i Hi; simpl in *; [lia|].
  assert (np.size_of ds ≠ 0) as Hnz by (intros Hz; rewrite Hz in Hi; lia).
  rewrite IH by (by apply Nat.mod_upper_bound).
  pose proof (Nat.div_mod_eq i (np.size_of ds)). lia.
Qed.

Lemma unravel_in_bounds (sh : list nat) (i : nat) :
  i < np.size_of sh → np.in_bounds sh (np.unravel_index sh i) = true.
Proof.
  unfold np.in_bounds.
  revert i. induction sh as [|d ds IH]; intros i Hi; simpl in *; [done|].
  assert (np.size_of ds ≠ 0) as Hnz by (intros Hz; rewrite Hz in Hi; lia).
  apply andb_true_intro. split.
  - apply Nat.ltb_lt. apply Nat.Div0.div_lt_upper_bound. lia.
  - apply IH. by apply Nat.mod_upper_bound.
Qed.

Lemma elem_of_nonzero_from (k j : nat) (l : list Z) :
  j ∈ np.nonzero_from k l ↔ ∃ i x, j = k + i ∧ l !! i = Some x ∧ x ≠ 0%Z.
Proof.
  revert k. induction l as [|y l IH]; intros k; simpl.
  - rewrite elem_of_nil. split; [done|]. by intros (i & x & _ & ? & _).
  - destruct (Z.eqb_spec y 0) as [->|Hy].
    + rewrite IH. split.
      * intros (i & x & -> & Hi & Hx). exists (S i), x. split; [lia|done].
      * intros (i & x & -> & Hi & Hx). destruct i as [|i]; simpl in Hi; [congruence|].
        exists i, x. split; [lia|done].
    + rewrite elem_of_cons, IH. split.
      * intros [->|(i & x & -> & Hi & Hx)].
        -- exists 0, y. split; [lia|done].
        -- exists (S i), x. split; [lia|done].
      * intros (i & x & -> & Hi & Hx). destruct i as [|i]; simpl in Hi.
        -- left. lia.
        -- right. exists i, x. split; [lia|done].
Qed.

Lemma elem_of_flatnonzero (j : nat) (l : list Z) :
  j ∈ np.flatnonzero l ↔ ∃ x, l !! j = Some x ∧ x ≠ 0%Z.
Proof.
  unfold np.flatnonzero. rewrite elem_of_nonzero_from. split.
  - intros (i & x & -> & ?). by exists x.
  - intros (x & ?). by exists j, x.
Qed.

Lemma flatnonzero_lt (j : nat) (l : list Z) : j ∈ np.flatnonzero l → j < length l.
Proof.
  intros (x & Hx & _)%elem_of_flatnonzero. by eapply lookup_lt_Some.
Qed.

Lemma map_nth_seq {A} (l : list A) (d : A) :
  map (λ i, nth i l d) (seq 0 (length l)) = l.
Proof.
  induction l as [|x l IH]; simpl; [done|].
  f_equal. rewrite <- seq_shift, map_map. exact IH.
Qed.

Lemma nth_map_lt {A B} (f : A → B) (l : list A) (p : nat) (d : A) (d' : B) :
  p < length l → nth p (map f l) d' = f (nth p l d).
Proof.
  revert p. induction l as [|x l IH]; intros [|p] Hp; simpl in *; try lia; [done|].
  apply IH. lia.
Qed.

Lemma coords_where (a : np.ndarray) (p : nat) :
  p < length (np.flatnonzero (np.data a)) →
  np.coords (np.where_ a) p
  = np.unravel_index (np.shape a) (nth p (np.flatnonzero (np.data a)) 0).
Proof.
  intros Hp. unfold np.coords, np.where_. rewrite map_map.
  rewrite <- (map_nth_seq (np.unravel_index _ _) 0) at 1.
  rewrite length_unravel_index.
  apply map_ext. intros ax. by rewrite (nth_map_lt _ _ _ 0).
Qed.

Lemma index_count_where (a : np.ndarray) :
  np.shape a ≠ [] → np.index_count (np.where_ a) = length (np.flatnonzero (np.data a)).
Proof.
  unfold np.where_. destruct (np.shape a) as [|d ds]; [done|]. intros _. simpl.
  by rewrite length_map.
Qed.

Lemma length_where (a : np.ndarray) : length (np.where_ a) = length (np.shape a).
Proof. unfold np.where_. by rewrite length_map, length_seq. Qed.

Lemma nth_flatnonzero_lt (l : list Z) (p : nat) :
  p < length (np.flatnonzero l) → nth p (np.flatnonzero l) 0 < length l.
Proof.
  intros Hp. apply flatnonzero_lt. apply list_elem_of_In. by apply nth_In.
Qed.

Lemma valid_index_where (a : np.ndarray) :
  np.wf a → np.shape a ≠ [] → np.valid_index (np.shape a) (np.where_ a) = true.
Proof.
  intros Hwf Hsh. unfold np.valid_index.
  rewrite index_count_where by done.
  rewrite bool_decide_true by (rewrite length_where; lia). simpl.
  apply andb_true_intro. split.
  - apply forallb_forall. intros arr Harr. apply Nat.eqb_eq.
    unfold np.where_ in Harr. apply in_map_iff in Harr as (ax & <- & _).
    by rewrite length_map.
  - apply forallb_forall. intros p Hp. apply in_seq in Hp.
    rewrite coords_where by lia. apply unravel_in_bounds.
    rewrite <- Hwf. apply nth_flatnonzero_lt. lia.
Qed.

(** The numpy model on small arrays. *)
Example np_unique_example :
  np.unique (np.array [2; 3] [3; 1; 3; 2; 1; 3]%Z) = [1; 2; 3]%Z.
Proof. reflexivity. Qed.

Example np_where_example :
  np.where_ (np.array [2; 3] [0; 1; 0; 1; 0; 1]%Z) = [[0; 1; 1]; [1; 0; 2]].
Proof. reflexivity. Qed.

Example np_getitem_mask_example :
  np.getitem_mask (np.array [2; 3] [10; 11; 12; 13; 14; 15]%Z)
                  (np.array [2; 3] [0; 1; 0; 1; 0; 1]%Z)
  = Ok (np.array [3] [11; 13; 15]%Z)
  ∧ np.getitem_mask (np.array [2; 3] [10; 11; 12; 13; 14; 15]%Z) (np.array [2] [0; 1]%Z)
    = Ok (np.array [1; 3] [13; 14; 15]%Z)
  ∧ np.getitem_mask (np.array [2; 3] [10; 11; 12; 13; 14; 15]%Z) (np.array [3] [0; 1; 0]%Z)
    = Raise (IndexError "boolean index did not match indexed array").
Proof. repeat split; reflexivity. Qed.

Example np_getitem_tuple_example :
  np.getitem_tuple (np.array [2; 3] [10; 11; 12; 13; 14; 15]%Z) [[0; 1; 1]; [1; 0; 2]]
  = Ok (np.array [3] [11; 13; 15]%Z)
  ∧ np.getitem_tuple (np.array [2; 3] [10; 11; 12; 13; 14; 15]%Z) [[0; 2]; [1; 0]]
    = Raise (IndexError "index out of bounds or too many indices").
Proof. split; reflexivity. Qed.

Example np_setitem_row_example :
  np.setitem_row (np.zeros [2; 3]) 1 (np.array [3] [7; 8; 9]%Z)
  = Ok (np.array [2; 3] [0; 0; 0; 7; 8; 9]%Z)
  ∧ np.setitem_row (np.zeros [2; 3]) 0 (np.array [1] [7]%Z)
    = Ok (np.array [2; 3] [7; 7; 7; 0; 0; 0]%Z)
  ∧ np.setitem_row (np.zeros [2; 1]) 0 (np.array [2] [7; 8]%Z)
    = Raise (ValueError "could not broadcast input array").
Proof. repeat split; reflexivity. Qed.

(** ** Boolean-mask selection and scattering back *)

Lemma block_one (l : list Z) (i : nat) :
  i < length l → np.block 1 l i = [nth i l 0%Z].
Proof.
  intros Hi. unfold np.block. rewrite Nat.mul_1_r.
  destruct (lookup_lt_is_Some_2 l i Hi) as [x Hx].
  rewrite (nth_lookup_Some _ _ _ _ Hx).
  apply take_drop_middle in Hx. rewrite <- Hx at 1.
  rewrite drop_app_length'; [done|]. rewrite length_take. lia.
Qed.

Lemma concat_singletons {A B} (f : A → B) (l : list A) :
  concat (map (λ x, [f x]) l) = map f l.
Proof. induction l; simpl; [done|]. by f_equal. Qed.

(** Selecting with a mask of the array's own shape gives the elements
    at the mask's non-zero positions, in order. *)
Lemma getitem_mask_same_shape (a m : np.ndarray) :
  np.shape m = np.shape a → np.wf a → np.wf m →
  np.getitem_mask a m
  = Ok {| np.shape := [np.count_nonzero m];
          np.data := map (λ i, nth i (np.data a) 0%Z) (np.flatnonzero (np.data m)) |}.
Proof.
  intros Hsh Ha Hm. unfold np.getitem_mask. rewrite Hsh.
  rewrite firstn_all, bool_decide_true by done.
  rewrite drop_all. simpl. do 2 f_equal.
  rewrite <- (concat_singletons (λ i, nth i (np.data a) 0%Z)). f_equal.
  apply map_ext_in. intros i Hi. apply block_one.
  apply list_elem_of_In, flatnonzero_lt in Hi.
  unfold np.wf in *. rewrite Hsh in Hm. lia.
Qed.

Lemma foldl_ext_in {A B} (f g : A → B → A) (l : list B) (a : A) :
  (∀ a x, x ∈ l → f a x = g a x) → foldl f a l = foldl g a l.
Proof.
  revert a. induction l as [|x l IH]; intros a H; simpl; [done|].
  rewrite H by left. apply IH. intros. apply H. by right.
Qed.

(** Writing [f i] at every position [i] of a list of positions. *)
Lemma lookup_foldl_insert (f : nat → Z) (l : list nat) (d : list Z) (j : nat) :
  j < length d →
  foldl (λ d i, <[i := f i]> d) d l !! j
  = if decide (j ∈ l) then Some (f j) else d !! j.
Proof.
  revert d. induction l as [|i l IH]; intros d Hj.
  - destruct (decide (j ∈ [])) as [Hin|_]; [by apply elem_of_nil in Hin|done].
  - cbn [foldl]. rewrite IH by (by rewrite length_insert).
    destruct (decide (j ∈ l)) as [Hin|Hnin];
      destruct (decide (j ∈ i :: l)) as [Hin'|Hnin']; try done.
    + exfalso. apply Hnin'. by right.
    + apply elem_of_cons in Hin' as [->|]; [|done].
      by apply list_lookup_insert_eq.
    + apply list_lookup_insert_ne. intros ->. apply Hnin'. by left.
Qed.

Lemma scatter_where (vol m : np.ndarray) :
  np.shape m = np.shape vol → np.shape vol ≠ [] → np.wf vol → np.wf m →
  scatter (np.shape vol) (np.where_ m)
    {| np.shape := [np.count_nonzero m];
       np.data := map (λ i, nth i (np.data vol) 0%Z) (np.flatnonzero (np.data m)) |}
  = Ok {| np.shape := np.shape vol;
          np.data := foldl (λ d i, <[i := nth i (np.data vol) 0%Z]> d)
                           (replicate (np.size_of (np.shape vol)) 0%Z)
                           (np.flatnonzero (np.data m)) |}.
Proof.
  intros Hsh Hne Hvol Hm. unfold scatter, np.setitem_tuple. simpl.
  rewrite <- Hsh. rewrite valid_index_where by (done || congruence).
  rewrite length_where, index_count_where by congruence.
  rewrite !bool_decide_true by done. simpl. f_equal. f_equal.
  set (nz := np.flatnonzero (np.data m)).
  transitivity (foldl (λ d i, <[i := nth i (np.data vol) 0%Z]> d)
                      (replicate (np.size_of (np.shape m)) 0%Z)
                      ((λ p, nth p nz 0) <$> seq 0 (length nz)));
    [|f_equal; apply (map_nth_seq nz 0)].
  rewrite foldl_fmap.
  apply foldl_ext_in. intros d p Hp. apply elem_of_seq in Hp.
  rewrite coords_where by (fold nz; lia). fold nz.
  rewrite ravel_unravel.
  - f_equal. apply (nth_map_lt (λ i, nth i (np.data vol) 0%Z) nz p 0). lia.
  - rewrite <- Hm. apply nth_flatnonzero_lt. fold nz. lia.
Qed.

(** ** mask.apply_mask *)

Lemma wf_as_ndarray_bool (a : np.ndarray) : np.wf a → np.wf (as_ndarray_bool a).
Proof. unfold np.wf. simpl. by rewrite length_map. Qed.

Lemma nonzero_from_as_bool (k : nat) (l : list Z) :
  np.nonzero_from k (map (λ x, if (x =? 0)%Z then 0%Z else 1%Z) l) = np.nonzero_from k l.
Proof.
  revert k. induction l as [|x l IH]; intros k; simpl; [done|].
  destruct (Z.eqb_spec x 0); simpl; by rewrite IH.
Qed.

Lemma flatnonzero_as_ndarray_bool (a : np.ndarray) :
  np.flatnonzero (np.data (as_ndarray_bool a)) = np.flatnonzero (np.data a).
Proof. apply nonzero_from_as_bool. Qed.

Lemma apply_mask_ok (w : World) (image mask_img : image_like) (img m0 m : Img) :
  accepts_loaded w →
  check_img w image false = Ok img →
  check_img w mask_img false = Ok m0 →
  check_img w mask_img true = Ok m →
  check_img_compatibility w (ImgObj img) (ImgObj m0) false = Ok tt →
  img_shape m = img_shape img →
  np.wf (dataobj img) → np.wf (dataobj m) →
  legal_mask_values (distinct_values (dataobj m)) true →
  mask.apply_mask w image mask_img
  = (Ok (selected_voxels (dataobj img) (dataobj m), np.where_ (as_ndarray_bool (dataobj m))),
     [EvGetData img; EvGetData m; EvGetData m; EvGetData (boolean_image m)]).
Proof.
  intros Hw Himg Hm0 Hm Hcompat Hsh Hwfi Hwfm Hlegal.
  unfold mask.apply_mask. rewrite Himg, Hm0. simpl. rewrite Hcompat. simpl.
  rewrite (load_mask_legal w mask_img true m) by done. simpl.
  rewrite getitem_mask_same_shape; [|done|done|by apply wf_as_ndarray_bool].
  simpl. unfold selected_voxels, np.flatnonzero. by rewrite nonzero_from_as_bool.
Qed.

(** C2.  For every volume and every valid mask of matching shape: the
    values and indices returned by [apply_mask], scattered into a fresh
    array of zeros of the volume's shape, give an array that agrees with
    the volume at every voxel where the mask is true. *)
Theorem apply_mask_scatter_roundtrip (w : World) (image mask_img : image_like)
    (img m0 m : Img) :
  accepts_loaded w →
  check_img w image false = Ok img →
  check_img w mask_img false = Ok m0 →
  check_img w mask_img true = Ok m →
  check_img_compatibility w (ImgObj img) (ImgObj m0) false = Ok tt →
  img_shape m = img_shape img →
  img_shape img ≠ [] →
  np.wf (dataobj img) → np.wf (dataobj m) →
  legal_mask_values (distinct_values (dataobj m)) true →
  ∃ values indices out,
    outcome (mask.apply_mask w image mask_img) = Ok (values, indices)
    ∧ scatter (img_shape img) indices values = Ok out
    ∧ np.shape out = img_shape img
    ∧ ∀ i x, np.data (dataobj m) !! i = Some x → x ≠ 0%Z →
        np.data out !! i = np.data (dataobj img) !! i.
Proof.
  intros Hw Himg Hm0 Hm Hcompat Hsh Hne Hwfi Hwfm Hlegal.
  eexists _, _, _. split; [|split; [|split]].
  - by rewrite (apply_mask_ok w image mask_img img m0 m).
  - unfold selected_voxels.
    rewrite <- (flatnonzero_as_ndarray_bool (dataobj m)).
    apply (scatter_where (dataobj img) (as_ndarray_bool (dataobj m)));
      [done|done|done|by apply wf_as_ndarray_bool].
  - done.
  - intros i x Hi Hx. cbn [np.data].
    assert (i < length (np.data (dataobj img))) as Hlt.
    { apply lookup_lt_Some in Hi. unfold np.wf, img_shape in *. rewrite Hsh in Hwfm. lia. }
    rewrite lookup_foldl_insert by (rewrite length_replicate; unfold np.wf in Hwfi; lia).
    rewrite decide_True.
    + destruct (lookup_lt_is_Some_2 _ _ Hlt) as [y Hy].
      by rewrite Hy, (nth_lookup_Some _ _ _ _ Hy).
    + rewrite flatnonzero_as_ndarray_bool. apply elem_of_flatnonzero. eauto.
Qed.

Lemma legal_example_mask : legal_mask_values (distinct_values (dataobj example_mask)) true.
Proof. right. split; [by vm_compute|]. apply (bool_decide_unpack _). by vm_compute. Qed.

(** The round trip on [example_volume] and [example_mask]. *)
Lemma apply_mask_scatter_roundtrip_witness :
  ∃ values indices out,
    outcome (mask.apply_mask (spec_world []) (ImgObj example_volume) (ImgObj example_mask))
    = Ok (values, indices)
    ∧ scatter [2; 2; 1] indices values = Ok out
    ∧ np.shape out = [2; 2; 1]
    ∧ ∀ i x, [0; 1; 0; 1]%Z !! i = Some x → x ≠ 0%Z →
        np.data out !! i = [5; 6; 7; 8]%Z !! i.
Proof.
  apply (apply_mask_scatter_roundtrip (spec_world []) (ImgObj example_volume)
           (ImgObj example_mask) example_volume example_mask example_mask).
  - intros img. reflexivity.
  - reflexivity.
  - reflexivity.
  - reflexivity.
  - reflexivity.
  - reflexivity.
  - discriminate.
  - reflexivity.
  - reflexivity.
  - exact legal_example_mask.
Defined.

(** C1.  Mask validation ([load_mask]; [allow_empty] is True by
    default): the image is accepted exactly when its set of distinct raw
    values has one element (non-zero, or zero when empty masks are
    allowed) or two elements one of which is zero; every other image is
    refused with the invalid-mask error (ValueError). *)
Theorem load_mask_accepts_exactly (w : World) (image : image_like) (allow_empty : bool)
    (img : Img) :
  accepts_loaded w →
  check_img w image true = Ok img →
  (outcome (mask.load_mask w image allow_empty) = Ok (boolean_image img)
     ↔ legal_mask_values (distinct_values (dataobj img)) allow_empty)
  ∧ (¬ legal_mask_values (distinct_values (dataobj img)) allow_empty →
     ∃ msg, outcome (mask.load_mask w image allow_empty) = Raise (ValueError msg)).
Proof.
  intros Hw Himg. split; [split|].
  - intros Hok.
    destruct (decide (legal_mask_values (distinct_values (dataobj img)) allow_empty))
      as [|Hill]; [done|].
    destruct (load_mask_illegal w image allow_empty img Himg Hill) as [msg Hmsg].
    rewrite Hmsg in Hok. discriminate.
  - intros Hlegal. by rewrite (load_mask_legal w image allow_empty img).
  - intros Hill.
    destruct (load_mask_illegal w image allow_empty img Himg Hill) as [msg Hmsg].
    exists msg. by rewrite Hmsg.
Qed.

(** The theorem at the mask of the spec's example, with the default
    [allow_empty]. *)
Lemma load_mask_accepts_exactly_witness :
  (outcome (mask.load_mask (spec_world []) (ImgObj spec_example_mask) true)
   = Ok (boolean_image spec_example_mask)
     ↔ legal_mask_values (distinct_values (dataobj spec_example_mask)) true)
  ∧ (¬ legal_mask_values (distinct_values (dataobj spec_example_mask)) true →
     ∃ msg, outcome (mask.load_mask (spec_world []) (ImgObj spec_example_mask) true)
            = Raise (ValueError msg)).
Proof.
  apply (load_mask_accepts_exactly (spec_world []) (ImgObj spec_example_mask) true
           spec_example_mask).
  - intros img. reflexivity.
  - reflexivity.
Defined.

Example load_mask_spec_example_accepted :
  outcome (mask.load_mask (spec_world []) (ImgObj spec_example_mask) true)
  = Ok (image_of [2; 2] [0; 0; 0; 1]%Z).
Proof. reflexivity. Qed.

Example load_mask_spec_example_rejected :
  outcome (mask.load_mask (spec_world []) (ImgObj spec_example_four_values) true)
  = Raise (ValueError ("Given mask is not made of 2 values: [...]. "
                       +:+ "Cannot interpret as true or false")).
Proof. reflexivity. Qed.

(** With [allow_empty=False] the all-zero mask is refused, with the
    default it is accepted. *)
Example load_mask_empty_mask :
  outcome (mask.load_mask (spec_world []) (ImgObj (image_of [2; 1; 1] [0; 0]%Z)) false)
  = Raise (ValueError "Given mask is invalid because it masks all data")
  ∧ outcome (mask.load_mask (spec_world []) (ImgObj (image_of [2; 1; 1] [0; 0]%Z)) true)
    = Ok (image_of [2; 1; 1] [0; 0]%Z).
Proof. split; reflexivity. Qed.

(** ** How exceptions travel *)

Lemma get_img_data_reraises (w : World) (image : image_like) (copy : bool) (e : exn) :
  check_img w image false = Raise e →
  read.get_img_data w image copy
  = (Raise e, [EvLog ("Error when reading file " +:+ repr_imgs w image +:+ ".")]).
Proof. intros H. unfold read.get_img_data. by rewrite H. Qed.

Lemma load_mask_reraises (w : World) (image : image_like) (allow_empty : bool) (e : exn) :
  check_img w image true = Raise e →
  mask.load_mask w image allow_empty
  = (Raise e, [EvLog ("Error reading mask " +:+ repr_imgs w image +:+ ".")]).
Proof. intros H. unfold mask.load_mask. by rewrite H. Qed.

Lemma load_mask_data_reraises (w : World) (image : image_like) (allow_empty : bool)
    (e : exn) (t : list event) :
  mask.load_mask w image allow_empty = (Raise e, t) →
  mask.load_mask_data w image allow_empty
  = (Raise e, t ++ [EvLog ("Error loading mask " +:+ repr_imgs w image +:+ ".")]).
Proof. intros H. unfold mask.load_mask_data. by rewrite H. Qed.

Lemma binarise_reraises (w : World) (image : image_like) (threshold : Z) (e : exn) :
  check_img w image false = Raise e →
  mask.binarise w image threshold
  = (Raise e, [EvLog ("Error creating mask from file " +:+ repr_imgs w image +:+ ".")]).
Proof. intros H. unfold mask.binarise. by rewrite H. Qed.

Lemma resolve_pair_silent (w : World) (image mask_img : image_like) (b : bool) :
  events (resolve_pair w image mask_img b) = [].
Proof.
  unfold resolve_pair.
  destruct (check_img w image false) as [img|]; [|done]. simpl.
  destruct (check_img w mask_img false) as [m|]; [|done]. simpl.
  by destruct (check_img_compatibility w (ImgObj img) (ImgObj m) b) as [[]|].
Qed.

Lemma apply_mask_phase1_raises (w : World) (image mask_img : image_like) (e : exn) :
  outcome (resolve_pair w image mask_img false) = Raise e →
  mask.apply_mask w image mask_img
  = (Raise (not_compatible w image mask_img), [EvLog (not_compatible_msg w image mask_img)]).
Proof.
  intros H. pose proof (resolve_pair_silent w image mask_img false) as Ht.
  unfold mask.apply_mask. fold (resolve_pair w image mask_img false).
  destruct (resolve_pair w image mask_img false) as [[|] t]; simpl in *; [done|].
  by subst.
Qed.

Lemma apply_mask_4d_phase1_raises (w : World) (image mask_img : image_like) (e : exn) :
  outcome (resolve_pair w image mask_img true) = Raise e →
  mask.apply_mask_4d w image mask_img
  = (Raise (not_compatible w image mask_img), [EvLog (not_compatible_msg w image mask_img)]).
Proof.
  intros H. pose proof (resolve_pair_silent w image mask_img true) as Ht.
  unfold mask.apply_mask_4d. fold (resolve_pair w image mask_img true).
  destruct (resolve_pair w image mask_img true) as [[|] t]; simpl in *; [done|].
  by subst.
Qed.

Lemma apply_mask_phase2_raises (w : World) (image mask_img : image_like) (img m0 : Img)
    (e : exn) (t : list event) :
  resolve_pair w image mask_img false = (Ok (img, m0), []) →
  mask.load_mask w mask_img true = (Raise e, t) →
  mask.apply_mask w image mask_img
  = (Raise (ValueError (applying_msg w mask_img img)),
     EvGetData img :: t ++ [EvLog (applying_msg w mask_img img)]).
Proof.
  intros H1 H2. unfold mask.apply_mask. fold (resolve_pair w image mask_img false).
  rewrite H1. simpl. by rewrite H2.
Qed.

(** *** union_mask *)

Lemma union_mask_loop_roiimg_bound (w : World) (firstimg : Img) (filelist : list image_like)
    (m : np.ndarray) (roi : Img) :
  ∃ roi', (mask.union_mask_loop w firstimg filelist m (Some roi)).2 = Some roi'.
Proof.
  revert m roi. induction filelist as [|volf rest IH]; intros m roi; simpl; [eauto|].
  destruct (check_img w volf false) as [r|]; [|simpl; eauto].
  match goal with |- context [match ?s with _ => _ end] => destruct s as [[m'|e] t] end.
  - destruct (IH m' r) as [roi' Hroi'].
    destruct (mask.union_mask_loop w firstimg rest m' (Some r)) as [[r0 t0] o].
    simpl in *. eauto.
  - simpl. eauto.
Qed.

Lemma union_mask_loop_head_bound (w : World) (firstimg r0 : Img) (f : image_like)
    (rest : list image_like) (m : np.ndarray) (roiimg : option Img) :
  check_img w f false = Ok r0 →
  ∃ roi', (mask.union_mask_loop w firstimg (f :: rest) m roiimg).2 = Some roi'.
Proof.
  intros Hf. simpl. rewrite Hf.
  match goal with |- context [match ?s with _ => _ end] => destruct s as [[m'|e] t] end.
  - destruct (union_mask_loop_roiimg_bound w firstimg rest m' r0) as [roi' Hroi'].
    destruct (mask.union_mask_loop w firstimg rest m' (Some r0)) as [[r1 t1] o].
    simpl in *. eauto.
  - simpl. eauto.
Qed.

Lemma union_mask_raises_ValueError (w : World) (f : image_like) (rest : list image_like)
    (firstimg : Img) (e : exn) :
  check_img w f false = Ok firstimg →
  outcome (mask.union_mask w (f :: rest)) = Raise e →
  ∃ roiimg t,
    e = ValueError (joining_msg w firstimg roiimg)
    ∧ events (mask.union_mask w (f :: rest))
      = EvGetData firstimg :: t ++ [EvLog (joining_msg w firstimg roiimg)].
Proof.
  intros Hf. unfold mask.union_mask. rewrite Hf.
  destruct (union_mask_loop_head_bound w firstimg firstimg f rest
              (np.zeros_like (dataobj firstimg)) None Hf) as [roi' Hroi'].
  cbn [lift bind Img_get_data emit ret app].
  cbn [lift bind Img_get_data emit ret app] in Hroi'.
  destruct (mask.union_mask_loop w firstimg (f :: rest) (np.zeros_like (dataobj firstimg)) None)
    as [[[m'|e0] t0] o]; simpl in Hroi'; subst o; simpl.
  - discriminate.
  - intros [= <-]. exists roi', t0. split; [done|]. done.
Qed.

(** ** The compatibility check *)

Lemma check_img_compatibility_shape (w : World) (a b : Img) (only_check_3d : bool) :
  accepts_loaded w →
  have_same_shape a b only_check_3d = false →
  check_img_compatibility w (ImgObj a) (ImgObj b) only_check_3d
  = Raise (NiftiFilesNotCompatible (repr_imgs w (ImgObj a)) (repr_imgs w (ImgObj b))).
Proof.
  intros Hw Hsh. unfold check_img_compatibility. rewrite !Hw. simpl. by rewrite Hsh.
Qed.

Lemma are_compatible_imgs_shape (w : World) (img m0 : Img) (mask_file : image_like) :
  accepts_loaded w →
  check_img w mask_file false = Ok m0 →
  img_shape img ≠ img_shape m0 →
  are_compatible_imgs w (ImgObj img) mask_file = false.
Proof.
  intros Hw Hm Hsh. unfold are_compatible_imgs, check_img_compatibility.
  rewrite Hw, Hm. simpl. unfold have_same_shape. by rewrite bool_decide_false.
Qed.

(** ** mask.niftilist_mask_to_array *)

Lemma niftilist_loop_app (w : World) (mask_file : image_like) (dt : np.dtype)
    (indices : list (list nat))
    (pre rest : list image_like) (i : nat) (outmat outmat' : np.ndarray)
    (img0 img_pre : Img) (t_pre : list event) :
  mask.niftilist_mask_to_array_loop w mask_file dt indices pre i outmat img0
  = ((Ok outmat', t_pre), img_pre) →
  mask.niftilist_mask_to_array_loop w mask_file dt indices (pre ++ rest) i outmat img0
  = (let '((r, t), img') :=
       mask.niftilist_mask_to_array_loop w mask_file dt indices rest (i + length pre)
         outmat' img_pre in
     ((r, t_pre ++ t), img')).
Proof.
  revert i outmat img0 t_pre.
  induction pre as [|f pre IH]; intros i outmat img0 t_pre; simpl.
  - intros [= -> <- ->]. rewrite Nat.add_0_r.
    by destruct (mask.niftilist_mask_to_array_loop _ _ _ _ _ _ _ _) as [[r t] img'].
  - destruct (check_img w f false) as [img|e]; [|discriminate].
    match goal with |- context [match ?s with _ => _ end] => destruct s as [[om|e] t] end;
      [|discriminate].
    destruct (mask.niftilist_mask_to_array_loop w mask_file dt indices pre (S i) om img)
      as [[r1 t1] img1] eqn:Hpre.
    intros [= -> <- ->].
    rewrite (IH _ _ _ _ Hpre).
    replace (S i + length pre) with (i + S (length pre)) by lia.
    destruct (mask.niftilist_mask_to_array_loop _ _ _ _ rest _ _ _) as [[r t'] img'].
    by rewrite app_assoc.
Qed.

Lemma niftilist_loop_incompatible (w : World) (mask_file : image_like) (dt : np.dtype)
    (indices : list (list nat)) (f : image_like) (post : list image_like) (i : nat)
    (outmat : np.ndarray) (img0 img : Img) :
  check_img w f false = Ok img →
  are_compatible_imgs w (ImgObj img) mask_file = false →
  mask.niftilist_mask_to_array_loop w mask_file dt indices (f :: post) i outmat img0
  = ((Raise (NiftiFilesNotCompatible (repr_imgs w (ImgObj img)) (repr_imgs w mask_file)), []),
     img).
Proof. intros Hf Hc. simpl. by rewrite Hf, Hc. Qed.

(** While the loop runs without error, the only voxel data it reads is
    that of files that passed the compatibility check. *)
Lemma niftilist_loop_reads_compatible (w : World) (mask_file : image_like) (dt : np.dtype)
    (indices : list (list nat)) (files : list image_like) (i : nat)
    (outmat outmat' : np.ndarray) (img0 img' : Img) (t : list event) :
  accepts_loaded w →
  mask.niftilist_mask_to_array_loop w mask_file dt indices files i outmat img0
  = ((Ok outmat', t), img') →
  ∀ ev, ev ∈ t →
    ∃ img, ev = EvGetData img ∧ are_compatible_imgs w (ImgObj img) mask_file = true.
Proof.
  intros Hw. revert i outmat img0 t.
  induction files as [|f files IH]; intros i outmat img0 t; simpl.
  - intros [= <- <- <-] ev Hev. by apply elem_of_nil in Hev.
  - destruct (check_img w f false) as [img|e]; [|discriminate].
    destruct (are_compatible_imgs w (ImgObj img) mask_file) eqn:Hc; simpl; [|discriminate].
    rewrite get_img_data_loaded by done. simpl.
    destruct (np.getitem_tuple (dataobj img) indices) as [row|]; simpl; [|discriminate].
    destruct (np.setitem_row outmat i (np.astype dt row)) as [om|]; simpl; [|discriminate].
    destruct (mask.niftilist_mask_to_array_loop w mask_file dt indices files (S i) om img)
      as [[r1 t1] img1] eqn:Hrest.
    intros [= -> <- ->] ev Hev.
    apply elem_of_cons in Hev as [->|Hev]; [eauto|].
    by eapply IH.
Qed.

(** [niftilist_mask_to_array] once the first file resolves and the mask
    loads: the events of the mask load come first, then those of the
    loop, then the handler's log entry if the loop raised. *)
Lemma niftilist_unfold (w : World) (f : image_like) (rest : list image_like)
    (mask_file : image_like) (dt : np.dtype) (img0 mask : Img) (t_mask : list event) :
  accepts_loaded w →
  check_img w f false = Ok img0 →
  mask.load_mask w mask_file true = (Ok mask, t_mask) →
  mask.niftilist_mask_to_array w (f :: rest) mask_file (Some dt)
  = (let '((r, t), img') :=
       mask.niftilist_mask_to_array_loop w mask_file dt (np.where_ (dataobj mask)) (f :: rest) 0
         (np.zeros [length (f :: rest); np.count_nonzero_object mask]) img0 in
     match r with
     | Ok outmat =>
         (Ok (outmat, np.where_ (dataobj mask), img_shape mask),
          t_mask ++ EvGetData mask :: t)
     | Raise e =>
         (Raise e, t_mask ++ EvGetData mask :: t ++ [EvLog (reading_msg w img')])
     end).
Proof.
  intros Hw Hf Hmask. unfold mask.niftilist_mask_to_array.
  rewrite Hf. cbn [lift bind ret app]. rewrite Hmask. cbn [bind].
  rewrite get_img_data_loaded by done. cbn [bind].
  destruct (mask.niftilist_mask_to_array_loop _ _ _ _ _ _ _ _) as [[[om|e] t] img'];
    simpl; by rewrite ?app_nil_r.
Qed.

(** *** The output matrix *)

Lemma setitem_row_shape (out out' v : np.ndarray) (i : nat) :
  np.setitem_row out i v = Ok out' → np.shape out' = np.shape out.
Proof.
  unfold np.setitem_row. destruct (np.shape out) as [|n [|c [|]]]; try discriminate.
  destruct (negb (i <? n)); [discriminate|].
  destruct (np.broadcastable_to_row (np.shape v) c); [|discriminate].
  by intros [= <-].
Qed.

Lemma niftilist_loop_shape (w : World) (mask_file : image_like) (dt : np.dtype)
    (indices : list (list nat))
    (files : list image_like) (i : nat) (outmat outmat' : np.ndarray) (img0 img' : Img)
    (t : list event) :
  mask.niftilist_mask_to_array_loop w mask_file dt indices files i outmat img0
  = ((Ok outmat', t), img') →
  np.shape outmat' = np.shape outmat.
Proof.
  revert i outmat img0 t. induction files as [|f files IH]; intros i outmat img0 t; simpl.
  - by intros [= <- <- <-].
  - destruct (check_img w f false) as [img|e]; [|discriminate].
    match goal with |- context [match ?s with _ => _ end] =>
      destruct s as [[om|e] t0] eqn:Hstep end; [|discriminate].
    destruct (mask.niftilist_mask_to_array_loop w mask_file dt indices files (S i) om img)
      as [[r1 t1] img1] eqn:Hrest.
    intros [= -> <- ->]. rewrite (IH _ _ _ _ Hrest).
    destruct (are_compatible_imgs w (ImgObj img) mask_file); simpl in Hstep;
      [|discriminate].
    destruct (read.get_img_data w (ImgObj img) true) as [[vol|] tv]; simpl in Hstep;
      [|discriminate].
    destruct (np.getitem_tuple vol indices) as [row|]; simpl in Hstep; [|discriminate].
    destruct (np.setitem_row outmat i (np.astype dt row)) as [om'|] eqn:Hrow; simpl in Hstep;
      [|discriminate].
    injection Hstep as <- _. by eapply setitem_row_shape.
Qed.

Lemma bind_Ok_inv {A B} (m : M A) (f : A → M B) (b : B) :
  outcome (bind m f) = Ok b → ∃ a t, m = (Ok a, t) ∧ outcome (f a) = Ok b.
Proof.
  destruct m as [[a|e] t]; simpl; [|discriminate].
  destruct (f a) as [r t'] eqn:Hf. simpl. intros ->. exists a, t. by rewrite Hf.
Qed.

(** Whatever the mask, a matrix returned by [niftilist_mask_to_array]
    has one column: the count is taken of the mask image object, not of
    its boolean data. *)
Lemma niftilist_returns_one_column (w : World) (img_filelist : list image_like)
    (mask_file : image_like) (outdtype : option np.dtype) (outmat : np.ndarray)
    (indices : list (list nat)) (sh : list nat) :
  outcome (mask.niftilist_mask_to_array w img_filelist mask_file outdtype)
  = Ok (outmat, indices, sh) →
  np.shape outmat = [length img_filelist; 1].
Proof.
  unfold mask.niftilist_mask_to_array. intros H.
  apply bind_Ok_inv in H as (img0 & t0 & _ & H).
  apply bind_Ok_inv in H as (dt & t0' & _ & H).
  apply bind_Ok_inv in H as (mask & t1 & _ & H).
  apply bind_Ok_inv in H as (mask_data & t2 & _ & H).
  destruct (mask.niftilist_mask_to_array_loop _ _ _ _ _ _ _ _) as [[[om|e] t] img'] eqn:Hloop;
    simpl in H; [|discriminate].
  injection H as <- _ _.
  by rewrite (niftilist_loop_shape _ _ _ _ _ _ _ _ _ _ _ Hloop).
Qed.

(** C4, at a volume and a mask with two true voxels, called with an
    element type for the output: the call raises where the claim
    promises the 1 x 2 matrix [[6, 8]]. *)
Theorem niftilist_mask_to_array_two_voxels_raises :
  outcome (mask.niftilist_mask_to_array (spec_world []) [ImgObj example_volume]
             (ImgObj example_mask) (Some np.int64))
  = Raise (ValueError "could not broadcast input array")
  ∧ np.count_nonzero (dataobj example_mask) = 2
  ∧ np.getitem_tuple (dataobj example_volume) (np.where_ (dataobj example_mask))
    = Ok (np.array [2] [6; 8]%Z).
Proof. repeat split; reflexivity. Qed.

(** Called without [outdtype], the function asks the image for an
    attribute that it does not have, before anything is read or logged. *)
Example niftilist_mask_to_array_without_outdtype :
  mask.niftilist_mask_to_array (spec_world []) [ImgObj example_volume]
    (ImgObj example_single_voxel_mask) None
  = (Raise (AttributeError "'Nifti1Image' object has no attribute 'dtype'"), []).
Proof. reflexivity. Qed.

(** The values take the element type of the matrix: 300 is stored as 44
    in eight bits. *)
Example niftilist_mask_to_array_uint8 :
  outcome (mask.niftilist_mask_to_array (spec_world [])
             [ImgObj (image_of [2; 2; 1] [5; 6; 7; 300]%Z)]
             (ImgObj example_single_voxel_mask) (Some np.uint8))
  = Ok (np.array [1; 1] [44]%Z, [[1]; [1]; [0]], [2; 2; 1]).
Proof. reflexivity. Qed.

(** With exactly one true voxel the call succeeds. *)
Example niftilist_mask_to_array_one_voxel :
  outcome (mask.niftilist_mask_to_array (spec_world [])
             [ImgObj example_volume; ImgObj (image_of [2; 2; 1] [1; 2; 3; 4]%Z)]
             (ImgObj (image_of [2; 2; 1] [0; 0; 0; 1]%Z)) (Some np.int64))
  = Ok (np.array [2; 1] [8; 4]%Z, [[1]; [1]; [0]], [2; 2; 1]).
Proof. reflexivity. Qed.

(** ** Exception policy (C5) *)

(** C5 does not hold as stated: [apply_mask] turns a FileNotFound of
    [check_img] into NiftiFilesNotCompatible, and [union_mask] turns the
    NiftiFilesNotCompatible of the compatibility check into ValueError. *)
Lemma apply_mask_union_mask_replace_exception :
  check_img (spec_world []) (Path "missing.nii") false = Raise (FileNotFound "missing.nii")
  ∧ outcome (mask.apply_mask (spec_world []) (Path "missing.nii") (ImgObj example_mask))
    = Raise (NiftiFilesNotCompatible "missing.nii" "<Nifti1Image>")
  ∧ check_img_compatibility (spec_world []) (ImgObj example_mask)
      (ImgObj example_other_shape) false
    = Raise (NiftiFilesNotCompatible "<Nifti1Image>" "<Nifti1Image>")
  ∧ outcome (mask.union_mask (spec_world []) [ImgObj example_mask; ImgObj example_other_shape])
    = Raise (ValueError "Error joining mask <Nifti1Image> and <Nifti1Image>.").
Proof. repeat split; reflexivity. Qed.

(** C5, amended.  In [get_img_data], [load_mask], [load_mask_data],
    [binarise] and the loop of [niftilist_mask_to_array] (called with an
    element type for its output) an exception of the underlying call is
    logged and re-raised unchanged.  [apply_mask]
    logs and raises NiftiFilesNotCompatible for every exception of its
    first block (resolving both images, compatibility check) and
    ValueError for every exception of loading the mask in its second
    block; [union_mask] logs and raises ValueError for every exception
    inside its loop. *)
Theorem exceptions_logged_then_reraised_or_replaced (w : World) :
  (∀ image copy e,
     check_img w image false = Raise e →
     read.get_img_data w image copy
     = (Raise e, [EvLog ("Error when reading file " +:+ repr_imgs w image +:+ ".")]))
  ∧ (∀ image allow_empty e,
       check_img w image true = Raise e →
       mask.load_mask w image allow_empty
       = (Raise e, [EvLog ("Error reading mask " +:+ repr_imgs w image +:+ ".")]))
  ∧ (∀ image allow_empty e t,
       mask.load_mask w image allow_empty = (Raise e, t) →
       mask.load_mask_data w image allow_empty
       = (Raise e, t ++ [EvLog ("Error loading mask " +:+ repr_imgs w image +:+ ".")]))
  ∧ (∀ image threshold e,
       check_img w image false = Raise e →
       mask.binarise w image threshold
       = (Raise e, [EvLog ("Error creating mask from file " +:+ repr_imgs w image +:+ ".")]))
  ∧ (∀ f rest mask_file dt img0 mask t_mask e t img',
       accepts_loaded w →
       check_img w f false = Ok img0 →
       mask.load_mask w mask_file true = (Ok mask, t_mask) →
       mask.niftilist_mask_to_array_loop w mask_file dt (np.where_ (dataobj mask)) (f :: rest) 0
         (np.zeros [length (f :: rest); np.count_nonzero_object mask]) img0
       = ((Raise e, t), img') →
       mask.niftilist_mask_to_array w (f :: rest) mask_file (Some dt)
       = (Raise e, t_mask ++ EvGetData mask :: t ++ [EvLog (reading_msg w img')]))
  ∧ (∀ image mask_img e,
       outcome (resolve_pair w image mask_img false) = Raise e →
       mask.apply_mask w image mask_img
       = (Raise (not_compatible w image mask_img),
          [EvLog (not_compatible_msg w image mask_img)]))
  ∧ (∀ image mask_img img m0 e t,
       resolve_pair w image mask_img false = (Ok (img, m0), []) →
       mask.load_mask w mask_img true = (Raise e, t) →
       mask.apply_mask w image mask_img
       = (Raise (ValueError (applying_msg w mask_img img)),
          EvGetData img :: t ++ [EvLog (applying_msg w mask_img img)]))
  ∧ (∀ f rest firstimg e,
       check_img w f false = Ok firstimg →
       outcome (mask.union_mask w (f :: rest)) = Raise e →
       ∃ roiimg t,
         e = ValueError (joining_msg w firstimg roiimg)
         ∧ events (mask.union_mask w (f :: rest))
           = EvGetData firstimg :: t ++ [EvLog (joining_msg w firstimg roiimg)]).
Proof.
  repeat split.
  - apply get_img_data_reraises.
  - apply load_mask_reraises.
  - apply load_mask_data_reraises.
  - apply binarise_reraises.
  - intros f rest mask_file dt img0 mask t_mask e t img' Hw Hf Hmask Hloop.
    rewrite (niftilist_unfold w f rest mask_file dt img0 mask t_mask) by done.
    by rewrite Hloop.
  - apply apply_mask_phase1_raises.
  - apply apply_mask_phase2_raises.
  - apply union_mask_raises_ValueError.
Qed.

(** Each case above occurs. *)
Example get_img_data_missing_file :
  read.get_img_data (spec_world []) (Path "missing.nii") true
  = (Raise (FileNotFound "missing.nii"), [EvLog "Error when reading file missing.nii."]).
Proof. reflexivity. Qed.

Example load_mask_missing_file :
  mask.load_mask_data (spec_world []) (Path "missing.nii") true
  = (Raise (FileNotFound "missing.nii"),
     [EvLog "Error reading mask missing.nii."; EvLog "Error loading mask missing.nii."]).
Proof. reflexivity. Qed.

Example niftilist_missing_second_file :
  outcome (mask.niftilist_mask_to_array (spec_world [])
             [ImgObj example_volume; Path "missing.nii"]
             (ImgObj (image_of [2; 2; 1] [0; 0; 0; 1]%Z)) (Some np.int64))
  = Raise (FileNotFound "missing.nii")
  ∧ last (events (mask.niftilist_mask_to_array (spec_world [])
                    [ImgObj example_volume; Path "missing.nii"]
                    (ImgObj (image_of [2; 2; 1] [0; 0; 0; 1]%Z)) (Some np.int64)))
    = Some (EvLog "Error when reading file <Nifti1Image>.").
Proof. split; reflexivity. Qed.

Example apply_mask_invalid_mask :
  outcome (mask.apply_mask (spec_world []) (ImgObj example_volume)
             (ImgObj (image_of [2; 2; 1] [1; 2; 3; 4]%Z)))
  = Raise (ValueError "Error applying mask <Nifti1Image> to <Nifti1Image>.").
Proof. reflexivity. Qed.

Example binarise_missing_file :
  mask.binarise (spec_world []) (Path "missing.nii") 0
  = (Raise (FileNotFound "missing.nii"),
     [EvLog "Error creating mask from file missing.nii."]).
Proof. reflexivity. Qed.

Example binarise_example :
  outcome (mask.binarise (spec_world []) (ImgObj example_volume) 6)
  = Ok (np.array [2; 2; 1] [0; 0; 1; 1]%Z).
Proof. reflexivity. Qed.

Example union_mask_example :
  outcome (mask.union_mask (spec_world [])
             [ImgObj example_mask; ImgObj (image_of [2; 2; 1] [0; 0; 0; 1]%Z);
              ImgObj (image_of [2; 2; 1] [3; 0; 0; 0]%Z)])
  = Ok (np.array [2; 2; 1] [1; 1; 0; 1]%Z).
Proof. reflexivity. Qed.

(** The sums have the element type of the first file: two 8-bit files
    that both hold 128 at a voxel leave 0 there. *)
Example union_mask_wraps_around :
  outcome (mask.union_mask typed_world
             [ImgObj (image_of [2] [128; 1]%Z); ImgObj (image_of [2] [128; 0]%Z)])
  = Ok (np.array [2] [0; 1]%Z).
Proof. reflexivity. Qed.

(** A signed file cannot be added into an unsigned one: the TypeError
    of numpy comes out as the ValueError of the handler. *)
Example union_mask_signed_into_unsigned :
  outcome (mask.union_mask typed_world
             [ImgObj (image_of [2] [1; 0]%Z);
              ImgObj (Nifti1Image (np.array [2] [0; 1]%Z) identity_affine "int16")])
  = Raise (ValueError "Error joining mask <Nifti1Image> and <Nifti1Image>.").
Proof. reflexivity. Qed.

(** ** Order of the compatibility check and the data reads (C6) *)

(** C6 does not hold as stated.  [niftilist_mask_to_array] has read the
    mask's voxel data (three times) when the check of the first file
    raises; and [apply_mask_4d] compares the first three dimensions only,
    so a 4-D series and a 3-D mask, whose shapes differ, raise nothing. *)
Lemma mask_data_read_before_compatibility_check :
  img_shape example_other_shape ≠ img_shape example_mask
  ∧ mask.niftilist_mask_to_array (spec_world []) [ImgObj example_other_shape]
      (ImgObj example_mask) (Some np.int64)
    = (Raise (NiftiFilesNotCompatible "<Nifti1Image>" "<Nifti1Image>"),
       [EvGetData example_mask; EvGetData example_mask; EvGetData example_mask;
        EvLog "Error when reading file <Nifti1Image>."])
  ∧ img_shape example_series ≠ img_shape example_mask
  ∧ outcome (mask.apply_mask_4d (spec_world []) (ImgObj example_series) (ImgObj example_mask))
    = Ok (np.array [2; 2] [3; 4; 7; 8]%Z, [[0; 1]; [1; 1]; [0; 0]], [2; 2; 1; 2]).
Proof. repeat split; (discriminate || reflexivity). Qed.

Lemma resolve_pair_shape_mismatch (w : World) (image mask_img : image_like) (img m : Img)
    (only_check_3d : bool) :
  accepts_loaded w →
  check_img w image false = Ok img →
  check_img w mask_img false = Ok m →
  have_same_shape img m only_check_3d = false →
  ∃ e, outcome (resolve_pair w image mask_img only_check_3d) = Raise e.
Proof.
  intros Hw Hi Hm Hsh. unfold resolve_pair. rewrite Hi, Hm. simpl.
  rewrite check_img_compatibility_shape by done. simpl. eauto.
Qed.

(** C6, amended.  When the shapes of the two images differ, [apply_mask]
    raises the incompatibility error and has read no voxel data (its
    trace is the log entry alone); so does [apply_mask_4d] when the
    first three dimensions differ.  [niftilist_mask_to_array] (called
    with an element type for its output) reads the mask's voxel data
    before its loop; when the loop reaches a file whose
    shape differs from the mask's, it raises the incompatibility error
    and the trace holds the mask load, the reads of the earlier files
    and the log entry, with no read of that file's voxel data. *)
Theorem incompatibility_raised_before_data_read (w : World) :
  accepts_loaded w →
  (∀ image mask_img img m,
     check_img w image false = Ok img →
     check_img w mask_img false = Ok m →
     img_shape img ≠ img_shape m →
     mask.apply_mask w image mask_img
     = (Raise (not_compatible w image mask_img),
        [EvLog (not_compatible_msg w image mask_img)]))
  ∧ (∀ image mask_img img m,
       check_img w image false = Ok img →
       check_img w mask_img false = Ok m →
       take 3 (img_shape img) ≠ take 3 (img_shape m) →
       mask.apply_mask_4d w image mask_img
       = (Raise (not_compatible w image mask_img),
          [EvLog (not_compatible_msg w image mask_img)]))
  ∧ (∀ pre f post mask_file dt mask m0 img img0 t_mask outmat' t_pre img_pre,
       check_img w (hd f pre) false = Ok img0 →
       mask.load_mask w mask_file true = (Ok mask, t_mask) →
       check_img w mask_file false = Ok m0 →
       mask.niftilist_mask_to_array_loop w mask_file dt (np.where_ (dataobj mask)) pre 0
         (np.zeros [length (pre ++ f :: post); np.count_nonzero_object mask]) img0
       = ((Ok outmat', t_pre), img_pre) →
       check_img w f false = Ok img →
       img_shape img ≠ img_shape m0 →
       mask.niftilist_mask_to_array w (pre ++ f :: post) mask_file (Some dt)
       = (Raise (NiftiFilesNotCompatible (repr_imgs w (ImgObj img)) (repr_imgs w mask_file)),
          t_mask ++ EvGetData mask :: t_pre ++ [EvLog (reading_msg w img)])
       ∧ EvGetData img ∉ t_pre).
Proof.
  intros Hw. split; [|split].
  - intros image mask_img img m Hi Hm Hsh.
    destruct (resolve_pair_shape_mismatch w image mask_img img m false) as [e He];
      try done.
    { unfold have_same_shape. by rewrite bool_decide_false. }
    by eapply apply_mask_phase1_raises.
  - intros image mask_img img m Hi Hm Hsh.
    destruct (resolve_pair_shape_mismatch w image mask_img img m true) as [e He];
      try done.
    { unfold have_same_shape. by rewrite bool_decide_false. }
    by eapply apply_mask_4d_phase1_raises.
  - intros pre f post mask_file dt mask m0 img img0 t_mask outmat' t_pre img_pre
      Hhd Hmask Hm0 Hpre Hf Hsh.
    pose proof (are_compatible_imgs_shape w img m0 mask_file Hw Hm0 Hsh) as Hc.
    split.
    + assert (∃ f0 rest, pre ++ f :: post = f0 :: rest ∧ hd f pre = f0) as (f0 & rest & Heq & Hf0).
      { destruct pre as [|p pre']; simpl; eauto. }
      rewrite Hf0 in Hhd.
      rewrite Heq in *.
      rewrite (niftilist_unfold w f0 rest mask_file dt img0 mask t_mask) by done.
      rewrite <- Heq.
      rewrite (niftilist_loop_app w mask_file dt _ pre (f :: post) 0 _ outmat' img0 img_pre
                 t_pre)
        by (by rewrite Heq).
      rewrite (niftilist_loop_incompatible w mask_file dt _ f post _ outmat' img_pre img)
        by done.
      by rewrite app_nil_r.
    + intros Hin.
      destruct (niftilist_loop_reads_compatible w mask_file dt _ pre 0 _ outmat' img0 img_pre
                  t_pre Hw Hpre _ Hin) as (img1 & [= <-] & Hc1).
      congruence.
Qed.

Lemma accepts_loaded_spec_world (files : list (string * Img)) :
  accepts_loaded (spec_world files).
Proof. intros img. reflexivity. Qed.

(** The three cases on concrete images: the second file of the list has
    another shape than the mask. *)
Lemma incompatibility_raised_before_data_read_witness :
  mask.apply_mask (spec_world []) (ImgObj example_other_shape) (ImgObj example_mask)
  = (Raise (NiftiFilesNotCompatible "<Nifti1Image>" "<Nifti1Image>"),
     [EvLog "Images <Nifti1Image> and <Nifti1Image> are not compatible."])
  ∧ mask.apply_mask_4d (spec_world []) (ImgObj example_other_shape) (ImgObj example_mask)
    = (Raise (NiftiFilesNotCompatible "<Nifti1Image>" "<Nifti1Image>"),
       [EvLog "Images <Nifti1Image> and <Nifti1Image> are not compatible."])
  ∧ mask.niftilist_mask_to_array (spec_world [])
      ([ImgObj example_volume] ++ ImgObj example_other_shape :: [])
      (ImgObj example_single_voxel_mask) (Some np.int64)
    = (Raise (NiftiFilesNotCompatible "<Nifti1Image>" "<Nifti1Image>"),
       [EvGetData example_single_voxel_mask; EvGetData example_single_voxel_mask]
       ++ EvGetData example_single_voxel_mask :: [EvGetData example_volume]
       ++ [EvLog "Error when reading file <Nifti1Image>."])
    ∧ EvGetData example_other_shape ∉ [EvGetData example_volume].
Proof.
  destruct (incompatibility_raised_before_data_read (spec_world [])
              (accepts_loaded_spec_world [])) as (Ha & Hb & Hc).
  split; [|split].
  - exact (Ha (ImgObj example_other_shape) (ImgObj example_mask) example_other_shape
             example_mask eq_refl eq_refl ltac:(discriminate)).
  - exact (Hb (ImgObj example_other_shape) (ImgObj example_mask) example_other_shape
             example_mask eq_refl eq_refl ltac:(discriminate)).
  - exact (Hc [ImgObj example_volume] (ImgObj example_other_shape) []
             (ImgObj example_single_voxel_mask) np.int64
             example_single_voxel_mask example_single_voxel_mask example_other_shape example_volume
             [EvGetData example_single_voxel_mask; EvGetData example_single_voxel_mask]
             (np.array [2; 1] [8; 0]%Z) [EvGetData example_volume] example_volume
             eq_refl eq_refl eq_refl eq_refl eq_refl ltac:(discriminate)).
Defined.

(** ** Strings *)

Lemma replace_from_skip (old new : string) (n : nat) (s : string) :
  str.replace_from old new n s = str.replace_from old new 0 (slice_from s n).
Proof.
  revert n. induction s as [|c s IH]; intros [|n]; try reflexivity.
  simpl. apply IH.
Qed.

Lemma replace_from_absent (old : string) (s : string) :
  contains s old = false → str.replace_from old "" 0 s = s.
Proof.
  induction s as [|c s IH]; [done|].
  cbn [contains]. intros [Hp Hc]%orb_false_elim.
  cbn [str.replace_from]. rewrite Hp. f_equal. by apply IH.
Qed.

Lemma prefix_nonempty (old s : string) :
  old ≠ "" → String.prefix old s = true →
  ∃ c s', s = String c s' ∧ slice_from s (String.length old) = slice_from s' (String.length old - 1).
Proof.
  intros Hold Hp. destruct old as [|a old]; [done|].
  destruct s as [|c s']; [done|]. exists c, s'. split; [done|].
  simpl. by rewrite Nat.sub_0_r.
Qed.

(** Removing a prefix that occurs at the start of the name and nowhere
    after it leaves the rest of the name. *)
Lemma replace_leading_prefix (name prefix : string) :
  prefix ≠ "" →
  str.startswith name prefix = true →
  contains (slice_from name (String.length prefix)) prefix = false →
  str.replace name prefix "" = slice_from name (String.length prefix).
Proof.
  intros Hne Hp Hc. unfold str.replace, str.startswith in *.
  destruct prefix as [|a p] eqn:Hprefix; [done|]. rewrite <- Hprefix in *.
  destruct (prefix_nonempty prefix name) as (c & s' & -> & Hs); [by subst|done|].
  cbn [str.replace_from]. rewrite Hp. cbn [String.append].
  rewrite replace_from_skip, <- Hs. by apply replace_from_absent.
Qed.

(** ** rcfile.get_environment *)

Lemma dict_of_pairs_snoc {V} (l : list (string * V)) (k : string) (v : V) :
  dict_of_pairs (l ++ [(k, v)]) = <[k := v]> (dict_of_pairs l).
Proof. unfold dict_of_pairs. by rewrite foldl_app. Qed.

Lemma env_prefix_nonempty (appname : string) : env_prefix appname ≠ "".
Proof.
  unfold env_prefix. induction appname; simpl; discriminate.
Qed.

Lemma snoc_eq_middle {A} (l l1 l2 : list A) (x y : A) :
  l ++ [x] = l1 ++ y :: l2 →
  (l2 = [] ∧ l = l1 ∧ x = y) ∨ (∃ l2', l2 = l2' ++ [x] ∧ l = l1 ++ y :: l2').
Proof.
  destruct l2 as [|z l2 _] using rev_ind.
  - intros H. apply app_inj_tail in H as [-> ->]. by left.
  - intros H. right. exists l2.
    change (l ++ [x] = l1 ++ (y :: l2 ++ [z])) in H.
    rewrite app_comm_cons, app_assoc in H. apply app_inj_tail in H as [-> ->]. done.
Qed.

Lemma get_environment_last_wins (prefix : string) (environ : list (string * string))
    (key : string → string) (k : string) (x : pyval) :
  dict_of_pairs (map (λ kv, (key kv.1, VStr kv.2)) (filter (env_kept prefix) environ)) !! k
  = Some x
  ↔ ∃ l1 name v l2,
      x = VStr v
      ∧ environ = l1 ++ (name, v) :: l2
      ∧ str.startswith name prefix = true
      ∧ key name = k
      ∧ ∀ name' v', (name', v') ∈ l2 → str.startswith name' prefix = true → key name' ≠ k.
Proof.
  revert x. induction environ as [|[n v0] l IH] using rev_ind; intros x.
  - cbn. rewrite lookup_empty. split; [done|].
    intros (l1 & name & v & l2 & _ & H & _). by destruct l1.
  - rewrite filter_app, map_app.
    destruct (decide (env_kept prefix (n, v0) ∧ key n = k)) as [[Hkept <-]|Hnot].
    + rewrite filter_cons_True, filter_nil by done. cbn [map].
      rewrite dict_of_pairs_snoc. cbn [fst snd]. rewrite lookup_insert_eq. split.
      * intros [= <-]. exists l, n, v0, []. repeat split; try done.
        -- by apply Is_true_eq_true.
        -- intros ?? Hin. by apply elem_of_nil in Hin.
      * intros (l1 & name & v & l2 & -> & Heq & Hp & Hk & Hlast).
        apply snoc_eq_middle in Heq as [(-> & -> & [= -> ->])|(l2' & -> & ->)]; [done|].
        exfalso. apply (Hlast n v0); [|by apply Is_true_eq_true|done].
        apply elem_of_app. right. by left.
    + assert (dict_of_pairs
                (map (λ kv, (key kv.1, VStr kv.2)) (filter (env_kept prefix) l) ++
                 map (λ kv, (key kv.1, VStr kv.2)) (filter (env_kept prefix) [(n, v0)])) !! k
              = dict_of_pairs
                  (map (λ kv, (key kv.1, VStr kv.2)) (filter (env_kept prefix) l)) !! k)
        as ->.
      { destruct (decide (env_kept prefix (n, v0))) as [Hkept|Hkept].
        - rewrite filter_cons_True, filter_nil by done. cbn [map].
          rewrite dict_of_pairs_snoc. cbn [fst snd].
          apply lookup_insert_ne. intros Hk. by apply Hnot.
        - rewrite filter_cons_False, filter_nil by done. cbn [map].
          by rewrite app_nil_r. }
      rewrite IH. split.
      * intros (l1 & name & v & l2 & -> & -> & Hp & Hk & Hlast).
        exists l1, name, v, (l2 ++ [(n, v0)]). repeat split; try done.
        -- by rewrite <- app_assoc.
        -- intros name' v' [Hin|Hin]%elem_of_app Hp'; [by eapply Hlast|].
           apply list_elem_of_singleton in Hin as [= -> ->].
           intros Hk'. apply Hnot. split; [by apply Is_true_true|done].
      * intros (l1 & name & v & l2 & -> & Heq & Hp & Hk & Hlast).
        apply snoc_eq_middle in Heq as [(-> & -> & [= -> ->])|(l2' & -> & ->)].
        -- exfalso. apply Hnot. split; [by apply Is_true_true|done].
        -- exists l1, name, v, l2'. repeat split; try done.
           intros name' v' Hin. apply (Hlast name' v').
           apply elem_of_app. by left.
Qed.

Lemma derived_key_of_code (prefix name v : string) (environ : list (string * string)) :
  prefix ≠ "" →
  prefix_only_leading prefix environ = true →
  (name, v) ∈ environ →
  str.startswith name prefix = true →
  str.lower (str.replace name prefix "") = derived_key prefix name.
Proof.
  intros Hne Hall Hin Hp. unfold derived_key. f_equal.
  apply replace_leading_prefix; [done|done|].
  unfold prefix_only_leading in Hall. rewrite forallb_forall in Hall.
  apply list_elem_of_In, Hall in Hin. cbn [fst] in Hin. rewrite Hp in Hin.
  by apply negb_true_iff in Hin.
Qed.

(** C7 does not hold as stated: two variables whose names differ only
    in case after the prefix get one key, and the mapping keeps the
    value of the later one. *)
Lemma get_environment_case_collision :
  str.startswith "APP_X" (env_prefix "app") = true
  ∧ derived_key (env_prefix "app") "APP_X" = "x"
  ∧ rcfile.get_environment
      {| os_environ := [("APP_X", "1"); ("APP_x", "2")]; gethostname := "host";
         home_dir := "/home/user"; op_join := λ _, VNone; config_read := λ _, ∅ |}
      "app" !! "x"
    = Some (VStr "2").
Proof. repeat split; reflexivity. Qed.

(** C7, amended.  For an environment in which no variable that starts
    with the prefix [APPNAME_] contains the prefix a second time: a key
    [k] is in the mapping with value [x] exactly when [x] is the
    unmodified value of a variable whose name starts with the prefix and
    whose name, without the leading prefix and lower-cased, is [k], and
    no later variable of the environment gives the same key. *)
Theorem get_environment_derived_keys (s : Sys) (appname : string) (k : string) (x : pyval) :
  prefix_only_leading (env_prefix appname) (os_environ s) = true →
  rcfile.get_environment s appname !! k = Some x
  ↔ ∃ l1 name v l2,
      x = VStr v
      ∧ os_environ s = l1 ++ (name, v) :: l2
      ∧ str.startswith name (env_prefix appname) = true
      ∧ derived_key (env_prefix appname) name = k
      ∧ ∀ name' v', (name', v') ∈ l2 →
          str.startswith name' (env_prefix appname) = true →
          derived_key (env_prefix appname) name' ≠ k.
Proof.
  intros Hall. unfold rcfile.get_environment. fold (env_prefix appname).
  pose proof (env_prefix_nonempty appname) as Hne.
  rewrite (get_environment_last_wins (env_prefix appname) (os_environ s)
             (λ n, str.lower (str.replace n (env_prefix appname) ""))).
  split; intros (l1 & name & v & l2 & -> & Heq & Hp & Hk & Hlast);
    exists l1, name, v, l2; repeat split; try done.
  - rewrite <- Hk. symmetry. eapply derived_key_of_code; try done.
    rewrite Heq. apply elem_of_app. right. by left.
  - intros name' v' Hin Hp'.
    rewrite <- (derived_key_of_code _ _ v' (os_environ s)); try done.
    + by eapply Hlast.
    + rewrite Heq. apply elem_of_app. right. by right.
  - rewrite <- Hk. eapply derived_key_of_code; try done.
    rewrite Heq. apply elem_of_app. right. by left.
  - intros name' v' Hin Hp'.
    rewrite (derived_key_of_code _ _ v' (os_environ s)); try done.
    + by eapply Hlast.
    + rewrite Heq. apply elem_of_app. right. by right.
Qed.

(** The variable behind the key [verbose] of [example_sys]. *)
Lemma get_environment_derived_keys_witness :
  ∃ l1 name v l2,
    VStr "yes" = VStr v
    ∧ os_environ example_sys = l1 ++ (name, v) :: l2
    ∧ str.startswith name (env_prefix "app") = true
    ∧ derived_key (env_prefix "app") name = "verbose"
    ∧ ∀ name' v', (name', v') ∈ l2 →
        str.startswith name' (env_prefix "app") = true →
        derived_key (env_prefix "app") name' ≠ "verbose".
Proof.
  apply (get_environment_derived_keys example_sys "app" "verbose" (VStr "yes")).
  - reflexivity.
  - reflexivity.
Defined.

(** The slip the amended claim leaves aside: [replace] removes every
    occurrence of the prefix, not only the leading one. *)
Example get_environment_inner_prefix :
  map_to_list (rcfile.get_environment
     {| os_environ := [("APP_APP_NAME", "boyle")]; gethostname := "host";
        home_dir := "/home/user"; op_join := λ _, VNone; config_read := λ _, ∅ |} "app")
  = [("name", VStr "boyle")]
  ∧ derived_key (env_prefix "app") "APP_APP_NAME" = "app_name".
Proof. split; reflexivity. Qed.

Example get_environment_example :
  map_to_list (rcfile.get_environment example_sys "app")
  = [("verbose", VStr "yes"); ("path", VStr "/data")].
Proof. reflexivity. Qed.

(** ** rcfile.merge *)

Lemma merge_lookup_Some (d1 d2 : gmap string pyval) (k : string) (v : pyval) :
  rcfile.merge d1 d2 !! k = Some v
  ↔ (k ∈ dom d1 ∨ k ∈ dom d2) ∧ v = py_or (py_get d1 k) (py_get d2 k).
Proof.
  unfold rcfile.merge. rewrite lookup_set_to_map by (by intros ???? [= ->]).
  split.
  - intros (y & Hy & [= -> <-]). apply elem_of_union in Hy. tauto.
  - intros [Hk ->]. exists k. split; [|done]. apply elem_of_union. tauto.
Qed.

Lemma merge_lookup_None (d1 d2 : gmap string pyval) (k : string) :
  rcfile.merge d1 d2 !! k = None ↔ d1 !! k = None ∧ d2 !! k = None.
Proof.
  rewrite <- !not_elem_of_dom. split.
  - intros H. split; intros Hk; apply H, elem_of_dom;
      exists (py_or (py_get d1 k) (py_get d2 k)); apply merge_lookup_Some; auto.
  - intros [H1 H2] [v Hv]%elem_of_dom. apply merge_lookup_Some in Hv. tauto.
Qed.

Lemma py_get_merge (d1 d2 : gmap string pyval) (k : string) :
  py_get (rcfile.merge d1 d2) k = py_or (py_get d1 k) (py_get d2 k).
Proof.
  unfold py_get at 1.
  destruct (rcfile.merge d1 d2 !! k) as [v|] eqn:H.
  - apply merge_lookup_Some in H as [_ ->]. done.
  - apply merge_lookup_None in H as [H1 H2]. unfold py_get. by rewrite H1, H2.
Qed.

Lemma merge_empty_iff (d1 d2 : gmap string pyval) :
  rcfile.merge d1 d2 = ∅ ↔ d1 = ∅ ∧ d2 = ∅.
Proof.
  rewrite !map_empty. setoid_rewrite merge_lookup_None. split.
  - intros H. split; intros i; apply (H i).
  - intros [H1 H2] i. split; [apply H1|apply H2].
Qed.

(** ** Dictionaries as item lists *)

Lemma dict_view_lookup (d : pydict) (k : string) : dict_view d !! k = dict_get d k.
Proof.
  unfold dict_view. induction d as [|[k' v] d IH]; simpl; [apply lookup_empty|].
  rewrite lookup_insert. destruct (decide (k' = k)); [done|]. exact IH.
Qed.

Lemma dict_view_empty_iff (d : pydict) : dict_view d = ∅ ↔ d = [].
Proof.
  split; [|by intros ->]. destruct d as [|[k v] d]; [done|].
  intros H. apply (f_equal (λ m, m !! k)) in H.
  rewrite dict_view_lookup, lookup_empty in H. simpl in H.
  by rewrite decide_True in H.
Qed.

(** ** Keys and their dashes *)





(** ** rcfile.rcfile *)

Lemma py_get_section_dict (m : gmap string string) (k : string) :
  py_get (rcfile.section_dict m) k = section_value (Some m) k.
Proof.
  unfold py_get, rcfile.section_dict, section_value. rewrite lookup_fmap.
  by destruct (m !! k).
Qed.

Lemma py_get_config_for (s : Sys) (appname : string) (section : option string)
    (args : pydict) (k : string) :
  py_get (config_for s appname section args) k
  = py_or (section_value (parser_for s appname args
                            !! (default appname section +:+ ":" +:+ gethostname s)) k)
          (section_value (parser_for s appname args !! default appname section) k).
Proof.
  unfold config_for, rcfile.get_config. fold (parser_for s appname args).
  set (parser := parser_for s appname args).
  assert (py_get (match parser !! default appname section with
                  | Some items => rcfile.section_dict items
                  | None => ∅
                  end) k
          = section_value (parser !! default appname section) k) as Hgen.
  { destruct (parser !! default appname section); [apply py_get_section_dict|done]. }
  destruct (parser !! (default appname section +:+ ":" +:+ gethostname s)) as [items|].
  - by rewrite py_get_merge, py_get_section_dict, Hgen.
  - by rewrite Hgen.
Qed.

(** What a call of [rcfile] returns once the loop over the keys has
    ended without an exception (or has not been asked for): [args'] is
    the dict as the loop left it. *)
Lemma rcfile_unfold (s : Sys) (appname : string) (section : option string)
    (args args' : PyDictObject) (strip_dashes : bool) :
  (if strip_dashes
   then rcfile.strip_dashes_loop (ma_used args) (ma_used args) 0 args = (None, args')
   else args' = args) →
  rcfile.rcfile s appname section args strip_dashes
  = (if bool_decide (merged_sources s appname section (dict_items args') = ∅)
     then Raise (not_found appname)
     else Ok (merged_sources s appname section (dict_items args')),
     args').
Proof.
  intros Hloop. unfold rcfile.rcfile.
  assert ((if strip_dashes
           then rcfile.strip_dashes_loop (ma_used args) (ma_used args) 0 args
           else (None, args)) = (None, args')) as ->.
  { destruct strip_dashes; [done|by subst]. }
  unfold merged_sources, config_for, not_found.
  destruct section; cbn [default from_option id]; by case_bool_decide.
Qed.


Lemma rcfile_Ok_inv (s : Sys) (appname : string) (section : option string)
    (args args' : PyDictObject) (strip_dashes : bool) (settings : gmap string pyval) :
  rcfile.rcfile s appname section args strip_dashes = (Ok settings, args') →
  settings = merged_sources s appname section (dict_items args').
Proof.
  unfold rcfile.rcfile.
  destruct (if strip_dashes then _ else _) as [[e|] args1]; [discriminate|].
  unfold merged_sources, config_for.
  destruct section; cbn [default from_option id];
    (case_bool_decide; [discriminate|]); by intros [= <- <-].
Qed.

Lemma py_or_cascade (a c e : pyval) :
  py_or (py_or a c) e = if truthy a then a else if truthy c then c else e.
Proof.
  unfold py_or. destruct (truthy a) eqn:Ha; [by rewrite Ha|done].
Qed.

(** C3.  Every value of the settings [rcfile] returns is chosen by
    precedence on truthiness: the argument's value when it is truthy;
    otherwise the config-file value when truthy, where a truthy value of
    the host-specific section goes before that of the generic section;
    otherwise the value from the environment.  ([args'] is the caller's
    argument dict as the call leaves it; a source without the key gives
    None.) *)
Theorem rcfile_value_precedence (s : Sys) (appname : string) (section : option string)
    (args args' : PyDictObject) (strip_dashes : bool) (settings : gmap string pyval)
    (k : string) (v : pyval) :
  rcfile.rcfile s appname section args strip_dashes = (Ok settings, args') →
  settings !! k = Some v →
  let arg := default VNone (dict_get (dict_items args') k) in
  let sec := default appname section in
  let generic := section_value (parser_for s appname (dict_items args') !! sec) k in
  let host := section_value (parser_for s appname (dict_items args')
                               !! (sec +:+ ":" +:+ gethostname s)) k in
  let config := if truthy host then host else generic in
  let env := py_get (rcfile.get_environment s appname) k in
  v = if truthy arg then arg else if truthy config then config else env.
Proof.
  intros Hrc Hk. apply rcfile_Ok_inv in Hrc as ->.
  unfold merged_sources in Hk. apply merge_lookup_Some in Hk as [_ ->].
  rewrite py_get_merge, py_get_config_for. cbv zeta.
  unfold py_get at 1. rewrite dict_view_lookup. apply py_or_cascade.
Qed.

(** A dict of three keys is one that the loop gets through: the table
    is rebuilt when the third key is put back, and the iterator finds
    nothing behind it. *)
Example rcfile_example :
  rcfile.rcfile example_cfg_sys "app" None (dict_of_items example_args) true
  = (Ok (merged_sources example_cfg_sys "app" None example_args_stripped),
     example_args_after)
  ∧ dict_items example_args_after = example_args_stripped
  ∧ merged_sources example_cfg_sys "app" None example_args_stripped
    = {[ "a" := VStr "hostval"; "b" := VNone; "c" := VNone; "x" := VStr "1" ]}.
Proof. repeat split; by vm_compute. Qed.

(** The key [a] of [rcfile_example]: the argument is the empty string,
    the host section wins over the generic one. *)
Lemma rcfile_value_precedence_witness :
  let arg := default VNone (dict_get (dict_items example_args_after) "a") in
  let generic := section_value (parser_for example_cfg_sys "app" (dict_items example_args_after)
                                  !! "app") "a" in
  let host := section_value (parser_for example_cfg_sys "app" (dict_items example_args_after)
                               !! "app:host") "a" in
  let config := if truthy host then host else generic in
  let env := py_get (rcfile.get_environment example_cfg_sys "app") "a" in
  VStr "hostval" = if truthy arg then arg else if truthy config then config else env.
Proof.
  apply (rcfile_value_precedence example_cfg_sys "app" None (dict_of_items example_args)
           example_args_after true
           (merged_sources example_cfg_sys "app" None example_args_stripped)
           "a" (VStr "hostval")).
  - by vm_compute.
  - by vm_compute.
Defined.

(** C8.  Without the loop that strips the dashes, [rcfile] raises the
    not-found error (IOError) when the merge of arguments, config
    section and environment is empty, and returns the merge when it is
    not; the merge is empty exactly when all three sources are.  With
    the loop, at the arguments [{'--flag': None}] and nothing in the
    config files or the environment, the merge is not empty (with the
    key dashed or stripped) and the call raises RuntimeError where the
    claim promises the merge: the loop changes the dict it iterates,
    and the iterator finds the renamed key after it has given its one
    key. *)
Theorem rcfile_nonempty_merge_raises_RuntimeError :
  (∀ s appname section args,
     let r := rcfile.rcfile s appname section args false in
     let merged := merged_sources s appname section (dict_items args) in
     r.2 = args
     ∧ (merged = ∅ → r.1 = Raise (not_found appname))
     ∧ (merged ≠ ∅ → r.1 = Ok merged)
     ∧ (merged = ∅
        ↔ dict_items args = [] ∧ config_for s appname section (dict_items args) = ∅
          ∧ rcfile.get_environment s appname = ∅))
  ∧ (let args := dict_of_items [("--flag", VNone)] in
     rcfile.rcfile example_sys "other" None args true
     = (Raise (RuntimeError "dictionary keys changed during iteration"),
        {| dk_entries := [None; Some ("flag", VNone)]; dk_usable := 3 |})
     ∧ merged_sources example_sys "other" None [("--flag", VNone)] = {[ "--flag" := VNone ]}
     ∧ merged_sources example_sys "other" None [("flag", VNone)] = {[ "flag" := VNone ]}).
Proof.
  split.
  - intros s appname section args.
    rewrite (rcfile_unfold s appname section args args false) by done.
    cbn [fst snd]. split; [done|]. split; [|split].
    + intros H. by rewrite bool_decide_true.
    + intros H. by rewrite bool_decide_false.
    + unfold merged_sources. rewrite !merge_empty_iff, dict_view_empty_iff. tauto.
  - repeat split; by vm_compute.
Qed.

(** Nothing anywhere: the not-found error. *)
Example rcfile_nothing_found :
  rcfile.rcfile example_sys "other" None PyDict_New true
  = (Raise (IOError "Could not find any rcfile for application other."), PyDict_New).
Proof. by vm_compute. Qed.

(** An argument that is None still makes the merge non-empty. *)
Example rcfile_none_argument :
  (rcfile.rcfile example_sys "other" None (dict_of_items [("flag", VNone)]) false).1
  = Ok {[ "flag" := VNone ]}.
Proof. by vm_compute. Qed.

(** C10, at a dict of five dashed keys.  The call raises RuntimeError,
    and the dict it leaves still holds the key [-b] and has no key [b]:
    the table is full, so that it is rebuilt when the first key is put
    back; the entries move up, and the iterator, which goes by
    position, passes over the entry of [-b].  When [-b] is the only
    dashed key of the five, the dict holds after the call the items it
    held before. *)
Theorem rcfile_strip_dashes_leaves_dashed_key :
  (let args := dict_of_items [("-a", VInt 1); ("-b", VInt 2); ("-c", VInt 3);
                              ("-d", VInt 4); ("-e", VInt 5)] in
   let r := rcfile.rcfile example_sys "app" None args true in
   r.1 = Raise (RuntimeError "dictionary keys changed during iteration")
   ∧ dict_items r.2 = [("-b", VInt 2); ("c", VInt 3); ("d", VInt 4); ("e", VInt 5);
                       ("a", VInt 1)]
   ∧ dict_get (dict_items r.2) "-b" = Some (VInt 2)
   ∧ dict_get (dict_items r.2) "b" = None)
  ∧ (let items := [("a", VInt 1); ("-b", VInt 2); ("c", VInt 3); ("d", VInt 4);
                   ("e", VInt 5)] in
     let r := rcfile.rcfile example_sys "app" None (dict_of_items items) true in
     r.1 = Raise (RuntimeError "dictionary keys changed during iteration")
     ∧ dict_view (dict_items r.2) = dict_view items).
Proof. repeat split; by vm_compute. Qed.

(** Two keys that strip to one name: the second assignment makes the
    dict smaller, which the iterator refuses. *)
Example strip_dashes_collision :
  rcfile.rcfile example_sys "app" None (dict_of_items [("-a", VInt 1); ("--a", VInt 2)]) true
  = (Raise (RuntimeError "dictionary changed size during iteration"),
     {| dk_entries := [None; None; Some ("a", VInt 2)]; dk_usable := 2 |}).
Proof. by vm_compute. Qed.

(** ** commands.which *)

(** C9.  Whatever the program name, [which] raises NameError: it reads
    [sys.version_info], and the module binds no name [sys]; so it never
    returns a path. *)
Theorem which_raises_NameError (os : Os) (program : string) :
  commands.which os program = Raise (NameError "name 'sys' is not defined")
  ∧ ∀ path, commands.which os program ≠ Ok path.
Proof. split; [reflexivity|discriminate]. Qed.

(** The two helpers behind it work when called directly. *)
Example which_py2_finds_ls :
  commands.which_py2
    {| version_info := [2; 7]; shutil_which := λ _, None;
       isfile := λ p, String.eqb p "/usr/bin/ls"; access_X_OK := λ _, true;
       path_split := λ p, ("", p); path_join := λ a b, a +:+ "/" +:+ b;
       environ := [("PATH", "/bin:/usr/bin")]; pathsep := ":" |} "ls"
  = Ok (Some "/usr/bin/ls").
Proof. by vm_compute. Qed.

(** * Further properties of the code *)

(** ** load_mask, once more *)

Lemma distinct_values_as_ndarray_bool (a : np.ndarray) :
  distinct_values (as_ndarray_bool a) = set_map (D := gset Z) to_bool (distinct_values a).
Proof.
  unfold distinct_values, as_ndarray_bool. cbn [np.data].
  apply set_eq. intros x. rewrite elem_of_list_to_set, elem_of_map.
  setoid_rewrite elem_of_list_to_set. rewrite list_elem_of_fmap. done.
Qed.

Lemma legal_as_ndarray_bool (a : np.ndarray) (allow_empty : bool) :
  legal_mask_values (distinct_values a) allow_empty →
  legal_mask_values (distinct_values (as_ndarray_bool a)) allow_empty.
Proof.
  rewrite distinct_values_as_ndarray_bool. generalize (distinct_values a). intros X.
  intros [[Hsz Hv]|[Hsz Hin]].
  - apply size_1_elem_of in Hsz as [v Hv']. apply leibniz_equiv in Hv'. subst X.
    left. rewrite set_map_singleton_L, size_singleton. split; [done|].
    destruct Hv as [Hv|Hv]; [|by right]. left.
    rewrite not_elem_of_singleton in Hv. rewrite not_elem_of_singleton.
    unfold to_bool. destruct (Z.eqb_spec v 0); [congruence|done].
  - right.
    assert (size (X ∖ {[0%Z]}) = 1) as H1.
    { rewrite size_difference by (by apply singleton_subseteq_l).
      rewrite size_singleton. lia. }
    apply size_1_elem_of in H1 as [v Hv]. apply leibniz_equiv in Hv.
    assert (v ≠ 0%Z) as Hv0.
    { intros ->. assert (0%Z ∈ X ∖ {[0%Z]}) as H0 by (rewrite Hv; by apply elem_of_singleton).
      apply elem_of_difference in H0 as [_ H0]. by apply H0, elem_of_singleton. }
    assert (X = {[0%Z]} ∪ {[v]}) as ->.
    { rewrite <- Hv. apply union_difference_L. by apply singleton_subseteq_l. }
    rewrite set_map_union_L, !set_map_singleton_L.
    replace (to_bool 0) with 0%Z by done.
    replace (to_bool v) with 1%Z by (unfold to_bool; by destruct (Z.eqb_spec v 0)).
    split; [|apply elem_of_union; left; by apply elem_of_singleton].
    rewrite size_union, !size_singleton; [done|].
    intros x ->%elem_of_singleton Hx%elem_of_singleton. discriminate.
Qed.

Lemma as_ndarray_bool_idemp (a : np.ndarray) :
  as_ndarray_bool (as_ndarray_bool a) = as_ndarray_bool a.
Proof.
  unfold as_ndarray_bool. cbn [np.shape np.data]. f_equal.
  rewrite map_map. apply map_ext. intros x. by destruct (Z.eqb_spec x 0).
Qed.

(** What a successful [load_mask] has seen. *)
Lemma load_mask_Ok_inv (w : World) (image : image_like) (allow_empty : bool) (m : Img) :
  accepts_loaded w →
  outcome (mask.load_mask w image allow_empty) = Ok m →
  ∃ img, check_img w image true = Ok img
         ∧ legal_mask_values (distinct_values (dataobj img)) allow_empty
         ∧ m = boolean_image img.
Proof.
  intros Hw Hok.
  destruct (check_img w image true) as [img|e] eqn:Himg.
  - exists img. split; [done|].
    destruct (decide (legal_mask_values (distinct_values (dataobj img)) allow_empty))
      as [Hlegal|Hill].
    + split; [done|].
      rewrite (load_mask_legal w image allow_empty img) in Hok by done.
      simpl in Hok. congruence.
    + destruct (load_mask_illegal w image allow_empty img Himg Hill) as [msg Hmsg].
      rewrite Hmsg in Hok. discriminate.
  - rewrite (load_mask_reraises w image allow_empty e Himg) in Hok. discriminate.
Qed.

(** X1.  Loading a mask that [load_mask] returned gives the same mask
    again: validation accepts its own output, and making it boolean a
    second time changes nothing. *)
Theorem load_mask_idempotent (w : World) (image : image_like) (allow_empty : bool) (m : Img) :
  accepts_loaded w →
  check_img w (ImgObj m) true = Ok m →
  outcome (mask.load_mask w image allow_empty) = Ok m →
  outcome (mask.load_mask w (ImgObj m) allow_empty) = Ok m.
Proof.
  intros Hw Hm Hok.
  apply load_mask_Ok_inv in Hok as (img & Himg & Hlegal & ->); [|done].
  rewrite (load_mask_legal w _ allow_empty (boolean_image img)); [|done|done|].
  - simpl. unfold boolean_image. cbn [dataobj get_affine get_header].
    by rewrite as_ndarray_bool_idemp.
  - by apply legal_as_ndarray_bool.
Qed.

(** The mask of the spec's example, loaded twice. *)
Lemma load_mask_idempotent_witness :
  outcome (mask.load_mask (spec_world []) (ImgObj (boolean_image spec_example_mask)) true)
  = Ok (boolean_image spec_example_mask).
Proof.
  apply (load_mask_idempotent (spec_world []) (ImgObj spec_example_mask) true).
  - intros img. reflexivity.
  - reflexivity.
  - reflexivity.
Defined.

(** X2.  [load_mask] keeps the header, the affine and the shape of the
    image it was given: [get_img_info] of the mask returns the header
    and the affine of that image, and reads no voxel data for it. *)
Theorem load_mask_keeps_header_and_affine (w : World) (image : image_like)
    (allow_empty : bool) (img m : Img) :
  accepts_loaded w →
  check_img w image true = Ok img →
  outcome (mask.load_mask w image allow_empty) = Ok m →
  read.get_img_info w (ImgObj m) = (Ok (get_header img, get_affine img), [])
  ∧ img_shape m = img_shape img.
Proof.
  intros Hw Himg Hok.
  apply load_mask_Ok_inv in Hok as (img' & Himg' & _ & ->); [|done].
  assert (img' = img) as -> by congruence.
  unfold read.get_img_info. rewrite Hw. done.
Qed.

(** Header and affine of the spec's example mask, after loading it. *)
Lemma load_mask_keeps_header_and_affine_witness :
  read.get_img_info (spec_world []) (ImgObj (boolean_image spec_example_mask))
  = (Ok (get_header spec_example_mask, get_affine spec_example_mask), [])
  ∧ img_shape (boolean_image spec_example_mask) = img_shape spec_example_mask.
Proof.
  apply (load_mask_keeps_header_and_affine (spec_world []) (ImgObj spec_example_mask) true).
  - intros img. reflexivity.
  - reflexivity.
  - reflexivity.
Defined.

(** ** mask.binarise *)

(** X3.  Raising the threshold of [binarise] never adds a voxel: the
    results for two thresholds have the shape of the image, hold only
    0 and 1, and a voxel that is 1 for the higher threshold is 1 for the
    lower one. *)
Theorem binarise_threshold_monotone (w : World) (image : image_like) (img : Img)
    (t1 t2 : Z) :
  check_img w image false = Ok img →
  (t1 ≤ t2)%Z →
  ∃ v1 v2,
    outcome (mask.binarise w image t1) = Ok v1
    ∧ outcome (mask.binarise w image t2) = Ok v2
    ∧ np.shape v1 = img_shape img ∧ np.shape v2 = img_shape img
    ∧ ∀ j, (nth j (np.data v1) 0 = 0 ∨ nth j (np.data v1) 0 = 1)%Z
           ∧ (nth j (np.data v2) 0%Z = 1%Z → nth j (np.data v1) 0%Z = 1%Z).
Proof.
  intros Himg Hle. unfold mask.binarise. rewrite Himg. cbn.
  eexists _, _. split; [done|]. split; [done|]. split; [done|]. split; [done|].
  intros j. cbn [np.data np.greater].
  destruct (decide (j < length (np.data (dataobj img)))) as [Hlt|Hge].
  - rewrite !(nth_map_lt _ _ _ 0%Z) by done.
    destruct (Z.ltb_spec t1 (nth j (np.data (dataobj img)) 0%Z)),
             (Z.ltb_spec t2 (nth j (np.data (dataobj img)) 0%Z)); auto; lia.
  - rewrite !nth_overflow by (rewrite length_map; lia). split; [auto|done].
Qed.

(** Thresholds 5 and 7 on [example_volume]. *)
Lemma binarise_threshold_monotone_witness :
  ∃ v1 v2,
    outcome (mask.binarise (spec_world []) (ImgObj example_volume) 5) = Ok v1
    ∧ outcome (mask.binarise (spec_world []) (ImgObj example_volume) 7) = Ok v2
    ∧ np.shape v1 = [2; 2; 1] ∧ np.shape v2 = [2; 2; 1]
    ∧ ∀ j, (nth j (np.data v1) 0 = 0 ∨ nth j (np.data v1) 0 = 1)%Z
           ∧ (nth j (np.data v2) 0%Z = 1%Z → nth j (np.data v1) 0%Z = 1%Z).
Proof.
  apply (binarise_threshold_monotone (spec_world []) (ImgObj example_volume) example_volume).
  - reflexivity.
  - lia.
Defined.

(** ** union_mask *)

Lemma check_img_compatibility_on_grid (w : World) (first img : Img) :
  accepts_loaded w → on_grid_of first img →
  check_img_compatibility w (ImgObj first) (ImgObj img) false = Ok tt.
Proof.
  intros Hw (Hsh & Haff & _). unfold check_img_compatibility. rewrite !Hw. simpl.
  unfold have_same_shape. by rewrite !bool_decide_true.
Qed.

(** Storing a sum that was stored before: the element type wraps (or
    saturates, for booleans) once. *)
Lemma two_pow_bits (w : np.width) : (2 ^ np.bits w = 2 * 2 ^ (np.bits w - 1))%Z.
Proof. by destruct w. Qed.

Lemma two_pow_bits_pos (w : np.width) : (0 < 2 ^ (np.bits w - 1))%Z.
Proof. by destruct w. Qed.

Lemma cast_add_l (dt : np.dtype) (s x : Z) :
  (dt = np.bool_ → 0 ≤ s ∧ 0 ≤ x)%Z →
  np.cast dt (np.cast dt s + x) = np.cast dt (s + x).
Proof.
  intros Hb. destruct dt as [|w|w]; cbn [np.cast].
  - destruct Hb as [Hs Hx]; [done|].
    destruct (Z.eqb_spec s 0) as [->|Hs0]; [done|].
    destruct (Z.eqb_spec (1 + x) 0); [lia|]. destruct (Z.eqb_spec (s + x) 0); [lia|done].
  - by rewrite Zplus_mod_idemp_l.
  - f_equal.
    replace ((s + 2 ^ (np.bits w - 1)) mod 2 ^ np.bits w - 2 ^ (np.bits w - 1) + x
             + 2 ^ (np.bits w - 1))%Z
      with ((s + 2 ^ (np.bits w - 1)) mod 2 ^ np.bits w + x)%Z by lia.
    rewrite Zplus_mod_idemp_l. f_equal. lia.
Qed.

Lemma cast_idemp (dt : np.dtype) (x : Z) :
  (dt = np.bool_ → 0 ≤ x)%Z → np.cast dt (np.cast dt x) = np.cast dt x.
Proof.
  intros Hb. pose proof (cast_add_l dt x 0) as E. rewrite !Z.add_0_r in E.
  apply E. intros Hdt. split; [auto|lia].
Qed.

Lemma cast_nonneg_bool (x : Z) : (0 ≤ np.cast np.bool_ x)%Z.
Proof. cbn. by destruct (x =? 0)%Z. Qed.

(** A non-negative sum that the element type holds is stored as it is,
    up to the saturation of booleans. *)
Lemma cast_positive (dt : np.dtype) (x : Z) :
  (0 ≤ x)%Z → holds_sum dt x → (0 <? np.cast dt x)%Z = (0 <? x)%Z.
Proof.
  intros Hx Hfit. destruct dt as [|w|w]; cbn [np.cast holds_sum] in *.
  - destruct (Z.eqb_spec x 0) as [->|Hne]; [done|]. symmetry. apply Z.ltb_lt. lia.
  - by rewrite Z.mod_small by lia.
  - pose proof (two_pow_bits w). pose proof (two_pow_bits_pos w).
    rewrite Z.mod_small by lia. f_equal. lia.
Qed.

Lemma union_mask_loop_sums (w : World) (first : Img) (files : list image_like)
    (imgs : list Img) (m : np.ndarray) (roi : option Img) :
  accepts_loaded w →
  Forall2 (λ f img, check_img w f false = Ok img) files imgs →
  Forall (on_grid_of first) imgs →
  Forall (λ img, np.can_iadd (dtype_of w first) (dtype_of w img) = true) imgs →
  np.shape m = img_shape first →
  ∃ t roi',
    mask.union_mask_loop w first files m roi
    = ((Ok (np.array (img_shape first)
              (foldl (λ d img, zip_with (λ x y, np.cast (dtype_of w first) (x + y)) d
                                 (np.data (dataobj img)))
                     (np.data m) imgs)),
        t), roi').
Proof.
  intros Hw Hfiles. revert m roi.
  induction Hfiles as [|f img files imgs Hf Hfiles IH]; intros m roi Hgrid Hdt Hm.
  - simpl. exists [], roi. unfold ret. do 3 f_equal. destruct m; simpl in *; by subst.
  - apply Forall_cons in Hgrid as [Hg Hgrid]. apply Forall_cons in Hdt as [Hd Hdt].
    simpl. rewrite Hf.
    rewrite check_img_compatibility_on_grid by done.
    rewrite get_img_data_loaded by done. simpl.
    unfold np.iadd. rewrite Hd. cbn [negb]. destruct Hg as (Hsh & _ & _).
    rewrite bool_decide_true by (unfold img_shape in *; congruence). cbn [lift].
    edestruct (IH {| np.shape := np.shape m;
                     np.data := zip_with (λ x y, np.cast (dtype_of w first) (x + y))
                                  (np.data m) (np.data (dataobj img)) |}
                  (Some img)) as (t & roi' & ->); [done|done|done|].
    eexists _, _. reflexivity.
Qed.

Lemma length_foldl_zip_add (dt : np.dtype) (imgs : list Img) (d : list Z) (n : nat) :
  length d = n → Forall (λ img, length (np.data (dataobj img)) = n) imgs →
  length (foldl (λ d img, zip_with (λ x y, np.cast dt (x + y)) d (np.data (dataobj img)))
            d imgs) = n.
Proof.
  revert d. induction imgs as [|img imgs IH]; intros d Hd Hall; simpl; [done|].
  apply Forall_cons in Hall as [Hi Hall]. apply IH; [|done].
  rewrite length_zip_with. lia.
Qed.

Lemma nth_zip_add (f : Z → Z → Z) (d1 d2 : list Z) (j : nat) :
  length d1 = length d2 → j < length d1 →
  nth j (zip_with f d1 d2) 0%Z = f (nth j d1 0%Z) (nth j d2 0%Z).
Proof.
  revert d2 j. induction d1 as [|x d1 IH]; intros [|y d2] [|j] H Hj; simpl in *;
    try done; try lia.
  apply IH; lia.
Qed.

Lemma nth_nonneg (l : list Z) (j : nat) :
  Forall (λ x, 0 ≤ x)%Z l → (0 ≤ nth j l 0)%Z.
Proof.
  intros H. destruct (nth_in_or_default j l 0%Z) as [Hin| ->]; [|done].
  by eapply Forall_forall in H; [|apply list_elem_of_In].
Qed.

Lemma voxel_sum_positive (imgs : list Img) (j : nat) :
  Forall (λ img, Forall (λ x, 0 ≤ x)%Z (np.data (dataobj img))) imgs →
  (0 ≤ voxel_sum imgs j)%Z
  ∧ ((0 <? voxel_sum imgs j)%Z = some_nonzero_at imgs j).
Proof.
  induction 1 as [|img imgs Hi Hall [IH0 IH]]; simpl; [done|].
  pose proof (nth_nonneg _ j Hi) as Hx. split; [lia|].
  rewrite <- IH.
  destruct (Z.eqb_spec (nth j (np.data (dataobj img)) 0%Z) 0) as [->|Hnz]; simpl.
  - done.
  - apply Z.ltb_lt. lia.
Qed.

(** The mask after the loop holds, at every voxel, the sum of the files
    as the element type of the mask stores it. *)
Lemma nth_foldl_zip_add (dt : np.dtype) (imgs : list Img) (d : list Z) (n j : nat) :
  length d = n → Forall (λ img, length (np.data (dataobj img)) = n) imgs →
  Forall (λ img, Forall (λ x, 0 ≤ x)%Z (np.data (dataobj img))) imgs →
  j < n → (dt = np.bool_ → 0 ≤ nth j d 0)%Z → np.cast dt (nth j d 0%Z) = nth j d 0%Z →
  nth j (foldl (λ d img, zip_with (λ x y, np.cast dt (x + y)) d (np.data (dataobj img)))
           d imgs) 0%Z
  = np.cast dt (nth j d 0 + voxel_sum imgs j)%Z.
Proof.
  revert d. induction imgs as [|img imgs IH]; intros d Hd Hall Hpos Hj Hd0 Hcast; simpl.
  - by rewrite Z.add_0_r.
  - apply Forall_cons in Hall as [Hi Hall]. apply Forall_cons in Hpos as [Hp Hpos].
    pose proof (nth_nonneg _ j Hp) as Hx.
    pose proof (voxel_sum_positive imgs j Hpos) as [Hvs _].
    assert (nth j (zip_with (λ x y, np.cast dt (x + y)) d (np.data (dataobj img))) 0%Z
            = np.cast dt (nth j d 0 + nth j (np.data (dataobj img)) 0)%Z) as Hnth.
    { apply (nth_zip_add (λ x y, np.cast dt (x + y))); lia. }
    rewrite IH; [|rewrite length_zip_with; lia|done|done|done| |].
    + rewrite Hnth, cast_add_l by (intros Hb; specialize (Hd0 Hb); lia). f_equal. lia.
    + intros ->. rewrite Hnth. apply cast_nonneg_bool.
    + rewrite Hnth. apply cast_idemp. intros Hb. specialize (Hd0 Hb). lia.
Qed.

Lemma length_zeros_like (a : np.ndarray) :
  length (np.data (np.zeros_like a)) = np.size_of (np.shape a).
Proof. apply length_replicate. Qed.

Lemma nth_zeros_like (a : np.ndarray) (j : nat) : nth j (np.data (np.zeros_like a)) 0%Z = 0%Z.
Proof.
  destruct (nth_in_or_default j (np.data (np.zeros_like a)) 0%Z) as [Hin|]; [|done].
  by apply list_elem_of_In, elem_of_replicate in Hin as [? _].
Qed.

Lemma cast_zero (dt : np.dtype) : np.cast dt 0 = 0%Z.
Proof. by destruct dt as [|[]|[]]. Qed.

(** X4.  For files that all lie on the grid of the first one, whose
    element types can be added into that of the first one, that hold no
    negative value and whose sum at each voxel the element type of the
    first one can hold, [union_mask] returns the union of their
    supports: an array of the common shape that is 1 at the voxels
    where some file is non-zero and 0 at all others. *)
Theorem union_mask_is_union (w : World) (files : list image_like) (imgs : list Img)
    (first : Img) :
  accepts_loaded w →
  Forall2 (λ f img, check_img w f false = Ok img) files imgs →
  head imgs = Some first →
  Forall (on_grid_of first) imgs →
  Forall (λ img, np.can_iadd (dtype_of w first) (dtype_of w img) = true) imgs →
  Forall (λ img, Forall (λ x, 0 ≤ x)%Z (np.data (dataobj img))) imgs →
  (∀ j, j < np.size_of (img_shape first) → holds_sum (dtype_of w first) (voxel_sum imgs j)) →
  ∃ u, outcome (mask.union_mask w files) = Ok u
       ∧ np.shape u = img_shape first
       ∧ length (np.data u) = np.size_of (img_shape first)
       ∧ ∀ j, j < np.size_of (img_shape first) →
           nth j (np.data u) 0%Z = if some_nonzero_at imgs j then 1%Z else 0%Z.
Proof.
  intros Hw Hfiles Hhead Hgrid Hdt Hpos Hfit.
  destruct (union_mask_loop_sums w first files imgs (np.zeros_like (dataobj first)) None)
    as (t & roi' & Hloop); [done|done|done|done|done|].
  assert (Forall (λ img, length (np.data (dataobj img)) = np.size_of (img_shape first)) imgs)
    as Hlen.
  { eapply Forall_impl; [exact Hgrid|]. intros img (Hsh & _ & Hwf).
    unfold np.wf, img_shape in *. congruence. }
  destruct Hfiles as [|f img files imgs Hf Hfiles]; [done|].
  simpl in Hhead. injection Hhead as ->.
  unfold mask.union_mask. rewrite Hf. cbn [lift bind Img_get_data emit ret app].
  rewrite Hloop. cbn [try_except bind ret app outcome fst].
  eexists. split; [reflexivity|]. cbn [np.shape np.data as_ndarray_bool np.greater].
  split; [done|]. split.
  - rewrite !length_map. apply length_foldl_zip_add; [|done]. apply length_zeros_like.
  - intros j Hj. rewrite map_map.
    rewrite (nth_map_lt _ _ _ 0%Z).
    2:{ erewrite length_foldl_zip_add; [exact Hj| |done]. apply length_zeros_like. }
    rewrite (nth_foldl_zip_add _ _ _ (np.size_of (img_shape first)));
      [|apply length_zeros_like|done|done|done| |].
    2:{ intros _. by rewrite nth_zeros_like. }
    2:{ rewrite nth_zeros_like. apply cast_zero. }
    rewrite nth_zeros_like, Z.add_0_l.
    destruct (voxel_sum_positive (first :: imgs) j Hpos) as [Hvs <-].
    rewrite cast_positive by auto.
    by destruct (0 <? voxel_sum (first :: imgs) j)%Z.
Qed.

(** The union of [example_mask] and [example_single_voxel_mask]. *)
Lemma union_mask_is_union_witness :
  ∃ u, outcome (mask.union_mask (spec_world [])
                  [ImgObj example_mask; ImgObj example_single_voxel_mask]) = Ok u
       ∧ np.shape u = [2; 2; 1]
       ∧ length (np.data u) = 4
       ∧ ∀ j, j < 4 →
           nth j (np.data u) 0%Z
           = if some_nonzero_at [example_mask; example_single_voxel_mask] j then 1%Z else 0%Z.
Proof.
  apply (union_mask_is_union (spec_world [])
           [ImgObj example_mask; ImgObj example_single_voxel_mask]
           [example_mask; example_single_voxel_mask] example_mask).
  - intros img. reflexivity.
  - repeat constructor.
  - reflexivity.
  - repeat constructor.
  - repeat constructor.
  - repeat constructor; simpl; lia.
  - intros j Hj. do 4 (destruct j as [|j]; [by vm_compute|]). simpl in Hj. lia.
Defined.

(** ** Selecting with a mask of fewer axes *)

Lemma size_of_app (sh1 sh2 : list nat) :
  np.size_of (sh1 ++ sh2) = np.size_of sh1 * np.size_of sh2.
Proof.
  unfold np.size_of. induction sh1 as [|d sh1 IH]; simpl; [lia|]. rewrite IH. lia.
Qed.

Lemma nth_block (r : nat) (l : list Z) (i k : nat) :
  k < r → nth k (np.block r l i) 0%Z = nth (i * r + k) l 0%Z.
Proof.
  intros Hk. unfold np.block. rewrite nth_firstn.
  destruct (Nat.ltb_spec k r); [|lia]. apply nth_skipn.
Qed.

Lemma length_block (r : nat) (l : list Z) (i : nat) :
  (i + 1) * r ≤ length l → length (np.block r l i) = r.
Proof. intros H. unfold np.block. rewrite length_take, length_drop. lia. Qed.

(** Row [p] of the blocks picked at the positions [js]. *)
Lemma nth_concat_blocks (r : nat) (l : list Z) (js : list nat) (p k : nat) :
  Forall (λ j, (j + 1) * r ≤ length l) js →
  p < length js → k < r →
  nth (p * r + k) (concat (map (np.block r l) js)) 0%Z = nth (nth p js 0 * r + k) l 0%Z.
Proof.
  intros Hjs. revert p. induction Hjs as [|j js Hj Hjs IH]; intros p Hp Hk; simpl in *; [lia|].
  destruct p as [|p].
  - simpl. rewrite app_nth1 by (rewrite length_block; lia). by apply nth_block.
  - replace (S p * r + k) with (length (np.block r l j) + (p * r + k))
      by (rewrite length_block; lia).
    rewrite app_nth2_plus. apply IH; lia.
Qed.

Lemma count_nonzero_as_ndarray_bool (a : np.ndarray) :
  np.count_nonzero (as_ndarray_bool a) = np.count_nonzero a.
Proof. unfold np.count_nonzero. by rewrite flatnonzero_as_ndarray_bool. Qed.

Lemma where_as_ndarray_bool (a : np.ndarray) :
  np.where_ (as_ndarray_bool a) = np.where_ a.
Proof. unfold np.where_. by rewrite flatnonzero_as_ndarray_bool. Qed.

(** Selecting with a mask that spans the leading axes of the array. *)
Lemma getitem_mask_leading (a m : np.ndarray) (rest : list nat) :
  np.shape a = np.shape m ++ rest →
  np.getitem_mask a m
  = Ok {| np.shape := np.count_nonzero m :: rest;
          np.data := concat (map (np.block (np.size_of rest) (np.data a))
                                 (np.flatnonzero (np.data m))) |}.
Proof.
  intros Hsh. unfold np.getitem_mask. rewrite Hsh.
  by rewrite take_app_length, drop_app_length, bool_decide_true.
Qed.

(** ** mask.apply_mask_4d *)

(** What [apply_mask_4d] computes for an image whose leading axes are
    those of the mask. *)
Lemma apply_mask_4d_ok (w : World) (image mask_img : image_like) (img m : Img)
    (rest : list nat) :
  accepts_loaded w →
  check_img w image false = Ok img →
  check_img w mask_img false = Ok m →
  check_img w (ImgObj m) true = Ok m →
  get_affine img = get_affine m →
  img_shape img = img_shape m ++ rest →
  3 ≤ length (img_shape m) →
  legal_mask_values (distinct_values (dataobj m)) true →
  outcome (mask.apply_mask_4d w image mask_img)
  = Ok ({| np.shape := np.count_nonzero (dataobj m) :: rest;
           np.data := concat (map (np.block (np.size_of rest) (np.data (dataobj img)))
                                  (np.flatnonzero (np.data (dataobj m)))) |},
        np.where_ (dataobj m), img_shape img).
Proof.
  intros Hw Himg Hm Hm3 Haff Hsh H3 Hlegal.
  assert (check_img_compatibility w (ImgObj img) (ImgObj m) true = Ok tt) as Hcompat.
  { unfold check_img_compatibility. rewrite !Hw. simpl. unfold have_same_shape.
    rewrite Hsh, take_app_le by lia. by rewrite !bool_decide_true. }
  unfold mask.apply_mask_4d. rewrite Himg, Hm. simpl. rewrite Hcompat. simpl.
  unfold mask._apply_mask_to_4d_data, mask.load_mask_data.
  rewrite (load_mask_legal w (ImgObj m) true m) by done.
  simpl. rewrite get_img_data_loaded by done. simpl.
  rewrite (getitem_mask_leading _ _ rest) by done. simpl.
  by rewrite count_nonzero_as_ndarray_bool, where_as_ndarray_bool,
       <- (flatnonzero_as_ndarray_bool (dataobj m)).
Qed.

(** X5.  For a series whose leading axes are those of a valid mask,
    [apply_mask_4d] returns one row per true voxel of the mask: row [p]
    is what the series holds along its remaining axes at the voxel whose
    coordinates stand at position [p] of the returned indices.  The
    third result is the shape of the series. *)
Theorem apply_mask_4d_selects_series (w : World) (image mask_img : image_like)
    (img m : Img) (rest : list nat) :
  accepts_loaded w →
  check_img w image false = Ok img →
  check_img w mask_img false = Ok m →
  check_img w (ImgObj m) true = Ok m →
  get_affine img = get_affine m →
  img_shape img = img_shape m ++ rest →
  3 ≤ length (img_shape m) →
  np.wf (dataobj img) → np.wf (dataobj m) →
  legal_mask_values (distinct_values (dataobj m)) true →
  ∃ series indices,
    outcome (mask.apply_mask_4d w image mask_img) = Ok (series, indices, img_shape img)
    ∧ indices = np.where_ (dataobj m)
    ∧ np.shape series = np.count_nonzero (dataobj m) :: rest
    ∧ ∀ p k, p < np.count_nonzero (dataobj m) → k < np.size_of rest →
        nth (p * np.size_of rest + k) (np.data series) 0%Z
        = nth (np.ravel_multi_index (img_shape m) (np.coords indices p) * np.size_of rest + k)
              (np.data (dataobj img)) 0%Z.
Proof.
  intros Hw Himg Hm Hm3 Haff Hsh H3 Hwfi Hwfm Hlegal.
  eexists _, _. split; [by apply (apply_mask_4d_ok w image mask_img img m rest)|].
  split; [done|]. split; [done|].
  intros p k Hp Hk. cbn [np.data].
  rewrite coords_where by done.
  rewrite ravel_unravel by (rewrite <- Hwfm; by apply nth_flatnonzero_lt).
  apply nth_concat_blocks; [|done|done].
  apply Forall_forall. intros j Hj%flatnonzero_lt.
  unfold np.wf in *. fold (img_shape img) in Hwfi. fold (img_shape m) in Hwfm.
  rewrite Hwfi, Hsh, size_of_app. rewrite Hwfm in Hj. nia.
Qed.

(** [example_series] under [example_mask]. *)
Lemma apply_mask_4d_selects_series_witness :
  ∃ series indices,
    outcome (mask.apply_mask_4d (spec_world []) (ImgObj example_series) (ImgObj example_mask))
    = Ok (series, indices, [2; 2; 1; 2])
    ∧ indices = np.where_ (dataobj example_mask)
    ∧ np.shape series = [np.count_nonzero (dataobj example_mask); 2]
    ∧ ∀ p k, p < np.count_nonzero (dataobj example_mask) → k < 2 →
        nth (p * 2 + k) (np.data series) 0%Z
        = nth (np.ravel_multi_index [2; 2; 1] (np.coords indices p) * 2 + k)
              [1; 2; 3; 4; 5; 6; 7; 8]%Z 0%Z.
Proof.
  apply (apply_mask_4d_selects_series (spec_world []) (ImgObj example_series)
           (ImgObj example_mask) example_series example_mask [2]).
  - intros img. reflexivity.
  - reflexivity.
  - reflexivity.
  - reflexivity.
  - reflexivity.
  - reflexivity.
  - simpl. lia.
  - reflexivity.
  - reflexivity.
  - exact legal_example_mask.
Defined.

(** X6.  On a volume that has the shape of the mask, [apply_mask_4d]
    returns the values and the indices that [apply_mask] returns, and
    the shape of the volume besides. *)
Theorem apply_mask_4d_agrees_with_apply_mask (w : World) (image mask_img : image_like)
    (img m : Img) :
  accepts_loaded w →
  check_img w image false = Ok img →
  check_img w mask_img false = Ok m →
  check_img w mask_img true = Ok m →
  check_img w (ImgObj m) true = Ok m →
  get_affine img = get_affine m →
  img_shape img = img_shape m →
  3 ≤ length (img_shape m) →
  np.wf (dataobj img) → np.wf (dataobj m) →
  legal_mask_values (distinct_values (dataobj m)) true →
  ∃ values indices,
    outcome (mask.apply_mask w image mask_img) = Ok (values, indices)
    ∧ outcome (mask.apply_mask_4d w image mask_img) = Ok (values, indices, img_shape img).
Proof.
  intros Hw Himg Hm Hmt Hm3 Haff Hsh H3 Hwfi Hwfm Hlegal.
  eexists _, _. split.
  - rewrite (apply_mask_ok w image mask_img img m m); try done.
    unfold check_img_compatibility. rewrite !Hw. simpl. unfold have_same_shape.
    by rewrite !bool_decide_true.
  - rewrite (apply_mask_4d_ok w image mask_img img m []); try done.
    2:{ by rewrite app_nil_r. }
    rewrite where_as_ndarray_bool. do 3 f_equal. unfold selected_voxels.
    rewrite count_nonzero_as_ndarray_bool. f_equal.
    rewrite <- (concat_singletons (λ i, nth i (np.data (dataobj img)) 0%Z)). f_equal.
    apply map_ext_in. intros i Hi. apply block_one.
    apply list_elem_of_In, flatnonzero_lt in Hi.
    unfold np.wf, img_shape in *. rewrite Hsh in Hwfi. lia.
Qed.

(** [example_volume] under [example_mask], both ways. *)
Lemma apply_mask_4d_agrees_with_apply_mask_witness :
  ∃ values indices,
    outcome (mask.apply_mask (spec_world []) (ImgObj example_volume) (ImgObj example_mask))
    = Ok (values, indices)
    ∧ outcome (mask.apply_mask_4d (spec_world []) (ImgObj example_volume) (ImgObj example_mask))
      = Ok (values, indices, [2; 2; 1]).
Proof.
  apply (apply_mask_4d_agrees_with_apply_mask (spec_world []) (ImgObj example_volume)
           (ImgObj example_mask) example_volume example_mask).
  - intros img. reflexivity.
  - reflexivity.
  - reflexivity.
  - reflexivity.
  - reflexivity.
  - reflexivity.
  - reflexivity.
  - simpl. lia.
  - reflexivity.
  - reflexivity.
  - exact legal_example_mask.
Defined.

(** ** niftilist_mask_to_array returns for one-voxel masks only *)

Lemma getitem_tuple_where_shape (vol a row : np.ndarray) :
  np.shape a ≠ [] → np.shape vol = np.shape a →
  np.getitem_tuple vol (np.where_ a) = Ok row →
  np.shape row = [np.count_nonzero a].
Proof.
  intros Hne Hsh. unfold np.getitem_tuple.
  destruct (np.where_ a) as [|arr idx] eqn:Hidx.
  { apply (f_equal length) in Hidx. rewrite length_where in Hidx.
    destruct (np.shape a); [done|discriminate]. }
  rewrite <- Hidx. destruct (np.valid_index (np.shape vol) (np.where_ a)); [|discriminate].
  intros [= <-]. cbn [np.shape].
  rewrite index_count_where by done.
  rewrite length_where, Hsh, drop_all. done.
Qed.

Lemma setitem_row_one_column (n i k : nat) (row out : np.ndarray) :
  np.shape row = [k] →
  np.setitem_row (np.zeros [n; 1]) i row = Ok out → k = 1.
Proof.
  intros Hrow. unfold np.setitem_row. cbn [np.zeros np.shape].
  destruct (negb (i <? n)); [discriminate|].
  rewrite Hrow. unfold np.broadcastable_to_row. cbn [reverse rev_append forallb].
  change (reverse [k]) with [k].
  destruct (k =? 1) eqn:Hk; simpl; [|discriminate].
  intros _. by apply Nat.eqb_eq.
Qed.

(** X7.  [niftilist_mask_to_array] can only return when the file list is
    not empty and the mask has exactly one true voxel: the output matrix
    is allocated with a single column, and a row of any other length
    cannot be assigned to it.  Nor does it return unless the call names
    the element type of the output. *)
Theorem niftilist_mask_to_array_returns_for_one_voxel_only (w : World)
    (img_filelist : list image_like) (mask_file : image_like) (outdtype : option np.dtype)
    (m : Img) (outmat : np.ndarray) (indices : list (list nat)) (sh : list nat) :
  accepts_loaded w →
  check_img w mask_file true = Ok m →
  check_img w mask_file false = Ok m →
  img_shape m ≠ [] →
  outcome (mask.niftilist_mask_to_array w img_filelist mask_file outdtype)
  = Ok (outmat, indices, sh) →
  img_filelist ≠ [] ∧ np.count_nonzero (dataobj m) = 1 ∧ is_Some outdtype.
Proof.
  intros Hw Hmt Hmf Hne Hok.
  destruct img_filelist as [|f rest]; [discriminate|]. split; [done|].
  destruct (check_img w f false) as [img0|e] eqn:Hf.
  2:{ unfold mask.niftilist_mask_to_array in Hok. rewrite Hf in Hok. discriminate. }
  destruct outdtype as [dt|].
  2:{ unfold mask.niftilist_mask_to_array in Hok. rewrite Hf in Hok. discriminate. }
  split; [|done].
  destruct (mask.load_mask w mask_file true) as [[mask|e] t_mask] eqn:Hmask.
  2:{ unfold mask.niftilist_mask_to_array in Hok. rewrite Hf in Hok.
      cbn [lift bind ret app] in Hok. rewrite Hmask in Hok. discriminate. }
  assert (mask = boolean_image m) as ->.
  { destruct (load_mask_Ok_inv w mask_file true mask Hw) as (img & Himg & _ & ->).
    - by rewrite Hmask.
    - congruence. }
  rewrite (niftilist_unfold w f rest mask_file dt img0 _ t_mask Hw Hf Hmask) in Hok.
  cbn [mask.niftilist_mask_to_array_loop] in Hok. rewrite Hf in Hok.
  destruct (are_compatible_imgs w (ImgObj img0) mask_file) eqn:Hcompat;
    cbn [negb bind raise ret] in Hok.
  2:{ discriminate. }
  rewrite get_img_data_loaded in Hok by done. cbn [bind ret lift app] in Hok.
  assert (img_shape img0 = img_shape m) as Hsh.
  { unfold are_compatible_imgs, check_img_compatibility in Hcompat.
    rewrite Hw, Hmf in Hcompat. simpl in Hcompat. unfold have_same_shape in Hcompat.
    case_bool_decide; [done|]. simpl in Hcompat. discriminate. }
  cbn [boolean_image dataobj] in Hok.
  destruct (np.getitem_tuple (dataobj img0) (np.where_ (as_ndarray_bool (dataobj m))))
    as [row|e] eqn:Hrow.
  2:{ simpl in Hok. discriminate. }
  apply getitem_tuple_where_shape in Hrow; [|done|done].
  cbn [lift] in Hok.
  match type of Hok with
  | context [np.setitem_row ?o 0 (np.astype dt row)] =>
      destruct (np.setitem_row o 0 (np.astype dt row)) as [om|e] eqn:Hset
  end.
  2:{ simpl in Hok. discriminate. }
  apply (setitem_row_one_column (length (f :: rest)) 0 _ (np.astype dt row) om Hrow) in Hset.
  unfold np.count_nonzero in *. by rewrite flatnonzero_as_ndarray_bool in Hset.
Qed.

(** The call that returns, on [example_single_voxel_mask]. *)
Lemma niftilist_mask_to_array_returns_for_one_voxel_only_witness :
  [ImgObj example_volume] ≠ [] ∧ np.count_nonzero (dataobj example_single_voxel_mask) = 1
  ∧ is_Some (Some np.int64).
Proof.
  apply (niftilist_mask_to_array_returns_for_one_voxel_only (spec_world [])
           [ImgObj example_volume] (ImgObj example_single_voxel_mask) (Some np.int64)
           example_single_voxel_mask
           (np.array [1; 1] [8]%Z)
           (np.where_ (dataobj example_single_voxel_mask)) [2; 2; 1]).
  - intros img. reflexivity.
  - reflexivity.
  - reflexivity.
  - discriminate.
  - reflexivity.
Defined.

(** ** niftilist_mask_to_array with a one-voxel mask *)

Lemma getitem_tuple_one_voxel (vol a : np.ndarray) (v : nat) :
  np.shape vol = np.shape a → np.shape a ≠ [] → np.wf vol → np.wf a →
  np.flatnonzero (np.data a) = [v] →
  np.getitem_tuple vol (np.where_ a) = Ok (np.array [1] [nth v (np.data vol) 0%Z]).
Proof.
  intros Hsh Hne Hvol Ha Hv. unfold np.getitem_tuple.
  destruct (np.where_ a) as [|arr idx] eqn:Hidx.
  { apply (f_equal length) in Hidx. rewrite length_where in Hidx.
    destruct (np.shape a); [done|discriminate]. }
  rewrite <- Hidx. rewrite Hsh, valid_index_where by done.
  rewrite index_count_where, Hv by done. cbn [length seq map concat].
  rewrite length_where, drop_all, take_ge by lia.
  rewrite coords_where by (rewrite Hv; simpl; lia). rewrite Hv. cbn [nth].
  assert (v < length (np.data a)) as Hlt.
  { apply flatnonzero_lt. rewrite Hv. by left. }
  rewrite ravel_unravel by (by rewrite <- Ha).
  change (np.size_of []) with 1. rewrite block_one, app_nil_r; [done|].
  unfold np.wf in *. rewrite Hvol, Hsh, <- Ha. done.
Qed.

Lemma setitem_row_one_value (out : np.ndarray) (n i : nat) (x : Z) :
  np.shape out = [n; 1] → i < n →
  np.setitem_row out i (np.array [1] [x])
  = Ok (np.array [n; 1] (take i (np.data out) ++ [x] ++ drop (S i) (np.data out))).
Proof.
  intros Hout Hi. unfold np.setitem_row. rewrite Hout.
  destruct (Nat.ltb_spec i n); [|lia]. cbn.
  by rewrite Nat.mul_1_r, Nat.add_1_r.
Qed.

Lemma are_compatible_imgs_on_grid (w : World) (mask_file : image_like) (m img : Img) :
  accepts_loaded w → check_img w mask_file false = Ok m → on_grid_of m img →
  are_compatible_imgs w (ImgObj img) mask_file = true.
Proof.
  intros Hw Hm (Hsh & Haff & _). unfold are_compatible_imgs, check_img_compatibility.
  rewrite Hw, Hm. simpl. unfold have_same_shape. by rewrite !bool_decide_true.
Qed.

(** The loop over files on the grid of a mask with the single true
    voxel [v]: rows [i], [i+1], ... receive the value at [v], stored
    with the element type of the matrix. *)
Lemma niftilist_mask_to_array_loop_column (w : World) (mask_file : image_like)
    (dt : np.dtype) (m : Img) (v : nat) (files : list image_like) (imgs : list Img)
    (i n : nat) (outmat : np.ndarray) (img0 : Img) :
  accepts_loaded w →
  check_img w mask_file false = Ok m →
  img_shape m ≠ [] → np.wf (dataobj m) →
  np.flatnonzero (np.data (dataobj m)) = [v] →
  Forall2 (λ f img, check_img w f false = Ok img) files imgs →
  Forall (on_grid_of m) imgs →
  np.shape outmat = [n; 1] → length (np.data outmat) = n →
  i + length files ≤ n →
  ∃ t img',
    mask.niftilist_mask_to_array_loop w mask_file dt (np.where_ (dataobj m)) files i outmat
      img0
    = ((Ok (np.array [n; 1]
              (take i (np.data outmat) ++ map (np.cast dt) (column_at v imgs)
               ++ drop (i + length imgs) (np.data outmat))), t), img').
Proof.
  intros Hw Hm Hne Hwfm Hv Hfiles. revert i outmat img0.
  induction Hfiles as [|f img files imgs Hf Hfiles IH];
    intros i outmat img0 Hgrid Hsh Hlen Hi.
  - exists [], img0. cbn. unfold ret. rewrite Nat.add_0_r, take_drop.
    destruct outmat; simpl in *; by subst.
  - apply Forall_cons in Hgrid as [Hg Hgrid]. simpl in Hi.
    cbn [mask.niftilist_mask_to_array_loop]. rewrite Hf.
    rewrite (are_compatible_imgs_on_grid w mask_file m img) by done.
    cbn [negb bind ret]. rewrite get_img_data_loaded by done. cbn [bind lift app].
    destruct Hg as (Hshape & _ & Hwfi).
    rewrite (getitem_tuple_one_voxel _ _ v) by done.
    change (np.astype dt (np.array [1] [nth v (np.data (dataobj img)) 0%Z]))
      with (np.array [1] [np.cast dt (nth v (np.data (dataobj img)) 0%Z)]).
    rewrite (setitem_row_one_value outmat n i) by (done || lia).
    edestruct (IH (S i) (np.array [n; 1]
                           (take i (np.data outmat)
                            ++ [np.cast dt (nth v (np.data (dataobj img)) 0%Z)]
                            ++ drop (S i) (np.data outmat))) img)
      as (t & img' & Ht); [done|done| |lia|].
    { cbn [np.data]. rewrite !length_app, length_take, length_drop. cbn [length]. lia. }
    rewrite Ht. eexists _, img'. cbn [np.data column_at map length].
    assert (length (take i (np.data outmat)) = i) as Hl by (rewrite length_take; lia).
    do 4 f_equal.
    rewrite (take_app_ge _ _ (S i)) by lia.
    rewrite Hl. replace (S i - i) with 1 by lia. cbn [take app].
    rewrite <- !app_assoc. cbn [app]. do 2 f_equal.
    rewrite take_0, app_nil_l. fold (column_at v imgs). f_equal.
    rewrite drop_app_ge by (rewrite Hl; lia).
    rewrite Hl. replace (S i + length imgs - i) with (S (length imgs)) by lia.
    cbn [drop]. rewrite drop_drop. f_equal. lia.
Qed.

(** X8.  Called with an element type [dt] for the output, a valid mask
    that has a single true voxel and files that all lie on the grid of
    the mask, [niftilist_mask_to_array] returns the one-column matrix
    that holds, for each file in order, its value at that voxel as [dt]
    stores it, together with the indices of the voxel and the shape of
    the mask. *)
Theorem niftilist_mask_to_array_one_voxel_column (w : World) (files : list image_like)
    (imgs : list Img) (mask_file : image_like) (dt : np.dtype) (m : Img) (v : nat) :
  accepts_loaded w →
  check_img w mask_file true = Ok m →
  check_img w mask_file false = Ok m →
  img_shape m ≠ [] → np.wf (dataobj m) →
  legal_mask_values (distinct_values (dataobj m)) true →
  np.flatnonzero (np.data (dataobj m)) = [v] →
  files ≠ [] →
  Forall2 (λ f img, check_img w f false = Ok img) files imgs →
  Forall (on_grid_of m) imgs →
  outcome (mask.niftilist_mask_to_array w files mask_file (Some dt))
  = Ok (np.array [length files; 1] (map (np.cast dt) (column_at v imgs)),
        np.where_ (dataobj m), img_shape m).
Proof.
  intros Hw Hmt Hmf Hne Hwfm Hlegal Hv Hfiles Hall Hgrid.
  pose proof (Forall2_length _ _ _ Hall) as Hlen.
  destruct files as [|f files]; [done|].
  inversion Hall as [|? img0 ? imgs' Hf Hall']; subst.
  rewrite (niftilist_unfold w f files mask_file dt img0 (boolean_image m)
             [EvGetData m; EvGetData m]); [|done|done|by apply load_mask_legal].
  cbn [boolean_image dataobj]. rewrite where_as_ndarray_bool.
  destruct (niftilist_mask_to_array_loop_column w mask_file dt m v (f :: files)
              (img0 :: imgs') 0
              (length (f :: files)) (np.zeros [length (f :: files); 1]) img0)
    as (t & img' & Hloop); try done.
  { cbn [np.zeros np.data]. rewrite length_replicate. unfold np.size_of. simpl. lia. }
  change (np.count_nonzero_object _) with 1. rewrite Hloop.
  cbn [outcome fst]. do 3 f_equal.
  cbn [np.zeros np.data take app]. rewrite drop_ge, app_nil_r; [done|].
  rewrite length_replicate. unfold np.size_of. simpl. simpl in Hlen. lia.
Qed.

(** Two volumes under [example_single_voxel_mask], stored as booleans. *)
Lemma niftilist_mask_to_array_one_voxel_column_witness :
  outcome (mask.niftilist_mask_to_array (spec_world [])
             [ImgObj example_volume; ImgObj example_mask] (ImgObj example_single_voxel_mask)
             (Some np.bool_))
  = Ok (np.array [2; 1] (map (np.cast np.bool_) (column_at 3 [example_volume; example_mask])),
        np.where_ (dataobj example_single_voxel_mask), [2; 2; 1]).
Proof.
  apply (niftilist_mask_to_array_one_voxel_column (spec_world [])
           [ImgObj example_volume; ImgObj example_mask] [example_volume; example_mask]
           (ImgObj example_single_voxel_mask) np.bool_ example_single_voxel_mask 3).
  - intros img. reflexivity.
  - reflexivity.
  - reflexivity.
  - discriminate.
  - reflexivity.
  - right. split; [by vm_compute|]. apply (bool_decide_unpack _). by vm_compute.
  - reflexivity.
  - discriminate.
  - repeat constructor.
  - repeat constructor.
Defined.

(** ** read.niftilist_to_array *)

Lemma get_img_data_ok (w : World) (image : image_like) (img : Img) :
  check_img w image false = Ok img →
  read.get_img_data w image true = (Ok (dataobj img), [EvGetData img]).
Proof. intros H. unfold read.get_img_data. by rewrite H. Qed.

Lemma setitem_row_flatten (out : np.ndarray) (n c i : nat) (vol : np.ndarray) :
  np.shape out = [n; c] → i < n → np.wf vol → np.size_of (np.shape vol) = c →
  np.setitem_row out i (np.flatten vol)
  = Ok {| np.shape := [n; c];
          np.data := take (i * c) (np.data out) ++ np.data vol
                     ++ drop (i * c + c) (np.data out) |}.
Proof.
  intros Hout Hi Hwf Hc. unfold np.setitem_row. rewrite Hout.
  destruct (Nat.ltb_spec i n); [|lia]. cbn [negb].
  unfold np.flatten. cbn [np.shape np.data]. unfold np.broadcastable_to_row.
  change (reverse [np.size_of (np.shape vol)]) with [np.size_of (np.shape vol)].
  rewrite Hc, Nat.eqb_refl. cbn [orb andb forallb].
  unfold np.wf in Hwf. rewrite Hwf, Hc, Nat.eqb_refl. done.
Qed.

Lemma length_stacked_rows (c : nat) (imgs : list Img) :
  Forall (has_voxels c) imgs → length (stacked_rows imgs) = length imgs * c.
Proof.
  unfold stacked_rows. induction 1 as [|img imgs [Hwf Hc] _ IH]; simpl; [done|].
  rewrite length_app, IH. unfold np.wf, img_shape in *. lia.
Qed.

(** The loop over files that can all be read and have [c] voxels each:
    rows [i], [i+1], ... of the matrix receive the flattened volumes. *)
Lemma niftilist_to_array_loop_rows (w : World) (files : list image_like) (imgs : list Img)
    (i n c : nat) (outmat vol0 : np.ndarray) (last_file : option image_like) :
  Forall2 (λ f img, check_img w f false = Ok img) files imgs →
  Forall (has_voxels c) imgs →
  np.shape outmat = [n; c] → length (np.data outmat) = n * c →
  i + length files ≤ n →
  ∃ t,
    read.niftilist_to_array_loop w files i outmat vol0 last_file
    = ((Ok ({| np.shape := [n; c];
               np.data := take (i * c) (np.data outmat) ++ stacked_rows imgs
                          ++ drop ((i + length imgs) * c) (np.data outmat) |},
            default vol0 (last (dataobj <$> imgs))), t),
       from_option Some last_file (last files)).
Proof.
  intros Hfiles. revert i outmat vol0 last_file.
  induction Hfiles as [|f img files imgs Hf Hfiles IH];
    intros i outmat vol0 last_file Hall Hsh Hlen Hi.
  - exists []. simpl. unfold ret, stacked_rows. simpl.
    rewrite Nat.add_0_r, take_drop. destruct outmat; simpl in *; by subst.
  - apply Forall_cons in Hall as [[Hwf Hc] Hall]. simpl in Hi.
    cbn [read.niftilist_to_array_loop].
    rewrite (get_img_data_ok w f img Hf). cbn [bind].
    rewrite (setitem_row_flatten outmat n c i) by (done || lia).
    cbn [lift bind ret app].
    edestruct (IH (S i) {| np.shape := [n; c];
                           np.data := take (i * c) (np.data outmat) ++ np.data (dataobj img)
                                      ++ drop (i * c + c) (np.data outmat) |}
                  (dataobj img) (Some f)) as [t Ht]; [done|done| |lia|].
    { cbn [np.data]. rewrite !length_app, length_take, length_drop.
      unfold np.wf, img_shape in *. nia. }
    rewrite Ht. exists (EvGetData img :: t). cbn [np.data].
    assert (from_option Some (Some f) (last files)
            = from_option Some last_file (last (f :: files))) as ->.
    { destruct files as [|f0 files]; [done|]. rewrite last_cons_cons.
      destruct (last (f0 :: files)) eqn:Hl; [done|]. by apply last_None in Hl. }
    assert (default (dataobj img) (last (dataobj <$> imgs))
            = default vol0 (last (dataobj <$> img :: imgs))) as ->.
    { rewrite fmap_cons. destruct (dataobj <$> imgs) as [|v vs]; [done|].
      rewrite last_cons_cons.
      destruct (last (v :: vs)) eqn:Hl; [done|]. by apply last_None in Hl. }
    assert (length (take (i * c) (np.data outmat)) = i * c) as Hl1
      by (rewrite length_take; nia).
    assert (length (np.data (dataobj img)) = c) as Hl2
      by (unfold np.wf, img_shape in *; lia).
    do 4 f_equal.
    unfold stacked_rows. cbn [map concat]. fold (stacked_rows imgs).
    rewrite (take_app_ge _ _ (S i * c)) by lia.
    rewrite (take_app_ge _ _ (S i * c - _)) by lia.
    replace (S i * c - length (take (i * c) (np.data outmat))
             - length (np.data (dataobj img))) with 0 by lia.
    rewrite take_0, app_nil_r, <- !app_assoc. do 3 f_equal.
    rewrite (drop_app_ge _ _ ((S i + length imgs) * c)) by lia.
    rewrite (drop_app_ge _ _ ((S i + length imgs) * c - _)) by lia.
    rewrite drop_drop. do 2 f_equal. cbn [length]. lia.
Qed.



Lemma niftilist_to_array_loop_app (w : World) (pre rest : list image_like) (i : nat)
    (outmat vol outmat' vol' : np.ndarray) (last_file last_file' : option image_like)
    (t : list event) :
  read.niftilist_to_array_loop w pre i outmat vol last_file
  = ((Ok (outmat', vol'), t), last_file') →
  read.niftilist_to_array_loop w (pre ++ rest) i outmat vol last_file
  = (let '((r, t'), final) :=
       read.niftilist_to_array_loop w rest (i + length pre) outmat' vol' last_file' in
     ((r, t ++ t'), final)).
Proof.
  revert i outmat vol last_file t.
  induction pre as [|f pre IH]; intros i outmat vol last_file t.
  - cbn [read.niftilist_to_array_loop app length ret]. intros [= <- <- <- <-].
    rewrite Nat.add_0_r.
    by destruct (read.niftilist_to_array_loop w rest i outmat vol last_file) as [[r t'] fin].
  - cbn [read.niftilist_to_array_loop app length].
    match goal with |- context [match ?s with _ => _ end] =>
      destruct s as [[[om v]|e] t0] eqn:Hstep end; [|discriminate].
    destruct (read.niftilist_to_array_loop w pre (S i) om v (Some f))
      as [[[[om1 v1]|e1] t1] fin1] eqn:Hpre; [|discriminate].
    intros [= <- <- <- <-].
    rewrite (IH _ _ _ _ _ Hpre).
    replace (i + S (length pre)) with (S i + length pre) by lia.
    destruct (read.niftilist_to_array_loop w rest (S i + length pre) om1 v1 fin1)
      as [[r t'] fin].
    by rewrite app_assoc.
Qed.

(** X10.  A file that cannot be read aborts the whole batch: when the
    files before it were read and stacked, [niftilist_to_array] raises
    the very exception [check_img] raised for it, and returns no
    matrix. *)
Theorem niftilist_to_array_aborts_on_unreadable_file (w : World)
    (format_item : image_like → string) (pre post : list image_like) (f : image_like)
    (imgs : list Img) (c : nat) (e : exn) :
  Forall2 (λ f img, check_img w f false = Ok img) pre imgs →
  Forall (has_voxels c) imgs →
  (∀ first, head imgs = Some first → img_shape first ≠ []) →
  check_img w f false = Raise e →
  outcome (read.niftilist_to_array w format_item (pre ++ f :: post)) = Raise e.
Proof.
  intros Hpre Hall Hne Hf.
  assert (read.get_img_data w f true
          = (Raise e, [EvLog ("Error when reading file " +:+ repr_imgs w f +:+ ".")]))
    as Hget by (unfold read.get_img_data; by rewrite Hf).
  unfold read.niftilist_to_array.
  destruct Hpre as [|f0 first pre imgs Hf0 Hpre].
  - cbn [app]. rewrite Hget. unfold try_except_if. cbn [try_except].
    by destruct (is_IndexError e).
  - cbn [app]. rewrite (get_img_data_ok w f0 first Hf0).
    unfold try_except_if. cbn [try_except bind].
    specialize (Hne first eq_refl). unfold img_shape in Hne.
    destruct (np.shape (dataobj first)) as [|d ds] eqn:Hshape; [done|].
    rewrite <- Hshape. cbn [ret bind app].
    pose proof Hall as Hall'. apply Forall_cons in Hall' as [[_ Hc] _].
    unfold img_shape in Hc. rewrite Hc.
    set (n := length (f0 :: pre ++ f :: post)).
    change (f0 :: pre ++ f :: post) with ((f0 :: pre) ++ f :: post).
    destruct (niftilist_to_array_loop_rows w (f0 :: pre) (first :: imgs) 0 n c
                (np.zeros [n; c]) (dataobj first) None) as [t Hloop];
      [by constructor|done|done| | |].
    { cbn [np.zeros np.data]. rewrite length_replicate. unfold np.size_of. simpl. lia. }
    { unfold n. cbn [length]. rewrite length_app. cbn [length]. lia. }
    rewrite (niftilist_to_array_loop_app _ _ _ _ _ _ _ _ _ _ _ Hloop).
    cbn [read.niftilist_to_array_loop]. rewrite Hget. cbn [bind try_except].
    done.
Qed.

(** A missing file between two volumes. *)
Lemma niftilist_to_array_aborts_on_unreadable_file_witness :
  outcome (read.niftilist_to_array (spec_world []) repr_imgs_spec
             ([ImgObj example_volume] ++ Path "missing.nii" :: [ImgObj example_mask]))
  = Raise (FileNotFound "missing.nii").
Proof.
  apply (niftilist_to_array_aborts_on_unreadable_file (spec_world []) repr_imgs_spec
           [ImgObj example_volume] [ImgObj example_mask] (Path "missing.nii")
           [example_volume] 4).
  - repeat constructor.
  - repeat constructor.
  - intros first [= <-]. discriminate.
  - reflexivity.
Defined.

Lemma setitem_row_other_size (out : np.ndarray) (n c i : nat) (vol : np.ndarray) :
  np.shape out = [n; c] → i < n →
  np.size_of (np.shape vol) ≠ c → np.size_of (np.shape vol) ≠ 1 →
  np.setitem_row out i (np.flatten vol) = Raise (ValueError "could not broadcast input array").
Proof.
  intros Hout Hi Hc H1. unfold np.setitem_row. rewrite Hout.
  destruct (Nat.ltb_spec i n); [|lia]. cbn [negb].
  unfold np.flatten. cbn [np.shape np.data]. unfold np.broadcastable_to_row.
  change (reverse [np.size_of (np.shape vol)]) with [np.size_of (np.shape vol)].
  apply Nat.eqb_neq in Hc, H1. cbn beta iota. by rewrite Hc, H1.
Qed.

(** X11.  A file whose number of voxels is neither that of the first file
    nor one aborts the batch with a ValueError: its flattened volume
    does not fit a row of the matrix. *)
Theorem niftilist_to_array_rejects_other_size (w : World)
    (format_item : image_like → string) (pre post : list image_like) (f : image_like)
    (imgs : list Img) (first img : Img) :
  Forall2 (λ f img, check_img w f false = Ok img) pre imgs →
  head imgs = Some first →
  img_shape first ≠ [] →
  Forall (has_voxels (np.size_of (img_shape first))) imgs →
  check_img w f false = Ok img →
  np.size_of (img_shape img) ≠ np.size_of (img_shape first) →
  np.size_of (img_shape img) ≠ 1 →
  outcome (read.niftilist_to_array w format_item (pre ++ f :: post))
  = Raise (ValueError "could not broadcast input array")
  ∧ last (events (read.niftilist_to_array w format_item (pre ++ f :: post)))
    = Some (EvLog ("Error on reading file " +:+ format_item f +:+ ".")).
Proof.
  intros Hpre Hhead Hne Hall Hf Hc H1.
  unfold read.niftilist_to_array.
  destruct Hpre as [|f0 first' pre imgs Hf0 Hpre]; [done|].
  injection Hhead as ->.
  cbn [app]. rewrite (get_img_data_ok w f0 first Hf0).
  unfold try_except_if. cbn [try_except bind].
  unfold img_shape in Hne.
  destruct (np.shape (dataobj first)) as [|d ds] eqn:Hshape; [done|].
  rewrite <- Hshape. fold (img_shape first). cbn [ret bind app].
  set (n := length (f0 :: pre ++ f :: post)).
  change (f0 :: pre ++ f :: post) with ((f0 :: pre) ++ f :: post).
  destruct (niftilist_to_array_loop_rows w (f0 :: pre) (first :: imgs) 0 n
              (np.size_of (img_shape first))
              (np.zeros [n; np.size_of (img_shape first)]) (dataobj first) None) as [t Hloop];
    [by constructor|done|done| | |].
  { cbn [np.zeros np.data]. rewrite length_replicate. unfold np.size_of. simpl. lia. }
  { unfold n. cbn [length]. rewrite length_app. cbn [length]. lia. }
  rewrite (niftilist_to_array_loop_app _ _ _ _ _ _ _ _ _ _ _ Hloop).
  cbn [read.niftilist_to_array_loop]. rewrite (get_img_data_ok w f img Hf). cbn [bind].
  erewrite (setitem_row_other_size _ n (np.size_of (img_shape first)) _ (dataobj img)).
  2:{ reflexivity. }
  2:{ unfold n. cbn [length]. rewrite length_app. cbn [length]. lia. }
  2:{ exact Hc. }
  2:{ exact H1. }
  cbn [lift bind try_except log_and_reraise log_exception emit raise app].
  split; [done|]. cbn [events snd].
  by rewrite app_comm_cons, last_snoc.
Qed.

(** Three voxels after four. *)
Lemma niftilist_to_array_rejects_other_size_witness :
  outcome (read.niftilist_to_array (spec_world []) repr_imgs_spec
             ([ImgObj example_volume] ++ ImgObj example_other_shape :: []))
  = Raise (ValueError "could not broadcast input array")
  ∧ last (events (read.niftilist_to_array (spec_world []) repr_imgs_spec
                    ([ImgObj example_volume] ++ ImgObj example_other_shape :: [])))
    = Some (EvLog ("Error on reading file " +:+ repr_imgs_spec (ImgObj example_other_shape)
                   +:+ ".")).
Proof.
  apply (niftilist_to_array_rejects_other_size (spec_world []) repr_imgs_spec
           [ImgObj example_volume] [] (ImgObj example_other_shape)
           [example_volume] example_volume example_other_shape).
  - repeat constructor.
  - reflexivity.
  - discriminate.
  - repeat constructor.
  - reflexivity.
  - vm_compute. lia.
  - vm_compute. lia.
Defined.

(** ** rcfile.merge, algebraically *)

Lemma py_or_assoc (a b c : pyval) : py_or (py_or a b) c = py_or a (py_or b c).
Proof.
  unfold py_or. destruct (truthy a) eqn:Ha; [by rewrite Ha|done].
Qed.

Lemma py_or_idemp (a : pyval) : py_or a a = a.
Proof. unfold py_or. by destruct (truthy a). Qed.

Lemma dom_merge (d1 d2 : gmap string pyval) :
  dom (rcfile.merge d1 d2) = dom d1 ∪ dom d2.
Proof.
  apply set_eq. intros k. rewrite elem_of_dom, elem_of_union. split.
  - intros [v Hv]. apply merge_lookup_Some in Hv. tauto.
  - intros Hk. exists (py_or (py_get d1 k) (py_get d2 k)). by apply merge_lookup_Some.
Qed.

Lemma merge_ext (d d' : gmap string pyval) :
  dom d = dom d' → (∀ k, py_get d k = py_get d' k) → d = d'.
Proof.
  intros Hdom Hget. apply map_eq. intros k. specialize (Hget k). unfold py_get in Hget.
  destruct (d !! k) as [v|] eqn:H1, (d' !! k) as [v'|] eqn:H2; simpl in Hget.
  - by subst.
  - apply not_elem_of_dom in H2. rewrite <- Hdom in H2.
    exfalso. apply H2, elem_of_dom. eauto.
  - apply not_elem_of_dom in H1. rewrite Hdom in H1.
    exfalso. apply H1, elem_of_dom. eauto.
  - done.
Qed.

(** X12.  [merge] is associative and idempotent: a chain of sources can
    be merged in any grouping, with the leftmost truthy value winning,
    and merging a dict with itself changes nothing. *)
Theorem merge_assoc_idemp (d1 d2 d3 : gmap string pyval) :
  rcfile.merge (rcfile.merge d1 d2) d3 = rcfile.merge d1 (rcfile.merge d2 d3)
  ∧ rcfile.merge d1 d1 = d1.
Proof.
  split.
  - apply merge_ext.
    + rewrite !dom_merge. apply set_eq. intros k. rewrite !elem_of_union. tauto.
    + intros k. rewrite !py_get_merge. apply py_or_assoc.
  - apply merge_ext.
    + rewrite dom_merge. apply set_eq. intros k. rewrite elem_of_union. tauto.
    + intros k. rewrite py_get_merge. apply py_or_idemp.
Qed.

(** ** Values that come from the environment *)

Lemma dict_of_pairs_VStr (pairs : list (string * string)) (key : string → string)
    (k : string) (x : pyval) :
  dict_of_pairs (map (λ kv, (key kv.1, VStr kv.2)) pairs) !! k = Some x → ∃ v, x = VStr v.
Proof.
  induction pairs as [|[n v0] l IH] using rev_ind.
  - cbn. by rewrite lookup_empty.
  - rewrite map_app. cbn [map]. rewrite dict_of_pairs_snoc. cbn [fst snd].
    destruct (decide (key n = k)) as [<-|Hne].
    + rewrite lookup_insert_eq. intros [= <-]. eauto.
    + rewrite lookup_insert_ne by done. exact IH.
Qed.

Lemma get_environment_VStr (s : Sys) (appname k : string) (x : pyval) :
  rcfile.get_environment s appname !! k = Some x → ∃ v, x = VStr v.
Proof.
  unfold rcfile.get_environment.
  apply (dict_of_pairs_VStr _ (λ n, str.lower (str.replace n (str.upper appname +:+ "_") ""))).
Qed.

(** X13.  [rcfile] never returns a falsy value that came from the
    arguments or the config files: a value of the settings that is not
    truthy is what the environment holds for the key, that is None (no
    such variable) or the empty string.  A flag passed as False or 0
    comes out as None. *)
Theorem rcfile_falsy_value_is_from_environment (s : Sys) (appname : string)
    (section : option string) (args args' : PyDictObject) (strip_dashes : bool)
    (settings : gmap string pyval) (k : string) (v : pyval) :
  rcfile.rcfile s appname section args strip_dashes = (Ok settings, args') →
  settings !! k = Some v →
  truthy v = false →
  v = py_get (rcfile.get_environment s appname) k ∧ (v = VNone ∨ v = VStr "").
Proof.
  intros Hrc Hk Hv. apply rcfile_Ok_inv in Hrc as ->.
  unfold merged_sources in Hk. apply merge_lookup_Some in Hk as [_ Hk].
  assert (v = py_get (rcfile.get_environment s appname) k) as Henv.
  { unfold py_or in Hk. destruct (truthy (py_get (rcfile.merge _ _) k)) eqn:Ht; [|done].
    rewrite <- Hk in Ht. congruence. }
  split; [done|]. rewrite Henv in Hv |- *. unfold py_get in *.
  destruct (rcfile.get_environment s appname !! k) as [x|] eqn:Hx; [|by left].
  apply get_environment_VStr in Hx as [y ->]. right. simpl in *.
  destruct (String.eqb_spec y ""); [by subst|done].
Qed.

(** The key [b] of [rcfile_example]: False in the arguments, empty in
    the config file, absent from the environment. *)
Lemma rcfile_falsy_value_is_from_environment_witness :
  VNone = py_get (rcfile.get_environment example_cfg_sys "app") "b"
  ∧ (VNone = VNone ∨ VNone = VStr "").
Proof.
  apply (rcfile_falsy_value_is_from_environment example_cfg_sys "app" None
           (dict_of_items example_args) example_args_after true
           (merged_sources example_cfg_sys "app" None example_args_stripped) "b" VNone).
  - by vm_compute.
  - by vm_compute.
  - reflexivity.
Defined.

(** ** Stripping the dashes of a dict with room to grow *)










(** ** Lookups without arguments *)





(** ** rcfile.find_in_sections *)








(** ** rcfile.get_sys_path *)


Example get_sys_path_example :
  outcome (rcfile.get_sys_path example_sys example_files "path" "app" None) = Ok "/data"
  ∧ outcome (rcfile.get_sys_path example_sys example_files "/data" "app" None) = Ok "/data"
  ∧ ∃ msg, outcome (rcfile.get_sys_path example_sys example_files "verbose" "app" None)
           = Raise (IOError msg).
Proof. repeat split; try by vm_compute. eexists. by vm_compute. Qed.

(** ** commands.which_py2 *)

(** X19.  A path returned by [which_py2] is an executable file.  It is
    the program name itself when that has a folder part, and otherwise
    the first of the PATH candidates that is an executable file. *)
Theorem which_py2_returns_first_executable (os : Os) (program exe : string) :
  commands.which_py2 os program = Ok (Some exe) →
  commands.is_exe os exe = true
  ∧ ((path_split os program).1 ≠ "" ∧ exe = program
     ∨ (path_split os program).1 = ""
       ∧ ∃ paths before after,
           list_to_map (M := gmap string string) (environ os) !! "PATH" = Some paths
           ∧ path_candidates os program paths = before ++ exe :: after
           ∧ Forall (λ c, commands.is_exe os c = false) before).
Proof.
  unfold commands.which_py2. destruct (path_split os program) as [fpath fname]. cbn [fst].
  destruct (String.eqb_spec fpath "") as [->|Hne]; cbn [negb].
  - destruct (list_to_map (environ os) !! "PATH") as [paths|]; [|discriminate].
    fold (path_candidates os program paths).
    destruct (list_find (commands.is_exe os) (path_candidates os program paths))
      as [[i c]|] eqn:Hfind; [|discriminate].
    cbn. intros [= <-].
    apply list_find_Some in Hfind as (Hi & Hexe & Hbefore).
    split; [by apply Is_true_true|]. right. split; [done|].
    exists paths, (take i (path_candidates os program paths)),
      (drop (S i) (path_candidates os program paths)).
    split; [done|]. split; [by rewrite take_drop_middle|].
    apply Forall_forall. intros b Hb.
    apply list_elem_of_lookup in Hb as [j Hj].
    pose proof (lookup_lt_Some _ _ _ Hj) as Hlt. rewrite length_take in Hlt.
    rewrite lookup_take_lt in Hj by lia.
    specialize (Hbefore j b Hj ltac:(lia)).
    destruct (commands.is_exe os b); [|done]. by exfalso.
  - destruct (commands.is_exe os program) eqn:Hexe; [|discriminate].
    intros [= <-]. split; [done|]. by left.
Qed.

(** [ls] is found in the second folder of PATH. *)
Lemma which_py2_returns_first_executable_witness :
  commands.is_exe example_os "/usr/bin/ls" = true
  ∧ ((path_split example_os "ls").1 ≠ "" ∧ "/usr/bin/ls" = "ls"
     ∨ (path_split example_os "ls").1 = ""
       ∧ ∃ paths before after,
           list_to_map (M := gmap string string) (environ example_os) !! "PATH" = Some paths
           ∧ path_candidates example_os "ls" paths = before ++ "/usr/bin/ls" :: after
           ∧ Forall (λ c, commands.is_exe example_os c = false) before).
Proof.
  apply (which_py2_returns_first_executable example_os "ls" "/usr/bin/ls").
  by vm_compute.
Defined.

(** X20.  For a program name without a folder part, [which_py2] needs the
    variable PATH: without it the call raises KeyError.  A name with a
    folder part never reads PATH. *)
Theorem which_py2_needs_PATH_for_bare_names (os : Os) (program : string) :
  list_to_map (M := gmap string string) (environ os) !! "PATH" = None →
  commands.which_py2 os program
  = if String.eqb (path_split os program).1 ""
    then Raise (KeyError "PATH")
    else Ok (if commands.is_exe os program then Some program else None).
Proof.
  intros Hpath. unfold commands.which_py2.
  destruct (path_split os program) as [fpath fname]. cbn [fst].
  destruct (String.eqb fpath ""); cbn [negb].
  - by rewrite Hpath.
  - by destruct (commands.is_exe os program).
Qed.

(** Without PATH the lookup of [ls] raises. *)
Lemma which_py2_needs_PATH_for_bare_names_witness :
  commands.which_py2 example_os_without_PATH "ls"
  = if String.eqb (path_split example_os_without_PATH "ls").1 ""
    then Raise (KeyError "PATH")
    else Ok (if commands.is_exe example_os_without_PATH "ls" then Some "ls" else None).
Proof.
  apply (which_py2_needs_PATH_for_bare_names example_os_without_PATH "ls").
  reflexivity.
Defined.

(** ** commands.condor_submit, commands.condor_call *)

Lemma split_whitespace_nil (sp : ascii → bool) (s : string) :
  str.split_whitespace sp s = [] ↔ all_whitespace sp s = true.
Proof.
  induction s as [|c s IH]; [done|].
  cbn [str.split_whitespace all_whitespace].
  destruct (sp c); cbn [andb]; [done|].
  split; [|done].
  destruct s as [|c' s']; [done|].
  destruct (sp c'); [done|].
  by destruct (str.split_whitespace sp (String c' s')).
Qed.

(** X21.  [condor_call] on a command with at least one word, when no call
    raises: it logs the command, asks for the HTCondor status, logs and
    runs the submission, and then runs the command itself exactly when
    the submission returned a non-zero code.  The code returned by the
    status query plays no part. *)
Theorem condor_call_falls_back_iff_submission_fails (sp : Subprocess) (cmd : string)
    (shell : bool) (name : string) (words : list string) (status rc : Z) (n : nat) :
  str.split_whitespace (isspace sp) cmd = name :: words →
  subprocess_call sp n "condor_status" true = Ok status →
  subprocess_call sp (S n) (qsub_command name cmd) true = Ok rc →
  commands.condor_call sp cmd shell n
  = if (rc =? 0)%Z then
      (Ok tt,
       [ProcInfo cmd; ProcCall "condor_status" true;
        ProcInfo ("Calling: condor_qsub -shell n -b y -r y -N " +:+ name +:+ " -m n");
        ProcCall (qsub_command name cmd) true],
       S (S n))
    else
      (match subprocess_call sp (S (S n)) cmd shell with
       | Ok _ => Ok tt
       | Raise e => Raise e
       end,
       [ProcInfo cmd; ProcCall "condor_status" true;
        ProcInfo ("Calling: condor_qsub -shell n -b y -r y -N " +:+ name +:+ " -m n");
        ProcCall (qsub_command name cmd) true; ProcCall cmd shell],
       S (S (S n))).
Proof.
  intros Hwords Hstatus Hrc.
  unfold commands.condor_call, commands.condor_submit, pbind, ptry, call, log_info, pret.
  rewrite Hstatus, Hwords. fold (qsub_command name cmd). rewrite Hrc.
  destruct (rc =? 0)%Z; cbn [negb]; [done|].
  by destruct (subprocess_call sp (S (S n)) cmd shell).
Qed.

(** Without HTCondor, [ls -l] is run directly. *)
Lemma condor_call_falls_back_iff_submission_fails_witness :
  commands.condor_call example_subprocess "ls -l" true 0
  = (Ok tt,
     [ProcInfo "ls -l"; ProcCall "condor_status" true;
      ProcInfo "Calling: condor_qsub -shell n -b y -r y -N ls -m n";
      ProcCall "condor_qsub -shell n -b y -r y -N ls -m n ls -l" true;
      ProcCall "ls -l" true],
     3).
Proof.
  exact (condor_call_falls_back_iff_submission_fails example_subprocess "ls -l" true
           "ls" ["-l"] 127 127 0 eq_refl eq_refl eq_refl).
Defined.

(** X22.  A command without a word (empty, or whitespace only) is never
    run: after the status query [condor_submit] raises IndexError, and
    [condor_call] passes it on instead of falling back to a direct
    call. *)
Theorem condor_call_blank_command (sp : Subprocess) (cmd : string) (shell : bool)
    (status : Z) (n : nat) :
  all_whitespace (isspace sp) cmd = true →
  subprocess_call sp n "condor_status" true = Ok status →
  commands.condor_call sp cmd shell n
  = (Raise (IndexError "list index out of range"),
     [ProcInfo cmd; ProcCall "condor_status" true], S n).
Proof.
  intros Hwords%split_whitespace_nil Hstatus.
  unfold commands.condor_call, commands.condor_submit, pbind, ptry, call, log_info, pret.
  by rewrite Hstatus, Hwords.
Qed.

(** Two spaces for a command. *)
Lemma condor_call_blank_command_witness :
  commands.condor_call example_subprocess "  " true 0
  = (Raise (IndexError "list index out of range"),
     [ProcInfo "  "; ProcCall "condor_status" true], 1).
Proof.
  exact (condor_call_blank_command example_subprocess "  " true 127 0 eq_refl eq_refl).
Defined.

(** ** storage.ExportData.save_variables *)

Lemma lower_out_exts (ext : string) : ext ∈ storage.out_exts → str.lower ext = ext.
Proof.
  unfold storage.out_exts. rewrite !elem_of_cons, elem_of_nil.
  intros [->|[->|[->|[->|[->|[]]]]]]; reflexivity.
Qed.

Lemma eqb_out_exts (ext : string) :
  ext ∉ storage.out_exts →
  String.eqb ext ".pyshelf" = false ∧ String.eqb ext ".shelf" = false
  ∧ String.eqb ext ".mat" = false ∧ String.eqb ext ".hdf5" = false
  ∧ String.eqb ext ".h5" = false.
Proof.
  unfold storage.out_exts. rewrite !not_elem_of_cons. intros (? & ? & ? & ? & ? & _).
  repeat split; by apply String.eqb_neq.
Qed.

(** X23.  [save_variables] writes under the file name it was given, or
    not at all.  The writer is chosen by the lower-cased extension; for
    any other extension the call logs an error, raises nothing and
    writes nothing: the name with [.pyshelf] added that it prepares for
    this case is never used. *)
Theorem save_variables_writes_given_name_or_nothing {V} (st : Store V) (filename : string)
    (variables : list (string * V)) :
  let ext := str.lower (get_extension st filename) in
  storage.save_variables st filename variables
  = if bool_decide (ext = ".pyshelf" ∨ ext = ".shelf") then
      storage.save_variables_to_shelve st filename variables
    else if bool_decide (ext = ".mat") then
      storage.save_variables_to_mat st filename variables "5"
    else if bool_decide (ext = ".hdf5" ∨ ext = ".h5") then
      storage.save_variables_to_hdf5 st filename variables "w" "/"
    else
      (Ok tt, [StoreLog ("Filename extension " +:+ get_extension st filename
                         +:+ " not accepted.")]).
Proof.
  intros ext. unfold storage.save_variables. fold ext.
  destruct (decide (ext ∈ storage.out_exts)) as [Hin|Hout].
  - rewrite bool_decide_true by done. cbn [negb].
    unfold storage.out_exts in Hin. rewrite !elem_of_cons, elem_of_nil in Hin.
    destruct Hin as [->|[->|[->|[->|[->|[]]]]]]; reflexivity.
  - rewrite bool_decide_false by done. cbn [negb].
    assert (get_extension st filename ∉ storage.out_exts) as Hraw.
    { intros Hin. apply Hout. unfold ext. by rewrite lower_out_exts. }
    destruct (eqb_out_exts _ Hraw) as (-> & -> & -> & -> & ->). cbn [orb].
    unfold storage.out_exts in Hout. rewrite !not_elem_of_cons in Hout.
    destruct Hout as (? & ? & ? & ? & ? & _).
    rewrite !bool_decide_false by tauto. reflexivity.
Qed.

(** ** The writers and their files *)

(** X24.  Once the file is open and its group found, [save_variables_to_hdf5]
    closes the file on every path: whether the variables were written
    or one of them failed, its last step is [h5file.close()].  A failed
    variable is logged and its exception raised again, unless closing
    fails too. *)
Theorem save_variables_to_hdf5_always_closes {V} (st : Store V) (file_path mode h5path : string)
    (variables : list (string * V)) :
  lib_call st (H5Open file_path mode) = Ok tt →
  lib_call st (H5RequireGroup h5path) = Ok tt →
  last (storage.save_variables_to_hdf5 st file_path variables mode h5path).2 = Some H5Close.
Proof.
  intros Hopen Hgroup. unfold storage.save_variables_to_hdf5, storage.lib.
  rewrite Hopen, Hgroup. cbn [storage.sbind].
  destruct (storage.save_variables_to_hdf5_loop st variables None) as [[r t] vn] eqn:Hloop.
  assert (∀ (body : storage.IO unit),
            last (storage.sfinally body (lib_call st H5Close, [H5Close])).2 = Some H5Close)
    as Hfin.
  { intros [r0 t0]. unfold storage.sfinally.
    destruct (lib_call st H5Close); cbn [snd]; by rewrite last_snoc. }
  match goal with
  | |- context [storage.sfinally ?b ?f] =>
      specialize (Hfin b); destruct (storage.sfinally b f) as [r1 t1]
  end.
  cbn [snd] in *.
  destruct t1 as [|x t1 _] using rev_ind; [done|].
  rewrite last_snoc in Hfin. by rewrite !app_assoc, last_snoc.
Qed.

(** Three variables, the second of which cannot be written. *)
Lemma save_variables_to_hdf5_always_closes_witness :
  last (storage.save_variables_to_hdf5 example_store "out.h5"
          [("a", 1%Z); ("bad", 2%Z); ("c", 3%Z)] "w" "/").2
  = Some H5Close.
Proof.
  apply (save_variables_to_hdf5_always_closes example_store "out.h5" "w" "/"); reflexivity.
Defined.

(** X25.  [save_variables_to_shelve] closes the shelf only when every
    variable was stored: when storing one of them fails, the failure is
    logged and raised again, the variables after it are not stored, and
    the shelf is left open. *)
Theorem save_variables_to_shelve_leaves_shelf_open {V} (st : Store V) (file_path : string)
    (before after : list (string * V)) (vn : string) (data : V) (e : exn) :
  lib_call st (ShelveOpen file_path) = Ok tt →
  Forall (λ v, lib_call st (ShelveSet v.1) = Ok tt) before →
  lib_call st (ShelveSet vn) = Raise e →
  storage.save_variables_to_shelve st file_path (before ++ (vn, data) :: after)
  = (Raise e,
     ShelveOpen file_path :: map (λ v, ShelveSet v.1) before
     ++ [ShelveSet vn; StoreLog ("Error shelving variable " +:+ vn)]).
Proof.
  intros Hopen Hbefore Hvn. unfold storage.save_variables_to_shelve, storage.lib.
  rewrite Hopen. cbn [storage.sbind].
  assert (storage.save_variables_to_shelve_loop st (before ++ (vn, data) :: after).*1
          = (Raise e, map (λ v, ShelveSet v.1) before
                      ++ [ShelveSet vn; StoreLog ("Error shelving variable " +:+ vn)])) as ->.
  { induction Hbefore as [|[name d] before Hname _ IH]; cbn.
    - unfold storage.lib. by rewrite Hvn.
    - cbn in Hname. unfold storage.lib at 1. rewrite Hname. cbn.
      cbn in IH. by rewrite IH. }
  reflexivity.
Qed.

(** The same three variables, shelved. *)
Lemma save_variables_to_shelve_leaves_shelf_open_witness :
  storage.save_variables_to_shelve example_store "out.shelf"
    ([("a", 1%Z)] ++ ("bad", 2%Z) :: [("c", 3%Z)])
  = (Raise (LibraryError "cannot write"),
     ShelveOpen "out.shelf" :: map (λ v, ShelveSet v.1) [("a", 1%Z)]
     ++ [ShelveSet "bad"; StoreLog ("Error shelving variable " +:+ "bad")]).
Proof.
  apply (save_variables_to_shelve_leaves_shelf_open example_store "out.shelf"
           [("a", 1%Z)] [("c", 3%Z)] "bad" 2%Z).
  - reflexivity.
  - repeat constructor.
  - reflexivity.
Defined.

Example save_variables_example :
  storage.save_variables example_store "out.MAT" [("a", 1%Z)]
  = (Ok tt, [SaveMat "out.MAT" "5"])
  ∧ storage.save_variables example_store "out" [("a", 1%Z)]
    = (Ok tt, [StoreLog "Filename extension  not accepted."]).
Proof. split; reflexivity. Qed.

(** ** storage.ExportData.save_varlist *)

Lemma save_varlist_loop_short {V} (varnames : list string) (varlist : list V) (i : nat)
    (variables : list (string * V)) :
  i ≤ length varlist → length varlist < i + length varnames →
  storage.save_varlist_loop varnames varlist i variables
  = (Raise (IndexError "list index out of range"), []).
Proof.
  revert i variables. induction varnames as [|vn rest IH]; intros i variables Hi Hlen.
  - simpl in Hlen. lia.
  - cbn [storage.save_varlist_loop]. destruct (varlist !! i) as [obj|] eqn:Hobj; [|done].
    apply lookup_lt_Some in Hobj. apply IH; [lia|]. simpl in Hlen. lia.
Qed.

Lemma assign_fresh {V} (variables : list (string * V)) (vn : string) (obj : V) :
  vn ∉ variables.*1 → storage.assign variables vn obj = variables ++ [(vn, obj)].
Proof. intros H. unfold storage.assign. by rewrite bool_decide_false. Qed.

Lemma save_varlist_loop_pairs {V} (varnames : list string) (varlist done_objs rest_objs : list V)
    (variables : list (string * V)) :
  varlist = done_objs ++ rest_objs →
  length varnames ≤ length rest_objs →
  NoDup (variables.*1 ++ varnames) →
  storage.save_varlist_loop varnames varlist (length done_objs) variables
  = (Ok (variables ++ zip varnames rest_objs), []).
Proof.
  revert done_objs rest_objs variables.
  induction varnames as [|vn rest IH]; intros done_objs rest_objs variables -> Hlen Hnd.
  - cbn. by rewrite app_nil_r.
  - destruct rest_objs as [|obj rest_objs]; [simpl in Hlen; lia|].
    cbn [storage.save_varlist_loop]. rewrite list_lookup_middle by done.
    rewrite assign_fresh.
    2:{ apply NoDup_app in Hnd as (_ & Hdisj & _). intros Hin. apply (Hdisj vn Hin). by left. }
    replace (S (length done_objs)) with (length (done_objs ++ [obj]))
      by (rewrite length_app; simpl; lia).
    rewrite (IH (done_objs ++ [obj]) rest_objs).
    + cbn [zip zip_with]. by rewrite <- app_assoc.
    + by rewrite <- app_assoc.
    + simpl in Hlen. lia.
    + rewrite fmap_app. cbn [fmap list_fmap fst]. by rewrite <- app_assoc.
Qed.

(** X26.  [save_varlist] pairs the names with the objects by position.
    With fewer objects than names it raises IndexError before anything
    is written or logged; with distinct names and at least as many
    objects it saves each name with the object at its position, and
    objects beyond the last name are dropped without notice. *)
Theorem save_varlist_pairs_by_position {V} (st : Store V) (filename : string)
    (varnames : list string) (varlist : list V) :
  (length varlist < length varnames →
   storage.save_varlist st filename varnames varlist
   = (Raise (IndexError "list index out of range"), []))
  ∧ (length varnames ≤ length varlist → NoDup varnames →
     storage.save_varlist st filename varnames varlist
     = storage.save_variables st filename (zip varnames varlist)).
Proof.
  unfold storage.save_varlist. split.
  - intros Hlen. by rewrite save_varlist_loop_short by (simpl; lia).
  - intros Hlen Hnd.
    change 0 with (length (@nil V)).
    rewrite (save_varlist_loop_pairs varnames varlist [] varlist []) by done.
    cbn [storage.sbind app].
    destruct (storage.save_variables st filename (zip varnames varlist)) as [r t].
    done.
Qed.

Example save_varlist_example :
  storage.save_varlist example_store "out.MAT" ["a"; "b"] [1%Z]
  = (Raise (IndexError "list index out of range"), [])
  ∧ storage.save_varlist example_store "out.MAT" ["a"] [1%Z; 2%Z]
    = (Ok tt, [SaveMat "out.MAT" "5"]).
Proof. split; reflexivity. Qed.
